(** * Boxtracker: the inventory state container and its persistence

    A shallow embedding of the two revisions of [InventoryService]
    (the blob-keyed one in [src/services/inventory.service.ts], which
    saves to [localStorage], and the transactional one, which saves to
    IndexedDB and migrates the blobs), together with the guard that
    [AppComponent.createNewBox] puts in front of [addBox].

    Conventions of the embedding:
    - a JavaScript [number] holding a time stamp is a [Z];
    - a JavaScript string is the [string] of the bytes of its UTF-8
      encoding;
    - [T | null] and an optional property are [option T];
    - [Date.now()] and [crypto.randomUUID()] are inputs of the operation
      that calls them;
    - an [async] method is a state transformer that ends in [Returned]
      (the promise resolved) or in [Threw] (it rejected). *)

From Stdlib Require Import ZArith Lia List Ascii String Bool.
From Stdlib Require Import DecimalFacts DecimalZ.
From Stdlib Require Import Sorting.Sorted Sorting.Permutation.
From stdpp Require Import base option list gmap strings.

Open Scope string_scope.
Open Scope list_scope.
Open Scope Z_scope.

(** ** JavaScript primitives used by the service *)

Module JS.

(** [s || d] on an optional string: [undefined] and the empty string
    are falsy. *)
Definition or_string (o : option string) (d : string) : string :=
  match o with
  | Some s => if String.eqb s EmptyString then d else s
  | None => d
  end.

(** [a || d] on an optional array: every array is truthy. *)
Definition or_array {A} (o : option (list A)) (d : list A) : list A :=
  match o with
  | Some a => a
  | None => d
  end.

(** Truthiness of [string | null], as tested by [if (x)] and [!x]. *)
Definition truthy (o : option string) : bool :=
  match o with
  | Some s => negb (String.eqb s EmptyString)
  | None => false
  end.

(** [s === o] where [o : string | null]. *)
Definition strict_eq (s : string) (o : option string) : bool :=
  match o with
  | Some t => String.eqb s t
  | None => false
  end.

(** The code points of WhiteSpace and LineTerminator, each by the bytes
    of its UTF-8 encoding: TAB, LF, VT, FF, CR, SPACE, U+00A0, U+1680,
    U+2000 to U+200A, U+2028, U+2029, U+202F, U+205F, U+3000, U+FEFF. *)
Definition white_space : list string :=
  List.map (fun bytes => string_of_list_ascii (List.map ascii_of_nat bytes))
    [[9]; [10]; [11]; [12]; [13]; [32]; [194; 160]; [225; 154; 128];
     [226; 128; 128]; [226; 128; 129]; [226; 128; 130]; [226; 128; 131];
     [226; 128; 132]; [226; 128; 133]; [226; 128; 134]; [226; 128; 135];
     [226; 128; 136]; [226; 128; 137]; [226; 128; 138];
     [226; 128; 168]; [226; 128; 169]; [226; 128; 175]; [226; 129; 159];
     [227; 128; 128]; [239; 187; 191]]%nat.

Definition reverse_string (s : string) : string :=
  string_of_list_ascii (List.rev (list_ascii_of_string s)).

Fixpoint strip_prefix (p s : string) : option string :=
  match p with
  | EmptyString => Some s
  | String c p' =>
      match s with
      | EmptyString => None
      | String d s' => if Ascii.eqb c d then strip_prefix p' s' else None
      end
  end.

(** [s] without the first of [tokens] that it starts with. *)
Fixpoint strip_any (tokens : list string) (s : string) : option string :=
  match tokens with
  | [] => None
  | t :: tokens' =>
      match strip_prefix t s with
      | Some r => Some r
      | None => strip_any tokens' s
      end
  end.

Fixpoint strip_all (tokens : list string) (fuel : nat) (s : string)
  : string :=
  match fuel with
  | O => s
  | S fuel' =>
      match strip_any tokens s with
      | Some r => strip_all tokens fuel' r
      | None => s
      end
  end.

Definition trimStart (s : string) : string :=
  strip_all white_space (String.length s) s.

Definition trimEnd (s : string) : string :=
  reverse_string
    (strip_all (List.map reverse_string white_space) (String.length s)
       (reverse_string s)).

(** [String.prototype.trim]. *)
Definition trim (s : string) : string := trimEnd (trimStart s).

(** [Array.prototype.sort(compareFn)]: the sort is stable, and
    [compareFn a b <= 0] keeps [a] in front of [b]. *)
Fixpoint sort_insert {A} (compareFn : A -> A -> Z) (x : A) (l : list A)
  : list A :=
  match l with
  | [] => [x]
  | y :: l' => if compareFn x y <=? 0 then x :: y :: l'
               else y :: sort_insert compareFn x l'
  end.

Definition Array_sort {A} (compareFn : A -> A -> Z) (l : list A) : list A :=
  foldr (sort_insert compareFn) [] l.

End JS.

(** ** Data model *)

Module Box.
Record t := mk {
  id : string;
  name : string;
  isFull : bool;
  createdAt : Z
}.

(** [{ ...b, isFull }] *)
Definition with_isFull (b : t) (v : bool) : t :=
  {| id := id b; name := name b; isFull := v; createdAt := createdAt b |}.
End Box.

Module Item.
Record t := mk {
  id : string;
  boxId : string;
  boxName : string;
  imageUrl : string;
  name : string;
  description : string;
  tags : list string;
  timestamp : Z
}.
End Item.

(** [Partial<Item>]: every property may be missing. *)
Module PartialItem.
Record t := mk {
  id : option string;
  boxId : option string;
  boxName : option string;
  imageUrl : option string;
  name : option string;
  description : option string;
  tags : option (list string);
  timestamp : option Z
}.

(** The object literal [{}]. *)
Definition empty : t := mk None None None None None None None None.
End PartialItem.

(** [Partial<Omit<Item, 'id'>>] *)
Module ItemUpdates.
Record t := mk {
  boxId : option string;
  boxName : option string;
  imageUrl : option string;
  name : option string;
  description : option string;
  tags : option (list string);
  timestamp : option Z
}.

(** [{ ...item, ...updates }] *)
Definition merge (item : Item.t) (u : t) : Item.t :=
  {| Item.id := Item.id item;
     Item.boxId := default (Item.boxId item) (boxId u);
     Item.boxName := default (Item.boxName item) (boxName u);
     Item.imageUrl := default (Item.imageUrl item) (imageUrl u);
     Item.name := default (Item.name item) (name u);
     Item.description := default (Item.description item) (description u);
     Item.tags := default (Item.tags item) (tags u);
     Item.timestamp := default (Item.timestamp item) (timestamp u) |}.
End ItemUpdates.

(** ** The signals shared by both revisions, and their derived views *)

Module Views.

(** [boxes.find(b => b.id === boxId)] *)
Definition find_box (boxes : list Box.t) (boxId : string) : option Box.t :=
  List.find (fun b => String.eqb (Box.id b) boxId) boxes.

(** [boxes().find(b => b.id === currentBoxId()) || null] *)
Definition currentBox (boxes : list Box.t) (currentBoxId : option string)
  : option Box.t :=
  List.find (fun b => JS.strict_eq (Box.id b) currentBoxId) boxes.

(** [items().filter(i => i.boxId === currentBoxId())
             .sort((a, b) => b.timestamp - a.timestamp)] *)
Definition itemsInCurrentBox (items : list Item.t)
    (currentBoxId : option string) : list Item.t :=
  JS.Array_sort (fun a b => Item.timestamp b - Item.timestamp a)
    (List.filter (fun i => JS.strict_eq (Item.boxId i) currentBoxId) items).

(** The [newItem] literal of [addItem]. *)
Definition newItem (uuid : string) (now : Z) (boxId : string) (box : Box.t)
    (itemData : PartialItem.t) : Item.t :=
  {| Item.id := uuid;
     Item.boxId := boxId;
     Item.boxName := Box.name box;
     Item.imageUrl := JS.or_string (PartialItem.imageUrl itemData) EmptyString;
     Item.name := JS.or_string (PartialItem.name itemData) "Unknown Item";
     Item.description :=
       JS.or_string (PartialItem.description itemData) EmptyString;
     Item.tags := JS.or_array (PartialItem.tags itemData) [];
     Item.timestamp := now |}.

(** The [newBox] literal of [addBox]. *)
Definition newBox (uuid : string) (now : Z) (name : string) : Box.t :=
  {| Box.id := uuid; Box.name := name; Box.isFull := false;
     Box.createdAt := now |}.

End Views.

(** ** The platform: [JSON.stringify] and [JSON.parse]

    The blob-keyed layout stores [JSON.stringify (boxes)] and
    [JSON.stringify (items)]. The embedding follows ECMAScript on the
    values this program stores: [null], booleans, integral numbers,
    strings, arrays and objects. Numbers with a fraction or an exponent
    are not read. *)

Module JSON.

#[warnings="-register-all"]
Inductive value :=
| Null
| Bool (b : bool)
| Number (n : Z)
| Str (s : string)
| Array (l : list value)
| Object (l : list (string * value)).

Abbreviation chars := list_ascii_of_string.

Definition dquote : ascii := "034"%char.
Definition backslash : ascii := "\"%char.

(** *** [JSON.stringify] *)

Definition hex_digit (n : nat) : ascii :=
  nth n (chars "0123456789abcdef") "0"%char.

(** QuoteJSONString, one code unit. *)
Definition escape (c : ascii) : list ascii :=
  let n := nat_of_ascii c in
  if Ascii.eqb c dquote then [backslash; dquote]
  else if Ascii.eqb c backslash then [backslash; backslash]
  else if (n =? 8)%nat then [backslash; "b"%char]
  else if (n =? 9)%nat then [backslash; "t"%char]
  else if (n =? 10)%nat then [backslash; "n"%char]
  else if (n =? 12)%nat then [backslash; "f"%char]
  else if (n =? 13)%nat then [backslash; "r"%char]
  else if (n <? 32)%nat then
    [backslash; "u"%char; "0"%char; "0"%char;
     hex_digit (n / 16); hex_digit (n mod 16)]
  else [c].

Fixpoint quote_body (s : string) : list ascii :=
  match s with
  | EmptyString => []
  | String c s' => escape c ++ quote_body s'
  end.

Definition quote (s : string) : list ascii :=
  dquote :: quote_body s ++ [dquote].

Fixpoint digits (u : Decimal.uint) : list ascii :=
  match u with
  | Decimal.Nil => []
  | Decimal.D0 u' => "0"%char :: digits u'
  | Decimal.D1 u' => "1"%char :: digits u'
  | Decimal.D2 u' => "2"%char :: digits u'
  | Decimal.D3 u' => "3"%char :: digits u'
  | Decimal.D4 u' => "4"%char :: digits u'
  | Decimal.D5 u' => "5"%char :: digits u'
  | Decimal.D6 u' => "6"%char :: digits u'
  | Decimal.D7 u' => "7"%char :: digits u'
  | Decimal.D8 u' => "8"%char :: digits u'
  | Decimal.D9 u' => "9"%char :: digits u'
  end.

Definition print_number (n : Z) : list ascii :=
  match Z.to_int n with
  | Decimal.Pos u => digits u
  | Decimal.Neg u => "-"%char :: digits u
  end.

(** The elements of an array or the members of an object, separated by
    commas. *)
Fixpoint join_comma (l : list (list ascii)) : list ascii :=
  match l with
  | [] => []
  | x :: l' =>
      match l' with
      | [] => x
      | _ :: _ => x ++ ","%char :: join_comma l'
      end
  end.

Fixpoint print (v : value) : list ascii :=
  match v with
  | Null => chars "null"
  | Bool true => chars "true"
  | Bool false => chars "false"
  | Number n => print_number n
  | Str s => quote s
  | Array l => "["%char :: join_comma (List.map print l) ++ ["]"%char]
  | Object l =>
      "{"%char ::
      join_comma
        (List.map (fun kv => match kv with
                             | (k, v') => quote k ++ ":"%char :: print v'
                             end) l)
      ++ ["}"%char]
  end.

Definition stringify (v : value) : string := string_of_list_ascii (print v).

(** *** [JSON.parse] *)

Definition is_ws (c : ascii) : bool :=
  let n := nat_of_ascii c in
  (n =? 32)%nat || (n =? 9)%nat || (n =? 10)%nat || (n =? 13)%nat.

Fixpoint skip_ws (s : list ascii) : list ascii :=
  match s with
  | [] => []
  | c :: s' => if is_ws c then skip_ws s' else s
  end.

(** Strip the literal [lit] from the front of [s]. *)
Fixpoint expect (lit s : list ascii) : option (list ascii) :=
  match lit with
  | [] => Some s
  | c :: lit' =>
      match s with
      | [] => None
      | d :: s' => if Ascii.eqb c d then expect lit' s' else None
      end
  end.

Definition hex_value (c : ascii) : option N :=
  let n := N_of_ascii c in
  if (48 <=? n)%N && (n <=? 57)%N then Some (n - 48)%N
  else if (97 <=? n)%N && (n <=? 102)%N then Some (n - 87)%N
  else if (65 <=? n)%N && (n <=? 70)%N then Some (n - 55)%N
  else None.

(** The bytes of the code unit [n] of a [\uXXXX] escape. A surrogate
    half has no encoding of its own in a string of bytes and is
    refused. *)
Definition utf8 (n : N) : option (list ascii) :=
  if (n <? 128)%N then Some [ascii_of_N n]
  else if (n <? 2048)%N then
    Some [ascii_of_N (192 + n / 64); ascii_of_N (128 + n mod 64)]
  else if (55296 <=? n)%N && (n <=? 57343)%N then None
  else
    Some [ascii_of_N (224 + n / 4096);
          ascii_of_N (128 + (n / 64) mod 64);
          ascii_of_N (128 + n mod 64)].

Fixpoint prepend (l : list ascii) (s : string) : string :=
  match l with
  | [] => s
  | c :: l' => String c (prepend l' s)
  end.

(** The characters of a string literal after its opening quote. *)
Fixpoint parse_string (s : list ascii) : option (string * list ascii) :=
  match s with
  | [] => None
  | c :: r =>
      if Ascii.eqb c dquote then Some (EmptyString, r)
      else if Ascii.eqb c backslash then
        match r with
        | [] => None
        | e :: r1 =>
            let simple (x : ascii) :=
              '(str, r') ← parse_string r1; Some (String x str, r') in
            if Ascii.eqb e dquote then simple dquote
            else if Ascii.eqb e backslash then simple backslash
            else if Ascii.eqb e "/"%char then simple "/"%char
            else if Ascii.eqb e "b"%char then simple "008"%char
            else if Ascii.eqb e "f"%char then simple "012"%char
            else if Ascii.eqb e "n"%char then simple "010"%char
            else if Ascii.eqb e "r"%char then simple "013"%char
            else if Ascii.eqb e "t"%char then simple "009"%char
            else if Ascii.eqb e "u"%char then
              match r1 with
              | h1 :: h2 :: h3 :: h4 :: r2 =>
                  a ← hex_value h1; b ← hex_value h2;
                  c' ← hex_value h3; d ← hex_value h4;
                  bytes ← utf8 (((a * 16 + b) * 16 + c') * 16 + d)%N;
                  '(str, r') ← parse_string r2;
                  Some (prepend bytes str, r')
              | _ => None
              end
            else None
        end
      else if (nat_of_ascii c <? 32)%nat then None
      else '(str, r') ← parse_string r; Some (String c str, r')
  end.

Definition digit_of (c : ascii) : option (Decimal.uint -> Decimal.uint) :=
  if Ascii.eqb c "0"%char then Some Decimal.D0
  else if Ascii.eqb c "1"%char then Some Decimal.D1
  else if Ascii.eqb c "2"%char then Some Decimal.D2
  else if Ascii.eqb c "3"%char then Some Decimal.D3
  else if Ascii.eqb c "4"%char then Some Decimal.D4
  else if Ascii.eqb c "5"%char then Some Decimal.D5
  else if Ascii.eqb c "6"%char then Some Decimal.D6
  else if Ascii.eqb c "7"%char then Some Decimal.D7
  else if Ascii.eqb c "8"%char then Some Decimal.D8
  else if Ascii.eqb c "9"%char then Some Decimal.D9
  else None.

Fixpoint read_digits (s : list ascii) : Decimal.uint * list ascii :=
  match s with
  | [] => (Decimal.Nil, [])
  | c :: r =>
      match digit_of c with
      | Some d => let (u, r') := read_digits r in (d u, r')
      | None => (Decimal.Nil, s)
      end
  end.

(** [int] of the JSON grammar: [0], or digits that do not start with
    [0]. *)
Definition well_formed_int (u : Decimal.uint) : bool :=
  match u with
  | Decimal.Nil => false
  | Decimal.D0 Decimal.Nil => true
  | Decimal.D0 _ => false
  | _ => true
  end.

(** A fraction or an exponent would follow here. *)
Definition number_continues (s : list ascii) : bool :=
  match s with
  | c :: _ => Ascii.eqb c "."%char || Ascii.eqb c "e"%char
              || Ascii.eqb c "E"%char
  | [] => false
  end.

Definition parse_number (s : list ascii) : option (Z * list ascii) :=
  let (negative, s1) :=
    match s with
    | c :: r => if Ascii.eqb c "-"%char then (true, r) else (false, s)
    | [] => (false, s)
    end in
  let (u, r) := read_digits s1 in
  if well_formed_int u && negb (number_continues r) then
    Some (Z.of_int (if negative then Decimal.Neg u else Decimal.Pos u), r)
  else None.

Section Nested.
Variable parse_value : list ascii -> option (value * list ascii).

(** The elements after the first [[], up to and with the closing
    bracket. *)
Fixpoint parse_elements (n : nat) (s : list ascii)
  : option (list value * list ascii) :=
  match n with
  | O => None
  | S n' =>
      '(v, r) ← parse_value s;
      match skip_ws r with
      | c :: r' =>
          if Ascii.eqb c ","%char then
            '(vs, r'') ← parse_elements n' r'; Some (v :: vs, r'')
          else if Ascii.eqb c "]"%char then Some ([v], r')
          else None
      | [] => None
      end
  end.

Fixpoint parse_members (n : nat) (s : list ascii)
  : option (list (string * value) * list ascii) :=
  match n with
  | O => None
  | S n' =>
      match skip_ws s with
      | q :: r0 =>
          if Ascii.eqb q dquote then
            '(k, r1) ← parse_string r0;
            match skip_ws r1 with
            | c1 :: r2 =>
                if Ascii.eqb c1 ":"%char then
                  '(v, r3) ← parse_value r2;
                  match skip_ws r3 with
                  | c :: r' =>
                      if Ascii.eqb c ","%char then
                        '(kvs, r'') ← parse_members n' r';
                        Some ((k, v) :: kvs, r'')
                      else if Ascii.eqb c "}"%char then
                        Some ([(k, v)], r')
                      else None
                  | [] => None
                  end
                else None
            | [] => None
            end
          else None
      | [] => None
      end
  end.
End Nested.

Fixpoint parse_value (fuel : nat) (s : list ascii)
  : option (value * list ascii) :=
  match fuel with
  | O => None
  | S fuel' =>
      match skip_ws s with
      | [] => None
      | c :: r =>
          if Ascii.eqb c "n"%char then
            r' ← expect (chars "ull") r; Some (Null, r')
          else if Ascii.eqb c "t"%char then
            r' ← expect (chars "rue") r; Some (Bool true, r')
          else if Ascii.eqb c "f"%char then
            r' ← expect (chars "alse") r; Some (Bool false, r')
          else if Ascii.eqb c dquote then
            '(str, r') ← parse_string r; Some (Str str, r')
          else if Ascii.eqb c "["%char then
            match skip_ws r with
            | c' :: r' =>
                if Ascii.eqb c' "]"%char then Some (Array [], r')
                else
                  '(vs, r'') ← parse_elements (parse_value fuel') fuel' r;
                  Some (Array vs, r'')
            | [] => None
            end
          else if Ascii.eqb c "{"%char then
            match skip_ws r with
            | c' :: r' =>
                if Ascii.eqb c' "}"%char then Some (Object [], r')
                else
                  '(kvs, r'') ← parse_members (parse_value fuel') fuel' r;
                  Some (Object kvs, r'')
            | [] => None
            end
          else
            '(n, r') ← parse_number (c :: r); Some (Number n, r')
      end
  end.

(** [JSON.parse text]; [None] is a [SyntaxError]. *)
Definition parse (text : string) : option value :=
  let s := chars text in
  '(v, r) ← parse_value (S (length s)) s;
  match skip_ws r with
  | [] => Some v
  | _ :: _ => None
  end.

(** [o[k]] on a parsed object: the last member named [k] wins. *)
Fixpoint get (k : string) (l : list (string * value)) : option value :=
  match l with
  | [] => None
  | (k', v) :: l' =>
      match get k l' with
      | Some v' => Some v'
      | None => if String.eqb k k' then Some v else None
      end
  end.

End JSON.

(** ** Records as JSON values

    [JSON.stringify] writes the properties of a record in the order of
    its object literal. Reading back, the source casts without a check
    ([const boxes: Box[] = JSON.parse(...)]); the embedding, whose
    collections are typed, makes the cast explicit. *)

Module Codec.

Definition string_field (k : string) (l : list (string * JSON.value))
  : option string :=
  match JSON.get k l with Some (JSON.Str s) => Some s | _ => None end.

Definition bool_field (k : string) (l : list (string * JSON.value))
  : option bool :=
  match JSON.get k l with Some (JSON.Bool b) => Some b | _ => None end.

Definition number_field (k : string) (l : list (string * JSON.value))
  : option Z :=
  match JSON.get k l with Some (JSON.Number n) => Some n | _ => None end.

Definition as_string (v : JSON.value) : option string :=
  match v with JSON.Str s => Some s | _ => None end.

Definition strings_field (k : string) (l : list (string * JSON.value))
  : option (list string) :=
  match JSON.get k l with
  | Some (JSON.Array vs) => mapM as_string vs
  | _ => None
  end.

Definition box_to_json (b : Box.t) : JSON.value :=
  JSON.Object
    [("id", JSON.Str (Box.id b));
     ("name", JSON.Str (Box.name b));
     ("isFull", JSON.Bool (Box.isFull b));
     ("createdAt", JSON.Number (Box.createdAt b))].

Definition box_of_json (v : JSON.value) : option Box.t :=
  match v with
  | JSON.Object l =>
      id ← string_field "id" l;
      name ← string_field "name" l;
      isFull ← bool_field "isFull" l;
      createdAt ← number_field "createdAt" l;
      Some (Box.mk id name isFull createdAt)
  | _ => None
  end.

Definition item_to_json (i : Item.t) : JSON.value :=
  JSON.Object
    [("id", JSON.Str (Item.id i));
     ("boxId", JSON.Str (Item.boxId i));
     ("boxName", JSON.Str (Item.boxName i));
     ("imageUrl", JSON.Str (Item.imageUrl i));
     ("name", JSON.Str (Item.name i));
     ("description", JSON.Str (Item.description i));
     ("tags", JSON.Array (List.map JSON.Str (Item.tags i)));
     ("timestamp", JSON.Number (Item.timestamp i))].

Definition item_of_json (v : JSON.value) : option Item.t :=
  match v with
  | JSON.Object l =>
      id ← string_field "id" l;
      boxId ← string_field "boxId" l;
      boxName ← string_field "boxName" l;
      imageUrl ← string_field "imageUrl" l;
      name ← string_field "name" l;
      description ← string_field "description" l;
      tags ← strings_field "tags" l;
      timestamp ← number_field "timestamp" l;
      Some (Item.mk id boxId boxName imageUrl name description tags timestamp)
  | _ => None
  end.

(** [JSON.stringify(this.boxes())] and [JSON.stringify(this.items())] *)
Definition stringify_boxes (l : list Box.t) : string :=
  JSON.stringify (JSON.Array (List.map box_to_json l)).

Definition stringify_items (l : list Item.t) : string :=
  JSON.stringify (JSON.Array (List.map item_to_json l)).

Definition as_array (v : JSON.value) : option (list JSON.value) :=
  match v with JSON.Array l => Some l | _ => None end.

End Codec.

(** ** The platform state and the program monad *)

Inductive Exn :=
| SyntaxError            (* JSON.parse *)
| TypeError              (* a value that is not of the annotated type *)
| DataError              (* put of a value that is no record of the store *)
| Rejected (reason : string).

Inductive Outcome (A : Type) :=
| Returned (a : A)
| Threw (e : Exn).
Arguments Returned {A} a.
Arguments Threw {A} e.

Inductive ConsoleEntry :=
| console_log (msg : string)
| console_error (msg : string) (e : option Exn).

(** The two object stores of [ClutterAI_DB], both with key path [id]. *)
Inductive StoreName := Store_boxes | Store_items.

Definition StoreValue (n : StoreName) : Type :=
  match n with Store_boxes => Box.t | Store_items => Item.t end.

Definition keyPath_id (n : StoreName) : StoreValue n -> string :=
  match n with Store_boxes => Box.id | Store_items => Item.id end.

(** What outlives the service: [localStorage], the object stores (empty
    once [onupgradeneeded] has created them) and the console. Requests
    on an open database succeed. *)
Record World := mkWorld {
  localStorage : gmap string string;
  store_boxes : gmap string Box.t;
  store_items : gmap string Item.t;
  console : list ConsoleEntry
}.

Definition World_empty : World := mkWorld ∅ ∅ ∅ [].

Definition objectStore (n : StoreName) (w : World)
  : gmap string (StoreValue n) :=
  match n with Store_boxes => store_boxes w | Store_items => store_items w end.

Definition with_objectStore (n : StoreName) (w : World)
  : gmap string (StoreValue n) -> World :=
  match n with
  | Store_boxes => fun m =>
      mkWorld (localStorage w) m (store_items w) (console w)
  | Store_items => fun m =>
      mkWorld (localStorage w) (store_boxes w) m (console w)
  end.

(** [IDBObjectStore.getAll()]: the records in ascending order of their
    keys. *)
Definition compare_keys (a b : string) : Z :=
  match String.compare a b with
  | Lt => -1
  | Eq => 0
  | Gt => 1
  end.

Definition IDBObjectStore_getAll {V} (m : gmap string V) : list V :=
  snd <$> JS.Array_sort (fun a b => compare_keys (fst a) (fst b))
            (map_to_list m).

Definition with_localStorage (w : World) (ls : gmap string string) : World :=
  mkWorld ls (store_boxes w) (store_items w) (console w).

Definition with_console (w : World) (c : list ConsoleEntry) : World :=
  mkWorld (localStorage w) (store_boxes w) (store_items w) c.

(** A method of a service whose fields are [S]: it runs on the fields
    and the world, and returns or throws. What it did before it threw
    stays done. *)
Definition Prog (S A : Type) : Type := S * World -> Outcome A * (S * World).

Module Prog.
Section Monad.
Context {S : Type}.

Definition ret {A} (a : A) : Prog S A := fun st => (Returned a, st).

Definition throw {A} (e : Exn) : Prog S A := fun st => (Threw e, st).

Definition bind {A B} (m : Prog S A) (k : A -> Prog S B) : Prog S B :=
  fun st =>
    match m st with
    | (Returned a, st') => k a st'
    | (Threw e, st') => (Threw e, st')
    end.

(** [try { m } catch (e) { h e }] *)
Definition try_catch {A} (m : Prog S A) (h : Exn -> Prog S A) : Prog S A :=
  fun st =>
    match m st with
    | (Returned a, st') => (Returned a, st')
    | (Threw e, st') => h e st'
    end.

Definition get_fields : Prog S S := fun st => (Returned (fst st), st).

Definition update_fields (f : S -> S) : Prog S unit :=
  fun st => (Returned tt, (f (fst st), snd st)).

Definition get_world : Prog S World := fun st => (Returned (snd st), st).

Definition update_world (f : World -> World) : Prog S unit :=
  fun st => (Returned tt, (fst st, f (snd st))).

(** [if (c) m] *)
Definition when (c : bool) (m : Prog S unit) : Prog S unit :=
  if c then m else ret tt.

(** [for (const x of l) { await body x }] *)
Fixpoint for_of {A} (l : list A) (body : A -> Prog S unit) : Prog S unit :=
  match l with
  | [] => ret tt
  | x :: l' => bind (body x) (fun _ => for_of l' body)
  end.

(** The state a method leaves behind. *)
Definition exec {A} (m : Prog S A) (st : S * World) : S * World := snd (m st).

(** How it ended. *)
Definition outcome {A} (m : Prog S A) (st : S * World) : Outcome A :=
  fst (m st).

End Monad.
End Prog.

#[global] Instance Prog_ret {S} : MRet (Prog S) := @Prog.ret S.
#[global] Instance Prog_bind {S} : MBind (Prog S) :=
  fun A B k m => Prog.bind m k.

(** *** [localStorage], [console] and the object stores *)

Section Platform.
Context {S : Type}.

Definition localStorage_getItem (key : string) : Prog S (option string) :=
  w ← Prog.get_world; mret (localStorage w !! key).

Definition localStorage_setItem (key value : string) : Prog S unit :=
  Prog.update_world
    (fun w => with_localStorage w (<[key := value]> (localStorage w))).

Definition localStorage_removeItem (key : string) : Prog S unit :=
  Prog.update_world
    (fun w => with_localStorage w (delete key (localStorage w))).

Definition console_write (e : ConsoleEntry) : Prog S unit :=
  Prog.update_world (fun w => with_console w (console w ++ [e])).

(** [JSON.parse(text)] read at an annotated type. A text that is no JSON
    throws [SyntaxError]. A text that parses to a value of another shape
    has no counterpart in the typed collections of the embedding: there
    the cast, unchecked in the source, is made to fail with
    [TypeError]. *)
Definition JSON_parse_as {A} (cast : JSON.value -> option A) (text : string)
  : Prog S A :=
  match JSON.parse text with
  | None => Prog.throw SyntaxError
  | Some v =>
      match cast v with
      | Some a => mret a
      | None => Prog.throw TypeError
      end
  end.

End Platform.

(** ** The blob-keyed revision: [src/services/inventory.service.ts] *)

Module LocalStorageService.

Definition STORAGE_KEY_BOXES : string := "clutter_boxes".
Definition STORAGE_KEY_ITEMS : string := "clutter_items".

(** The three signals. *)
Record t := mk {
  boxes : list Box.t;
  items : list Item.t;
  currentBoxId : option string
}.

(** The field initialisers: [signal([])], [signal([])], [signal(null)]. *)
Definition initial : t := mk [] [] None.

Definition set_boxes (l : list Box.t) (s : t) : t :=
  mk l (items s) (currentBoxId s).
Definition set_items (l : list Item.t) (s : t) : t :=
  mk (boxes s) l (currentBoxId s).
Definition set_currentBoxId (c : option string) (s : t) : t :=
  mk (boxes s) (items s) c.

Definition currentBox (s : t) : option Box.t :=
  Views.currentBox (boxes s) (currentBoxId s).

Definition itemsInCurrentBox (s : t) : list Item.t :=
  Views.itemsInCurrentBox (items s) (currentBoxId s).

Definition loadFromStorage : Prog t unit :=
  boxesData ← localStorage_getItem STORAGE_KEY_BOXES;
  itemsData ← localStorage_getItem STORAGE_KEY_ITEMS;
  Prog.when (JS.truthy boxesData)
    (l ← JSON_parse_as
           (fun v => a ← Codec.as_array v; mapM Codec.box_of_json a)
           (default EmptyString boxesData);
     Prog.update_fields (set_boxes l));;
  Prog.when (JS.truthy itemsData)
    (l ← JSON_parse_as
           (fun v => a ← Codec.as_array v; mapM Codec.item_of_json a)
           (default EmptyString itemsData);
     Prog.update_fields (set_items l)).

(** The body of the auto-save [effect], which the framework runs after
    the signals it reads have changed. *)
Definition autosave : Prog t unit :=
  s ← Prog.get_fields;
  localStorage_setItem STORAGE_KEY_BOXES (Codec.stringify_boxes (boxes s));;
  localStorage_setItem STORAGE_KEY_ITEMS (Codec.stringify_items (items s)).

(** [constructor()]: the load; the effect it registers last is
    [autosave]. *)
Definition constructor : Prog t unit := loadFromStorage.

Definition addBox (uuid : string) (now : Z) (name : string) : Prog t unit :=
  let newBox := Views.newBox uuid now name in
  Prog.update_fields (fun s => set_boxes (newBox :: boxes s) s);;
  Prog.update_fields (set_currentBoxId (Some (Box.id newBox))).

Definition addItem (uuid : string) (now : Z) (boxId : string)
    (itemData : PartialItem.t) : Prog t unit :=
  s ← Prog.get_fields;
  match Views.find_box (boxes s) boxId with
  | None => mret tt
  | Some box =>
      let newItem := Views.newItem uuid now boxId box itemData in
      Prog.update_fields (fun s => set_items (newItem :: items s) s)
  end.

Definition updateBoxStatus (boxId : string) (isFull : bool) : Prog t unit :=
  Prog.update_fields (fun s =>
    set_boxes
      (List.map (fun b => if String.eqb (Box.id b) boxId
                          then Box.with_isFull b isFull else b) (boxes s)) s).

Definition selectBox (boxId : string) : Prog t unit :=
  Prog.update_fields (set_currentBoxId (Some boxId)).

Definition updateItem (itemId : string) (updates : ItemUpdates.t)
  : Prog t unit :=
  Prog.update_fields (fun s =>
    set_items
      (List.map (fun item => if String.eqb (Item.id item) itemId
                             then ItemUpdates.merge item updates else item)
         (items s)) s).

Definition deleteItem (itemId : string) : Prog t unit :=
  Prog.update_fields (fun s =>
    set_items
      (List.filter (fun item => negb (String.eqb (Item.id item) itemId))
         (items s)) s).

End LocalStorageService.

(** ** The transactional revision: IndexedDB with a migration step *)

Module IndexedDBService.

(** The handle that [indexedDB.open] hands over. *)
Inductive IDBDatabase := ClutterAI_DB.

Record t := mk {
  db : option IDBDatabase;
  boxes : list Box.t;
  items : list Item.t;
  currentBoxId : option string
}.

(** The field initialisers; [db] is [null] until [onsuccess]. *)
Definition initial : t := mk None [] [] None.

Definition set_db (d : option IDBDatabase) (s : t) : t :=
  mk d (boxes s) (items s) (currentBoxId s).
Definition set_boxes (l : list Box.t) (s : t) : t :=
  mk (db s) l (items s) (currentBoxId s).
Definition set_items (l : list Item.t) (s : t) : t :=
  mk (db s) (boxes s) l (currentBoxId s).
Definition set_currentBoxId (c : option string) (s : t) : t :=
  mk (db s) (boxes s) (items s) c.

Definition currentBox (s : t) : option Box.t :=
  Views.currentBox (boxes s) (currentBoxId s).

Definition itemsInCurrentBox (s : t) : list Item.t :=
  Views.itemsInCurrentBox (items s) (currentBoxId s).

(** *** IndexedDB helpers *)

Definition putToStore (storeName : StoreName) (value : StoreValue storeName)
  : Prog t unit :=
  s ← Prog.get_fields;
  match db s with
  | None => Prog.throw (Rejected "Database not initialized")
  | Some _ =>
      Prog.update_world (fun w =>
        with_objectStore storeName w
          (<[keyPath_id storeName value := value]> (objectStore storeName w)))
  end.

Definition getAllFromStore (storeName : StoreName)
  : Prog t (list (StoreValue storeName)) :=
  s ← Prog.get_fields;
  match db s with
  | None => Prog.throw (Rejected "Database not initialized")
  | Some _ =>
      w ← Prog.get_world;
      mret (IDBObjectStore_getAll (objectStore storeName w))
  end.

Definition deleteFromStore (storeName : StoreName) (key : string)
  : Prog t unit :=
  s ← Prog.get_fields;
  match db s with
  | None => Prog.throw (Rejected "Database not initialized")
  | Some _ =>
      Prog.update_world (fun w =>
        with_objectStore storeName w (delete key (objectStore storeName w)))
  end.

(** *** Migration and load *)

(** The record that [put] receives from the loop over a parsed blob:
    a value that is no record of the store is refused. *)
Definition record_of_json (n : StoreName) : JSON.value -> option (StoreValue n) :=
  match n with
  | Store_boxes => Codec.box_of_json
  | Store_items => Codec.item_of_json
  end.

(** One of the two [if (json) { try { ... } catch (e) { ... } }] blocks. *)
Definition migrate_blob (key : string) (storeName : StoreName)
    (error_msg : string) (json : option string) : Prog t unit :=
  Prog.when (JS.truthy json)
    (Prog.try_catch
       (records ← JSON_parse_as Codec.as_array (default EmptyString json);
        Prog.for_of records (fun v =>
          match record_of_json storeName v with
          | Some r => putToStore storeName r
          | None => Prog.throw DataError
          end);;
        localStorage_removeItem key)
       (fun e => console_write (console_error error_msg (Some e)))).

Definition migrateFromLocalStorage : Prog t unit :=
  boxesJson ← localStorage_getItem "clutter_boxes";
  itemsJson ← localStorage_getItem "clutter_items";
  if negb (JS.truthy boxesJson) && negb (JS.truthy itemsJson) then mret tt
  else
    console_write
      (console_log "Migrating data from LocalStorage to IndexedDB...");;
    migrate_blob "clutter_boxes" Store_boxes "Error migrating boxes"
      boxesJson;;
    migrate_blob "clutter_items" Store_items "Error migrating items"
      itemsJson.

Definition loadData : Prog t unit :=
  s ← Prog.get_fields;
  match db s with
  | None => mret tt
  | Some _ =>
      Prog.try_catch
        (boxes ← getAllFromStore Store_boxes;
         items ← getAllFromStore Store_items;
         Prog.update_fields
           (set_boxes
              (JS.Array_sort
                 (fun a b => Box.createdAt b - Box.createdAt a) boxes));;
         Prog.update_fields
           (set_items
              (JS.Array_sort
                 (fun a b => Item.timestamp b - Item.timestamp a) items)))
        (fun e =>
           console_write
             (console_error "Error loading data from DB" (Some e)))
  end.

(** [initDatabase()] with the answer of [indexedDB.open]: [onerror], or
    [onsuccess] (after [onupgradeneeded] where the stores were missing). *)
Definition initDatabase (opened : bool) : Prog t unit :=
  if opened then
    Prog.update_fields (set_db (Some ClutterAI_DB));;
    migrateFromLocalStorage;;
    loadData
  else console_write (console_error "IndexedDB error:" None).

Definition constructor (opened : bool) : Prog t unit := initDatabase opened.

(** *** Public API *)

Definition addBox (uuid : string) (now : Z) (name : string) : Prog t unit :=
  let newBox := Views.newBox uuid now name in
  Prog.update_fields (fun s => set_boxes (newBox :: boxes s) s);;
  Prog.update_fields (set_currentBoxId (Some (Box.id newBox)));;
  putToStore Store_boxes newBox.

Definition addItem (uuid : string) (now : Z) (boxId : string)
    (itemData : PartialItem.t) : Prog t unit :=
  s ← Prog.get_fields;
  match Views.find_box (boxes s) boxId with
  | None => mret tt
  | Some box =>
      let newItem := Views.newItem uuid now boxId box itemData in
      Prog.update_fields (fun s => set_items (newItem :: items s) s);;
      putToStore Store_items newItem
  end.

Definition updateBoxStatus (boxId : string) (isFull : bool) : Prog t unit :=
  s ← Prog.get_fields;
  match Views.find_box (boxes s) boxId with
  | None => mret tt
  | Some box =>
      let updatedBox := Box.with_isFull box isFull in
      Prog.update_fields (fun s =>
        set_boxes
          (List.map (fun b => if String.eqb (Box.id b) boxId
                              then updatedBox else b) (boxes s)) s);;
      putToStore Store_boxes updatedBox
  end.

Definition selectBox (boxId : string) : Prog t unit :=
  Prog.update_fields (set_currentBoxId (Some boxId)).

Definition updateItem (itemId : string) (updates : ItemUpdates.t)
  : Prog t unit :=
  s ← Prog.get_fields;
  match List.find (fun i => String.eqb (Item.id i) itemId) (items s) with
  | None => mret tt
  | Some item =>
      let updatedItem := ItemUpdates.merge item updates in
      Prog.update_fields (fun s =>
        set_items
          (List.map (fun i => if String.eqb (Item.id i) itemId
                              then updatedItem else i) (items s)) s);;
      putToStore Store_items updatedItem
  end.

Definition deleteItem (itemId : string) : Prog t unit :=
  Prog.update_fields (fun s =>
    set_items
      (List.filter (fun item => negb (String.eqb (Item.id item) itemId))
         (items s)) s);;
  deleteFromStore Store_items itemId.

End IndexedDBService.

(** ** The caller: [AppComponent] *)

Module AppComponent.

(** [createNewBox(name)], over the [addBox] of the injected service. *)
Definition createNewBox {S} (inventory_addBox : string -> Prog S unit)
    (name : string) : Prog S unit :=
  if negb (JS.truthy (Some (JS.trim name))) then mret tt
  else inventory_addBox (JS.trim name).

End AppComponent.

(** ** Writing a collection into its store *)

(** [putToStore] for each record of a collection, as the migration loop
    and the public operations do it record by record. *)
Definition put_records (n : StoreName) (records : list (StoreValue n))
  : Prog IndexedDBService.t unit :=
  Prog.for_of records (IndexedDBService.putToStore n).

(** A service of the transactional revision right after [onsuccess] has
    set [db]. *)
Definition opened : IndexedDBService.t :=
  IndexedDBService.set_db (Some IndexedDBService.ClutterAI_DB)
    IndexedDBService.initial.

(** ** Sample runs *)

Module Samples.

Definition garage : Box.t := Box.mk "b-1" "Garage" false 1000.

Definition drill : Item.t :=
  Item.mk "i-1" "b-1" "Garage" EmptyString "Drill" EmptyString [] 2000.

(** [updates = { boxId: 'ghost' }] *)
Definition to_ghost : ItemUpdates.t :=
  ItemUpdates.mk (Some "ghost") None None None None None None.

(** [addBox('Garage'); addItem(b-1, { name: 'Drill' });
    updateItem(i-1, { boxId: 'ghost' }); selectBox('ghost')] on a fresh
    blob-keyed service. *)
Definition ghost_run : Prog LocalStorageService.t unit :=
  LocalStorageService.addBox "b-1" 1000 "Garage";;
  LocalStorageService.addItem "i-1" 2000 "b-1"
    (PartialItem.mk None None None None (Some "Drill") None None None);;
  LocalStorageService.updateItem "i-1" to_ghost;;
  LocalStorageService.selectBox "ghost".

Definition ghost_state : LocalStorageService.t :=
  fst (Prog.exec ghost_run (LocalStorageService.initial, World_empty)).

(** [localStorage] after the auto-save of a blob-keyed service that
    holds the garage and the drill. *)
Definition saved_world : World :=
  snd (Prog.exec LocalStorageService.autosave
         (LocalStorageService.mk [garage] [drill] None, World_empty)).

(** The same with a text under [clutter_boxes] that is no JSON. *)
Definition corrupt_boxes_world : World :=
  with_localStorage saved_world
    (<["clutter_boxes" := "{oops"]> (localStorage saved_world)).

(** The same with a text under [clutter_items] that is no JSON. *)
Definition corrupt_items_world : World :=
  with_localStorage saved_world
    (<["clutter_items" := "[1,"]> (localStorage saved_world)).

(** The same without a blob under [clutter_boxes]. *)
Definition items_only_world : World :=
  with_localStorage saved_world
    (delete "clutter_boxes" (localStorage saved_world)).

(** Start-up of the transactional revision over [corrupt_boxes_world]:
    the drill is migrated, its box is not; then [selectBox('b-1')]. *)
Definition orphan_state : IndexedDBService.t :=
  fst (Prog.exec (IndexedDBService.selectBox "b-1")
         (Prog.exec (IndexedDBService.constructor true)
            (IndexedDBService.initial, corrupt_boxes_world))).

End Samples.

(** ** Vocabulary of the properties *)

(** The comparator [(a, b) => key b - key a] of both loaders and of the
    derived view. *)
Definition descending {A} (key : A -> Z) : A -> A -> Z :=
  fun a b => key b - key a.

(** Newest first: every element is at least as recent as those behind it. *)
Definition newest_first {A} (key : A -> Z) (l : list A) : Prop :=
  StronglySorted (fun a b => key b <= key a) l.

(** What [addItem] promises about the item it builds from [itemData]
    for the box [box] found under [boxId]. *)
Definition built_item (uuid : string) (now : Z) (boxId : string)
    (box : Box.t) (itemData : PartialItem.t) (item : Item.t) : Prop :=
  Item.id item = uuid /\
  Item.boxId item = boxId /\
  Item.boxName item = Box.name box /\
  Item.timestamp item = now /\
  (PartialItem.imageUrl itemData = None -> Item.imageUrl item = EmptyString) /\
  (PartialItem.name itemData = None -> Item.name item = "Unknown Item") /\
  (PartialItem.description itemData = None ->
   Item.description item = EmptyString) /\
  (PartialItem.tags itemData = None -> Item.tags item = []).

(** One call [addBox(name)], with what [crypto.randomUUID()] and
    [Date.now()] answer during it. *)
Record AddBoxCall := mkAddBoxCall {
  call_uuid : string;
  call_now : Z;
  call_name : string
}.

(** The calls of a list, one after the other; a call that rejects does
    not keep the caller from making the next one. *)
Definition run_calls {S C} (method : C -> Prog S unit) (calls : list C)
    (st : S * World) : S * World :=
  fold_left (fun st c => Prog.exec (method c) st) calls st.

(** The clock does not run backwards from one call to the next. *)
Definition clock_nondecreasing (calls : list AddBoxCall) : Prop :=
  StronglySorted Z.le (List.map call_now calls).

(** [put] of the records of a list, in order, into a store. *)
Definition put_all (n : StoreName) (records : list (StoreValue n))
    (m : gmap string (StoreValue n)) : gmap string (StoreValue n) :=
  fold_left (fun m r => <[keyPath_id n r := r]> m) records m.

(** The text [json] is an array of records of the store [n]. *)
Definition blob_of_records (n : StoreName) (json : string)
    (records : list (StoreValue n)) : Prop :=
  exists vs, JSON.parse json = Some (JSON.Array vs)
             /\ mapM (IndexedDBService.record_of_json n) vs = Some records.

Definition is_open (s : IndexedDBService.t) : bool :=
  match IndexedDBService.db s with Some _ => true | None => false end.

(** ** Closed forms used in the proofs

    The migration block as a function of the text of its blob; it is
    proved equal to the block of the service before it is used. *)

(** What the loop of a migration block puts before it ends, and the
    exception that ends it, if one does. *)
Fixpoint put_loop (n : StoreName) (db_open : bool) (vs : list JSON.value)
  : list (StoreValue n) * option Exn :=
  match vs with
  | [] => ([], None)
  | v :: vs' =>
      match IndexedDBService.record_of_json n v with
      | None => ([], Some DataError)
      | Some r =>
          if db_open then
            let (rs, e) := put_loop n db_open vs' in (r :: rs, e)
          else ([], Some (Rejected "Database not initialized"))
      end
  end.

(** The same for the whole [try] block, from the text of the blob. *)
Definition migration_attempt (n : StoreName) (db_open : bool) (json : string)
  : list (StoreValue n) * option Exn :=
  match JSON.parse json with
  | None => ([], Some SyntaxError)
  | Some v =>
      match Codec.as_array v with
      | None => ([], Some TypeError)
      | Some vs => put_loop n db_open vs
      end
  end.

(** The world after one migration block. *)
Definition blob_migrated (key : string) (n : StoreName) (error_msg : string)
    (db_open : bool) (json : option string) (w : World) : World :=
  if JS.truthy json then
    let (rs, e) := migration_attempt n db_open (default EmptyString json) in
    let w1 := with_objectStore n w (put_all n rs (objectStore n w)) in
    match e with
    | None => with_localStorage w1 (delete key (localStorage w1))
    | Some e =>
        with_console w1 (console w1 ++ [console_error error_msg (Some e)])
    end
  else w.

(** The records that a migration block puts, and whether it deletes its
    blob afterwards. *)
Definition migrated_records (n : StoreName) (db_open : bool)
    (json : option string) : list (StoreValue n) :=
  if JS.truthy json
  then fst (migration_attempt n db_open (default EmptyString json))
  else [].

Definition blob_removed (n : StoreName) (db_open : bool)
    (json : option string) : bool :=
  JS.truthy json
  && match snd (migration_attempt n db_open (default EmptyString json)) with
     | None => true
     | Some _ => false
     end.

Definition delete_if (b : bool) (key : string) (m : gmap string string)
  : gmap string string :=
  if b then delete key m else m.

(** The number of values in a JSON value: the fuel that reading it back
    takes. *)
Fixpoint json_size (v : JSON.value) : nat :=
  match v with
  | JSON.Array l => S (list_sum (List.map json_size l))
  | JSON.Object l =>
      S (list_sum (List.map (fun kv => match kv with
                                       | (_, v') => json_size v'
                                       end) l))
  | _ => 1%nat
  end.

(** What may follow a value in a text that [JSON.stringify] wrote: the
    end of the text, a comma, or a closing bracket or brace. *)
Definition follows_value (rest : list ascii) : Prop :=
  match rest with
  | [] => True
  | c :: _ => c = ","%char \/ c = "]"%char \/ c = "}"%char
  end.

(** The characters a JSON value can start with. *)
Definition starts_number (c : ascii) : bool :=
  Ascii.eqb c "-"%char
  || match JSON.digit_of c with Some _ => true | None => false end.

Definition starts_value (c : ascii) : bool :=
  starts_number c
  || Ascii.eqb c "n"%char || Ascii.eqb c "t"%char || Ascii.eqb c "f"%char
  || Ascii.eqb c JSON.dquote || Ascii.eqb c "["%char || Ascii.eqb c "{"%char.

(** ** The public operations as data *)

(** One call of the public API of the service, with what
    [crypto.randomUUID()] and [Date.now()] answer during it. *)
Inductive Op :=
| AddBox (uuid : string) (now : Z) (name : string)
| AddItem (uuid : string) (now : Z) (boxId : string)
    (itemData : PartialItem.t)
| UpdateBoxStatus (boxId : string) (isFull : bool)
| SelectBox (boxId : string)
| UpdateItem (itemId : string) (updates : ItemUpdates.t)
| DeleteItem (itemId : string).

(** The call on the blob-keyed revision. *)
Definition legacy_op (o : Op) : Prog LocalStorageService.t unit :=
  match o with
  | AddBox uuid now name => LocalStorageService.addBox uuid now name
  | AddItem uuid now boxId itemData =>
      LocalStorageService.addItem uuid now boxId itemData
  | UpdateBoxStatus boxId isFull =>
      LocalStorageService.updateBoxStatus boxId isFull
  | SelectBox boxId => LocalStorageService.selectBox boxId
  | UpdateItem itemId updates => LocalStorageService.updateItem itemId updates
  | DeleteItem itemId => LocalStorageService.deleteItem itemId
  end.

(** The call on the transactional revision. *)
Definition idb_op (o : Op) : Prog IndexedDBService.t unit :=
  match o with
  | AddBox uuid now name => IndexedDBService.addBox uuid now name
  | AddItem uuid now boxId itemData =>
      IndexedDBService.addItem uuid now boxId itemData
  | UpdateBoxStatus boxId isFull =>
      IndexedDBService.updateBoxStatus boxId isFull
  | SelectBox boxId => IndexedDBService.selectBox boxId
  | UpdateItem itemId updates => IndexedDBService.updateItem itemId updates
  | DeleteItem itemId => IndexedDBService.deleteItem itemId
  end.

(** ** Vocabulary of the further properties *)

(** The three signals of the transactional revision, as fields of the
    blob-keyed one. *)
Definition signals_of (s : IndexedDBService.t) : LocalStorageService.t :=
  LocalStorageService.mk (IndexedDBService.boxes s) (IndexedDBService.items s)
    (IndexedDBService.currentBoxId s).

(** The ids that the [addBox] calls and the [addItem] calls of a list
    draw. *)
Definition box_uuids (ops : list Op) : list string :=
  omap (fun o => match o with AddBox uuid _ _ => Some uuid | _ => None end)
    ops.

Definition item_uuids (ops : list Op) : list string :=
  omap (fun o => match o with AddItem uuid _ _ _ => Some uuid | _ => None end)
    ops.

(** [crypto.randomUUID()] does not repeat itself, nor an id that a
    collection already holds. *)
Definition fresh_uuids (boxes : list Box.t) (items : list Item.t)
    (ops : list Op) : Prop :=
  NoDup (List.map Box.id boxes ++ box_uuids ops)
  /\ NoDup (List.map Item.id items ++ item_uuids ops).

(** No [updateItem] of the list moves an item to another box or renames
    the box of an item. *)
Definition keeps_box (o : Op) : Prop :=
  match o with
  | UpdateItem _ updates =>
      ItemUpdates.boxId updates = None /\ ItemUpdates.boxName updates = None
  | _ => True
  end.

(** Every item names a box of the collection, under the name that the
    box has. *)
Definition items_in_boxes (boxes : list Box.t) (items : list Item.t) : Prop :=
  forall i, i ∈ items ->
    exists b, b ∈ boxes /\ Box.id b = Item.boxId i
              /\ Box.name b = Item.boxName i.

(** The stores hold the records of the two collections, each under its
    id (of two records under one id, the one in front). *)
Definition mirrors (s : IndexedDBService.t) (w : World) : Prop :=
  store_boxes w
  = list_to_map ((fun b => (Box.id b, b)) <$> IndexedDBService.boxes s)
  /\ store_items w
     = list_to_map ((fun i => (Item.id i, i)) <$> IndexedDBService.items s).

(** Whether a call gets as far as a helper of the database:
    [selectBox] never does, and the calls that look a record up return
    before it when there is none. *)
Definition reaches_store (s : IndexedDBService.t) (o : Op) : bool :=
  match o with
  | AddBox _ _ _ => true
  | AddItem _ _ boxId _ =>
      bool_decide (is_Some (Views.find_box (IndexedDBService.boxes s) boxId))
  | UpdateBoxStatus boxId _ =>
      bool_decide (is_Some (Views.find_box (IndexedDBService.boxes s) boxId))
  | SelectBox _ => false
  | UpdateItem itemId _ =>
      bool_decide
        (is_Some (List.find (fun i => String.eqb (Item.id i) itemId)
                    (IndexedDBService.items s)))
  | DeleteItem _ => true
  end.

(** The times that [Date.now()] answers to the [addBox] and [addItem]
    calls of a list. *)
Definition op_clock (ops : list Op) : list Z :=
  omap (fun o => match o with
                 | AddBox _ now _ => Some now
                 | AddItem _ now _ _ => Some now
                 | _ => None
                 end) ops.

(** No [updateItem] of the list rewrites a timestamp. *)
Definition keeps_timestamp (o : Op) : Prop :=
  match o with
  | UpdateItem _ updates => ItemUpdates.timestamp updates = None
  | _ => True
  end.

(** Later first, under an order [R] of the keys: [<=], or [<] where no
    two keys are to be equal. *)
Definition later_first (R : Z -> Z -> Prop) {A} (key : A -> Z) (l : list A)
  : Prop :=
  StronglySorted (fun a b => R (key b) (key a)) l.

(** The two collections are in the order of their times and the clock
    goes on from them: its answers are in order, and each comes after
    the times of the records held. *)
Definition chronological (R : Z -> Z -> Prop) (boxes : list Box.t)
    (items : list Item.t) (clock : list Z) : Prop :=
  StronglySorted R clock
  /\ later_first R Box.createdAt boxes
  /\ later_first R Item.timestamp items
  /\ (forall n, n ∈ clock ->
        (forall b, b ∈ boxes -> R (Box.createdAt b) n)
        /\ (forall i, i ∈ items -> R (Item.timestamp i) n)).

(** What each call of a list answers, the calls running one after the
    other. *)
Fixpoint outcomes {S C} (method : C -> Prog S unit) (calls : list C)
    (st : S * World) : list (Outcome unit) :=
  match calls with
  | [] => []
  | c :: calls =>
      Prog.outcome (method c) st
        :: outcomes method calls (Prog.exec (method c) st)
  end.

(** ** A sample session *)

Module Scenario.

Definition a_drill : PartialItem.t :=
  PartialItem.mk None None None None (Some "Drill") None
    (Some ["tools"]) None.

Definition cordless : ItemUpdates.t :=
  ItemUpdates.mk None None None None (Some "cordless") None None.

(** Two boxes, an item in each; the first box is sealed, its item is
    described, and the other item is deleted. *)
Definition session : list Op :=
  [ AddBox "b-1" 1000 "Garage";
    AddItem "i-1" 2000 "b-1" a_drill;
    AddBox "b-2" 3000 "Attic";
    UpdateBoxStatus "b-1" true;
    AddItem "i-2" 4000 "b-2" PartialItem.empty;
    UpdateItem "i-1" cordless;
    SelectBox "b-1";
    DeleteItem "i-2" ].

End Scenario.

(** ** [GeminiService]: [src/services/gemini.service.ts]

    A method sends its prompt to the model and reads the JSON text of
    the response. What the request and [JSON.parse] come to is given to
    the method: [Replied result] with the value read, or [Failed error]
    with what either threw. [analyzeItem] returns the value read as it
    is, so its answer tells [null] ([None]) from any other value, which
    is read at the three properties of the [responseSchema] (none is
    required). [searchInventory] reads [matchIds] off the value inside
    its own [try], where [null] throws a [TypeError] as a failed
    request throws: its answer is the object read or the exception. *)

Module GeminiService.

Inductive Response (A : Type) :=
| Replied (result : A)
| Failed (error : Exn).
Arguments Replied {A} result.
Arguments Failed {A} error.

(** [{ name, description, tags }] *)
Record Analysis := mkAnalysis {
  name : option string;
  description : option string;
  tags : option (list string)
}.

(** [{ matchIds }] *)
Record Matches := mkMatches {
  matchIds : option (list string)
}.

Section Methods.
Context {S : Type}.

(** [await this.ai.models.generateContent(...)] and
    [JSON.parse(response.text)]. *)
Definition generateContent {A} (response : Response A) : Prog S A :=
  match response with
  | Replied result => mret result
  | Failed error => Prog.throw error
  end.

(** [analyzeItem(imageBase64, userDescription)]: the value that
    [JSON.parse] read goes back unchecked, [null] too. *)
Definition analyzeItem (response : Response (option Analysis))
    (imageBase64 userDescription : string) : Prog S (option Analysis) :=
  Prog.try_catch
    (generateContent response)
    (fun error =>
       console_write (console_error "Gemini Analysis Error:" (Some error));;
       mret (Some {| name := Some "Unidentified Item";
                     description :=
                       Some (String.append "Could not analyze item. "
                               userDescription);
                     tags := Some ["unknown"] |})).

Definition searchInventory (response : Response Matches) (query : string)
    (items : list Item.t) : Prog S (list string) :=
  Prog.try_catch
    (result ← generateContent response;
     mret (JS.or_array (matchIds result) []))
    (fun error =>
       console_write (console_error "Search Error:" (Some error));;
       mret []).

End Methods.
End GeminiService.

(** ** [AppComponent] with its fields *)

(** [try { m } finally { f }] *)
Definition try_finally {S A} (m : Prog S A) (f : Prog S unit) : Prog S A :=
  fun st =>
    match m st with
    | (r, st') =>
        match f st' with
        | (Returned _, st'') => (r, st'')
        | (Threw e, st'') => (Threw e, st'')
        end
    end.

(** [l.includes(s)] *)
Definition Array_includes (l : list string) (s : string) : bool :=
  existsb (String.eqb s) l.

Module App.

(** ['add' | 'find'] *)
Inductive Mode := mode_add | mode_find.

(** ['box' | 'item' | 'search'] *)
Inductive ListeningMode := for_box | for_item | for_search.

(** The fields of the component. [recognition] tells whether
    [initSpeech] found [webkitSpeechRecognition] and built the
    recogniser; [alerts] are the dialogs that [alert] has shown, first
    to last, which the embedding keeps with the component. *)
Record t := mk {
  inventory : IndexedDBService.t;
  currentMode : Mode;
  itemDescriptionControl : option string;
  isProcessing : bool;
  isListeningForItem : bool;
  isListeningForBox : bool;
  searchResults : list Item.t;
  isSearching : bool;
  searchPerformed : bool;
  isListeningForSearch : bool;
  recognition : bool;
  alerts : list string
}.

(** The field initialisers over the injected service. *)
Definition initial (inventory : IndexedDBService.t) : t :=
  mk inventory mode_add (Some EmptyString) false false false [] false false false
    false [].

Definition set_inventory (v : IndexedDBService.t) (s : t) : t :=
  mk v (currentMode s) (itemDescriptionControl s) (isProcessing s)
    (isListeningForItem s) (isListeningForBox s) (searchResults s)
    (isSearching s) (searchPerformed s) (isListeningForSearch s)
    (recognition s) (alerts s).
Definition set_currentMode (v : Mode) (s : t) : t :=
  mk (inventory s) v (itemDescriptionControl s) (isProcessing s)
    (isListeningForItem s) (isListeningForBox s) (searchResults s)
    (isSearching s) (searchPerformed s) (isListeningForSearch s)
    (recognition s) (alerts s).
Definition set_itemDescriptionControl (v : option string) (s : t) : t :=
  mk (inventory s) (currentMode s) v (isProcessing s)
    (isListeningForItem s) (isListeningForBox s) (searchResults s)
    (isSearching s) (searchPerformed s) (isListeningForSearch s)
    (recognition s) (alerts s).
Definition set_isProcessing (v : bool) (s : t) : t :=
  mk (inventory s) (currentMode s) (itemDescriptionControl s) v
    (isListeningForItem s) (isListeningForBox s) (searchResults s)
    (isSearching s) (searchPerformed s) (isListeningForSearch s)
    (recognition s) (alerts s).
Definition set_isListeningForItem (v : bool) (s : t) : t :=
  mk (inventory s) (currentMode s) (itemDescriptionControl s)
    (isProcessing s) v (isListeningForBox s) (searchResults s)
    (isSearching s) (searchPerformed s) (isListeningForSearch s)
    (recognition s) (alerts s).
Definition set_isListeningForBox (v : bool) (s : t) : t :=
  mk (inventory s) (currentMode s) (itemDescriptionControl s)
    (isProcessing s) (isListeningForItem s) v (searchResults s)
    (isSearching s) (searchPerformed s) (isListeningForSearch s)
    (recognition s) (alerts s).
Definition set_searchResults (v : list Item.t) (s : t) : t :=
  mk (inventory s) (currentMode s) (itemDescriptionControl s)
    (isProcessing s) (isListeningForItem s) (isListeningForBox s) v
    (isSearching s) (searchPerformed s) (isListeningForSearch s)
    (recognition s) (alerts s).
Definition set_isSearching (v : bool) (s : t) : t :=
  mk (inventory s) (currentMode s) (itemDescriptionControl s)
    (isProcessing s) (isListeningForItem s) (isListeningForBox s)
    (searchResults s) v (searchPerformed s) (isListeningForSearch s)
    (recognition s) (alerts s).
Definition set_searchPerformed (v : bool) (s : t) : t :=
  mk (inventory s) (currentMode s) (itemDescriptionControl s)
    (isProcessing s) (isListeningForItem s) (isListeningForBox s)
    (searchResults s) (isSearching s) v (isListeningForSearch s)
    (recognition s) (alerts s).
Definition set_isListeningForSearch (v : bool) (s : t) : t :=
  mk (inventory s) (currentMode s) (itemDescriptionControl s)
    (isProcessing s) (isListeningForItem s) (isListeningForBox s)
    (searchResults s) (isSearching s) (searchPerformed s) v
    (recognition s) (alerts s).
Definition set_recognition (v : bool) (s : t) : t :=
  mk (inventory s) (currentMode s) (itemDescriptionControl s)
    (isProcessing s) (isListeningForItem s) (isListeningForBox s)
    (searchResults s) (isSearching s) (searchPerformed s)
    (isListeningForSearch s) v (alerts s).
Definition set_alerts (v : list string) (s : t) : t :=
  mk (inventory s) (currentMode s) (itemDescriptionControl s)
    (isProcessing s) (isListeningForItem s) (isListeningForBox s)
    (searchResults s) (isSearching s) (searchPerformed s)
    (isListeningForSearch s) (recognition s) v.

(** [alert(message)] *)
Definition alert (message : string) : Prog t unit :=
  Prog.update_fields (fun s => set_alerts (alerts s ++ [message]) s).

(** A method of the injected service, run on the service's fields. *)
Definition on_inventory {A} (m : Prog IndexedDBService.t A)
  : Prog t (Outcome A) :=
  fun st =>
    match m (inventory (fst st), snd st) with
    | (r, (inv, w)) => (Returned r, (set_inventory inv (fst st), w))
    end.

(** A call of an [async] method of the service that is not awaited: a
    rejection of the promise is nobody's. *)
Definition not_awaited {A} (m : Prog IndexedDBService.t A) : Prog t unit :=
  _ ← on_inventory m; mret tt.

(** The same for an [async] method of the component. *)
Definition floating {A} (m : Prog t A) : Prog t unit :=
  fun st => match m st with (_, st') => (Returned tt, st') end.

(** [this.inventory.currentBoxId.set(v)] *)
Definition inventory_currentBoxId_set (v : option string) : Prog t unit :=
  Prog.update_fields (fun s =>
    set_inventory (IndexedDBService.set_currentBoxId v (inventory s)) s).

Definition setMode (mode : Mode) : Prog t unit :=
  Prog.update_fields (set_currentMode mode);;
  Prog.update_fields (set_searchResults []);;
  Prog.update_fields (set_searchPerformed false);;
  Prog.update_fields (set_itemDescriptionControl (Some EmptyString)).

Definition backToBoxList : Prog t unit :=
  inventory_currentBoxId_set None.

Definition createNewBox (uuid : string) (now : Z) (name : string)
  : Prog t unit :=
  AppComponent.createNewBox
    (fun name => not_awaited (IndexedDBService.addBox uuid now name)) name.

(** [toggleBoxStatus(event, box)]; [event.stopPropagation()] does
    nothing to the fields. *)
Definition toggleBoxStatus (box : Box.t) : Prog t unit :=
  not_awaited
    (IndexedDBService.updateBoxStatus (Box.id box) (negb (Box.isFull box))).

Definition finishOrOpenBox : Prog t unit :=
  s ← Prog.get_fields;
  match IndexedDBService.currentBox (inventory s) with
  | None => mret tt
  | Some currentBox =>
      if Box.isFull currentBox then
        not_awaited
          (IndexedDBService.updateBoxStatus (Box.id currentBox) false)
      else
        not_awaited
          (IndexedDBService.updateBoxStatus (Box.id currentBox) true);;
        inventory_currentBoxId_set None
  end.

(** [onImageCaptured(base64Image)] up to its [await]: the two guards,
    the spinner, and the description that goes to the model with the
    picture. [None]: the handler has returned. *)
Definition onImageCaptured_request : Prog t (option string) :=
  s ← Prog.get_fields;
  if negb (JS.truthy (IndexedDBService.currentBoxId (inventory s)))
  then mret None
  else if match IndexedDBService.currentBox (inventory s) with
          | Some currentBox => Box.isFull currentBox
          | None => false
          end
  then alert "This box is sealed. Please re-open it to add items.";;
       mret None
  else
    Prog.update_fields (set_isProcessing true);;
    mret (Some (JS.or_string (itemDescriptionControl s)
                  "No description provided.")).

(** [onImageCaptured] from its [await] on, with the response of the
    model and with what [crypto.randomUUID()] and [Date.now()] answer
    in [addItem]. It runs on the component as the answer finds it:
    [this.inventory.currentBoxId()] is read again, and the box is not
    checked again. Of [null], [analysis.name] throws before [addItem]
    is called. *)
Definition onImageCaptured_resume
    (response : GeminiService.Response (option GeminiService.Analysis))
    (uuid : string) (now : Z) (base64Image desc : string) : Prog t unit :=
  try_finally
    (Prog.try_catch
       (analysis ← GeminiService.analyzeItem response base64Image desc;
        s ← Prog.get_fields;
        match analysis with
        | None => Prog.throw TypeError
        | Some analysis =>
            match IndexedDBService.currentBoxId (inventory s) with
            | Some boxId =>
                not_awaited
                  (IndexedDBService.addItem uuid now boxId
                     {| PartialItem.id := None;
                        PartialItem.boxId := None;
                        PartialItem.boxName := None;
                        PartialItem.imageUrl := Some base64Image;
                        PartialItem.name := GeminiService.name analysis;
                        PartialItem.description :=
                          GeminiService.description analysis;
                        PartialItem.tags := GeminiService.tags analysis;
                        PartialItem.timestamp := None |})
            | None => mret tt
            end;;
            Prog.update_fields
              (set_itemDescriptionControl (Some EmptyString))
        end)
       (fun e =>
          console_write (console_error EmptyString (Some e));;
          alert "Failed to analyze item. Please try again."))
    (Prog.update_fields (set_isProcessing false)).

(** [onImageCaptured(base64Image)] when nothing else runs while it
    waits for the model. *)
Definition onImageCaptured
    (response : GeminiService.Response (option GeminiService.Analysis))
    (uuid : string) (now : Z) (base64Image : string) : Prog t unit :=
  pending ← onImageCaptured_request;
  match pending with
  | None => mret tt
  | Some desc => onImageCaptured_resume response uuid now base64Image desc
  end.

(** [performSearch(query)] up to its [await]: the guard, the two flags
    and the items that are read before the request. [None]: the handler
    has returned. *)
Definition performSearch_request (query : string)
  : Prog t (option (list Item.t)) :=
  if negb (JS.truthy (Some (JS.trim query))) then mret None
  else
    Prog.update_fields (set_isSearching true);;
    Prog.update_fields (set_searchPerformed true);;
    s ← Prog.get_fields;
    mret (Some (IndexedDBService.items (inventory s))).

(** [performSearch] from its [await] on: the results are picked from
    the items as they were before the request. *)
Definition performSearch_resume
    (response : GeminiService.Response GeminiService.Matches)
    (query : string) (allItems : list Item.t) : Prog t unit :=
  try_finally
    (matchIds ← GeminiService.searchInventory response query allItems;
     let results :=
       List.filter (fun item => Array_includes matchIds (Item.id item))
         allItems in
     Prog.update_fields (set_searchResults results))
    (Prog.update_fields (set_isSearching false)).

(** [performSearch(query)] when nothing else runs while it waits for
    the model. *)
Definition performSearch (response : GeminiService.Response GeminiService.Matches)
    (query : string) : Prog t unit :=
  if negb (JS.truthy (Some (JS.trim query))) then mret tt
  else
    Prog.update_fields (set_isSearching true);;
    Prog.update_fields (set_searchPerformed true);;
    try_finally
      (s ← Prog.get_fields;
       let allItems := IndexedDBService.items (inventory s) in
       matchIds ← GeminiService.searchInventory response query allItems;
       let results :=
         List.filter (fun item => Array_includes matchIds (Item.id item))
           allItems in
       Prog.update_fields (set_searchResults results))
      (Prog.update_fields (set_isSearching false)).

(** *** Voice *)

(** [initSpeech()], with whether ['webkitSpeechRecognition' in window]. *)
Definition initSpeech (supported : bool) : Prog t unit :=
  Prog.when supported (Prog.update_fields (set_recognition true)).

Definition constructor (supported : bool) : Prog t unit :=
  initSpeech supported.

(** [stopListeningAll()]; what [this.recognition.stop()] throws is
    caught and dropped. *)
Definition stopListeningAll : Prog t unit :=
  Prog.update_fields (set_isListeningForBox false);;
  Prog.update_fields (set_isListeningForItem false);;
  Prog.update_fields (set_isListeningForSearch false).

(** [startListening(mode)], with how [this.recognition.start()] ends. *)
Definition startListening (started : Outcome unit) (mode : ListeningMode)
  : Prog t unit :=
  s ← Prog.get_fields;
  if negb (recognition s)
  then alert "Speech recognition not supported in this browser."
  else
    stopListeningAll;;
    Prog.when (match mode with for_box => true | _ => false end)
      (Prog.update_fields (set_isListeningForBox true));;
    Prog.when (match mode with for_item => true | _ => false end)
      (Prog.update_fields (set_isListeningForItem true));;
    Prog.when (match mode with for_search => true | _ => false end)
      (Prog.update_fields (set_isListeningForSearch true));;
    match started with
    | Returned _ => mret tt
    | Threw e => Prog.throw e
    end.

Definition handleVoiceResult
    (response : GeminiService.Response GeminiService.Matches)
    (uuid : string) (now : Z) (text : string) : Prog t unit :=
  s ← Prog.get_fields;
  (if isListeningForBox s then createNewBox uuid now text
   else if isListeningForItem s then
     let current := JS.or_string (itemDescriptionControl s) EmptyString in
     Prog.update_fields
       (set_itemDescriptionControl
          (Some (String.append current
                   (String.append
                      (if JS.truthy (Some current) then " " else EmptyString)
                      text))))
   else if isListeningForSearch s then floating (performSearch response text)
   else mret tt);;
  stopListeningAll.

(** [handleVoiceResult(text)] up to the [await] of the search that it
    starts, with the items which that search has read. *)
Definition handleVoiceResult_request (uuid : string) (now : Z)
    (text : string) : Prog t (option (list Item.t)) :=
  s ← Prog.get_fields;
  pending ←
    (if isListeningForBox s then createNewBox uuid now text;; mret None
     else if isListeningForItem s then
       let current := JS.or_string (itemDescriptionControl s) EmptyString in
       Prog.update_fields
         (set_itemDescriptionControl
            (Some (String.append current
                     (String.append
                        (if JS.truthy (Some current) then " "
                         else EmptyString)
                        text))));;
       mret None
     else if isListeningForSearch s then performSearch_request text
     else mret None);
  stopListeningAll;;
  mret pending.

Definition toggleListeningForBox (started : Outcome unit) : Prog t unit :=
  s ← Prog.get_fields;
  if isListeningForBox s then stopListeningAll
  else startListening started for_box.

Definition toggleListeningForItem (started : Outcome unit) : Prog t unit :=
  s ← Prog.get_fields;
  if isListeningForItem s then stopListeningAll
  else startListening started for_item.

Definition toggleListeningForSearch (started : Outcome unit) : Prog t unit :=
  s ← Prog.get_fields;
  if isListeningForSearch s then stopListeningAll
  else startListening started for_search.

(** The handlers that [initSpeech] gives the recogniser. *)
Definition recognition_onresult
    (response : GeminiService.Response GeminiService.Matches)
    (uuid : string) (now : Z) (transcript : string) : Prog t unit :=
  handleVoiceResult response uuid now transcript.

Definition recognition_onerror : Prog t unit :=
  console_write (console_error "Speech error" None);;
  stopListeningAll.

Definition recognition_onend : Prog t unit := stopListeningAll.

(** What the user and the recogniser do to the component, one event at
    a time: an event is taken with all that it starts, up to the end of
    its [async] handler, and no other event comes in between (what
    may come in between is told by [Turn] below). [triggerCapture]
    only asks the camera for a picture, which comes back as
    [onImageCaptured]. *)
Inductive Event :=
| SetMode (mode : Mode)
| BackToBoxList
| CreateNewBox (uuid : string) (now : Z) (name : string)
| ToggleBoxStatus (box : Box.t)
| FinishOrOpenBox
| OnImageCaptured
    (response : GeminiService.Response (option GeminiService.Analysis))
    (uuid : string) (now : Z) (base64Image : string)
| PerformSearch (response : GeminiService.Response GeminiService.Matches)
    (query : string)
| ToggleListeningForBox (started : Outcome unit)
| ToggleListeningForItem (started : Outcome unit)
| ToggleListeningForSearch (started : Outcome unit)
| OnResult (response : GeminiService.Response GeminiService.Matches)
    (uuid : string) (now : Z) (transcript : string)
| OnError
| OnEnd.

Definition handle (e : Event) : Prog t unit :=
  match e with
  | SetMode mode => setMode mode
  | BackToBoxList => backToBoxList
  | CreateNewBox uuid now name => createNewBox uuid now name
  | ToggleBoxStatus box => toggleBoxStatus box
  | FinishOrOpenBox => finishOrOpenBox
  | OnImageCaptured response uuid now base64Image =>
      onImageCaptured response uuid now base64Image
  | PerformSearch response query => performSearch response query
  | ToggleListeningForBox started => toggleListeningForBox started
  | ToggleListeningForItem started => toggleListeningForItem started
  | ToggleListeningForSearch started => toggleListeningForSearch started
  | OnResult response uuid now transcript =>
      recognition_onresult response uuid now transcript
  | OnError => recognition_onerror
  | OnEnd => recognition_onend
  end.

(** *** Handlers that wait for the model

    [onImageCaptured] and [performSearch] are [async]: a call runs up
    to the [await] of the model, and the rest of it runs when the
    answer is there, on the component as the user and the recogniser
    have left it in between. A handler that waits is kept with what it
    was called with and what it has read before the [await], and with
    the answers that the rest of it is going to get: the response of
    the model and, for [addItem], the uuid and the clock. *)
Inductive Waiting :=
| ForAnalysis
    (response : GeminiService.Response (option GeminiService.Analysis))
    (uuid : string) (now : Z) (base64Image desc : string)
| ForMatches (response : GeminiService.Response GeminiService.Matches)
    (query : string) (allItems : list Item.t).

(** The rest of a handler that waits. *)
Definition resume (p : Waiting) : Prog t unit :=
  match p with
  | ForAnalysis response uuid now base64Image desc =>
      onImageCaptured_resume response uuid now base64Image desc
  | ForMatches response query allItems =>
      performSearch_resume response query allItems
  end.

(** An event taken up to the [await] of the model, with the handler
    that waits from then on, if there is one. *)
Definition start (e : Event) : Prog t (list Waiting) :=
  match e with
  | OnImageCaptured response uuid now base64Image =>
      pending ← onImageCaptured_request;
      mret (match pending with
            | Some desc => [ForAnalysis response uuid now base64Image desc]
            | None => []
            end)
  | PerformSearch response query =>
      pending ← performSearch_request query;
      mret (match pending with
            | Some allItems => [ForMatches response query allItems]
            | None => []
            end)
  | OnResult response uuid now transcript =>
      pending ← handleVoiceResult_request uuid now transcript;
      mret (match pending with
            | Some allItems => [ForMatches response transcript allItems]
            | None => []
            end)
  | e => handle e;; mret []
  end.

(** One step of the component: an event comes in, or the model
    answers the handler that is [k]-th in the line of those that
    wait. *)
Inductive Turn :=
| Starts (e : Event)
| Answered (k : nat).

(** The component with its world and the handlers that wait. *)
Definition Live : Type := (t * World) * list Waiting.

Definition turn (x : Turn) (live : Live) : Live :=
  match x with
  | Starts e =>
      match start e (fst live) with
      | (Returned pending, st) => (st, snd live ++ pending)
      | (Threw _, st) => (st, snd live)
      end
  | Answered k =>
      match snd live !! k with
      | Some p => (Prog.exec (resume p) (fst live), delete k (snd live))
      | None => live
      end
  end.

Definition run_turns (xs : list Turn) (live : Live) : Live :=
  fold_left (fun live x => turn x live) xs live.

End App.

(** At most one of the three microphones is on. *)
Definition one_microphone (s : App.t) : Prop :=
  (App.isListeningForBox s && App.isListeningForItem s = false)
  /\ (App.isListeningForBox s && App.isListeningForSearch s = false)
  /\ (App.isListeningForItem s && App.isListeningForSearch s = false).

(** What a method of [GeminiService] writes on the console: its error
    line when the request or the parse threw, and nothing otherwise. *)
Definition gemini_logged {A} (msg : string)
    (response : GeminiService.Response A) (w : World) : World :=
  match response with
  | GeminiService.Replied _ => w
  | GeminiService.Failed error =>
      with_console w (console w ++ [console_error msg (Some error)])
  end.

(** The ids that [searchInventory] hands to the component. *)
Definition matched_ids (response : GeminiService.Response GeminiService.Matches)
  : list string :=
  match response with
  | GeminiService.Replied result =>
      JS.or_array (GeminiService.matchIds result) []
  | GeminiService.Failed _ => []
  end.

(** The analysis that [analyzeItem] hands to the component: the value
    read, which is [null] or not, or the stand-in for a failed
    request. *)
Definition analysis_of
    (response : GeminiService.Response (option GeminiService.Analysis))
    (userDescription : string) : option GeminiService.Analysis :=
  match response with
  | GeminiService.Replied result => result
  | GeminiService.Failed _ =>
      Some (GeminiService.mkAnalysis (Some "Unidentified Item")
              (Some (String.append "Could not analyze item. "
                       userDescription))
              (Some ["unknown"]))
  end.

(** The [itemData] that [onImageCaptured] hands to [addItem]. *)
Definition captured (base64Image : string)
    (analysis : GeminiService.Analysis) : PartialItem.t :=
  {| PartialItem.id := None;
     PartialItem.boxId := None;
     PartialItem.boxName := None;
     PartialItem.imageUrl := Some base64Image;
     PartialItem.name := GeminiService.name analysis;
     PartialItem.description := GeminiService.description analysis;
     PartialItem.tags := GeminiService.tags analysis;
     PartialItem.timestamp := None |}.

(** The description that [onImageCaptured] sends with the picture. *)
Definition description_sent (s : App.t) : string :=
  JS.or_string (App.itemDescriptionControl s) "No description provided.".

(** The component at rest between two events: at most one microphone
    is on, none without a recogniser, and neither spinner is left
    on. *)
Definition settled (s : App.t) : Prop :=
  one_microphone s
  /\ App.isProcessing s = false
  /\ App.isSearching s = false
  /\ (App.recognition s = false ->
      App.isListeningForBox s = false
      /\ App.isListeningForItem s = false
      /\ App.isListeningForSearch s = false).

(** No microphone is on. *)
Definition quiet (s : App.t) : Prop :=
  App.isListeningForBox s = false
  /\ App.isListeningForItem s = false
  /\ App.isListeningForSearch s = false.

(** ** A sample component *)

Module AppScenario.

(** The component in a browser with speech recognition, over a service
    that holds the sample box with the sample item in it, the box
    open on the screen. *)
Definition app : App.t :=
  fst (Prog.exec (App.constructor true)
         (App.initial
            (IndexedDBService.mk (Some IndexedDBService.ClutterAI_DB)
               [Samples.garage] [Samples.drill] (Some "b-1")),
          World_empty)).

(** The stores that go with it. *)
Definition world : World :=
  snd (Prog.exec
         (put_records Store_boxes [Samples.garage];;
          put_records Store_items [Samples.drill]) (opened, World_empty)).

Definition no_answer
  : GeminiService.Response (option GeminiService.Analysis) :=
  GeminiService.Failed (Rejected "503").

(** What [analyzeItem] makes of [no_answer] for a picture that comes
    without a description. *)
Definition unidentified : GeminiService.Analysis :=
  GeminiService.mkAnalysis (Some "Unidentified Item")
    (Some "Could not analyze item. No description provided.")
    (Some ["unknown"]).

Definition no_matches : GeminiService.Response GeminiService.Matches :=
  GeminiService.Failed SyntaxError.

(** The sample box is sealed from the list while a capture into it
    waits for the model. *)
Definition sealed_meanwhile : list App.Turn :=
  [ App.Starts (App.OnImageCaptured no_answer "i-2" 3000 "/9j/4AAQ");
    App.Starts (App.ToggleBoxStatus Samples.garage);
    App.Answered 0 ].

End AppScenario.

(** The calls of the service's public API that an event makes, on the
    component as the event finds it. *)
Definition calls_of (s : App.t) (e : App.Event) : list Op :=
  match e with
  | App.CreateNewBox uuid now name =>
      if JS.truthy (Some (JS.trim name))
      then [AddBox uuid now (JS.trim name)] else []
  | App.ToggleBoxStatus box =>
      [UpdateBoxStatus (Box.id box) (negb (Box.isFull box))]
  | App.FinishOrOpenBox =>
      match IndexedDBService.currentBox (App.inventory s) with
      | Some currentBox =>
          [UpdateBoxStatus (Box.id currentBox)
             (negb (Box.isFull currentBox))]
      | None => []
      end
  | App.OnImageCaptured response uuid now base64Image =>
      match IndexedDBService.currentBoxId (App.inventory s) with
      | Some boxId =>
          if String.eqb boxId EmptyString then []
          else
            match Views.find_box (IndexedDBService.boxes (App.inventory s))
                    boxId with
            | Some currentBox =>
                if Box.isFull currentBox then []
                else
                  match analysis_of response (description_sent s) with
                  | Some analysis =>
                      [AddItem uuid now boxId (captured base64Image analysis)]
                  | None => []
                  end
            | None => []
            end
      | None => []
      end
  | App.OnResult response uuid now transcript =>
      if App.isListeningForBox s && JS.truthy (Some (JS.trim transcript))
      then [AddBox uuid now (JS.trim transcript)] else []
  | _ => []
  end.

(** The same for a sequence of events, each on the component as the
    events before it left it. *)
Fixpoint session_calls (events : list App.Event) (st : App.t * World)
  : list Op :=
  match events with
  | [] => []
  | e :: events =>
      calls_of (fst st) e
        ++ session_calls events (Prog.exec (App.handle e) st)
  end.

(** Two services with their worlds hold the same data: the same handle,
    boxes and items, and the same stores and localStorage. The pointer
    to the current box and the console are left out. *)
Definition same_data (st st0 : IndexedDBService.t * World) : Prop :=
  IndexedDBService.db (fst st) = IndexedDBService.db (fst st0)
  /\ IndexedDBService.boxes (fst st) = IndexedDBService.boxes (fst st0)
  /\ IndexedDBService.items (fst st) = IndexedDBService.items (fst st0)
  /\ store_boxes (snd st) = store_boxes (snd st0)
  /\ store_items (snd st) = store_items (snd st0)
  /\ localStorage (snd st) = localStorage (snd st0).

(** The service of a component, with the world. *)
Definition service_of (st : App.t * World) : IndexedDBService.t * World :=
  (App.inventory (fst st), snd st).

(** The calls that the component makes: [addBox], [addItem] and
    [updateBoxStatus]. *)
Definition component_call (o : Op) : Prop :=
  match o with
  | AddBox _ _ _ | AddItem _ _ _ _ | UpdateBoxStatus _ _ => True
  | _ => False
  end.

(** ** A sample session of the component *)

Module AppSession.

(** A second box is made and an item captured into it while the model
    is down; the box is sealed from its detail view; a third box is
    made by voice. *)
Definition events : list App.Event :=
  [ App.CreateNewBox "b-2" 3000 "Attic";
    App.OnImageCaptured AppScenario.no_answer "i-2" 4000 "/9j/4AAQ";
    App.FinishOrOpenBox;
    App.ToggleListeningForBox (Returned tt);
    App.OnResult AppScenario.no_matches "b-3" 5000 " Shed " ].

End AppSession.

(** * Properties *)

(** ** Tactics for running a method *)

Ltac prog_unfold :=
  unfold localStorage_getItem, localStorage_setItem, localStorage_removeItem,
    console_write in *;
  unfold Prog.exec, Prog.outcome, Prog.when, mbind, mret, Prog_bind, Prog_ret,
    Prog.bind, Prog.ret, Prog.throw, Prog.try_catch, Prog.get_fields,
    Prog.update_fields, Prog.get_world, Prog.update_world in *.

Ltac prog_simpl := prog_unfold; cbn [fst snd] in *.

(** ** Facts about [Array.prototype.sort] *)

Section ArraySort.
Context {A : Type} (key : A -> Z).
Local Abbreviation descending := (descending key).
Local Abbreviation newest_first := (newest_first key).

Lemma sort_insert_Permutation (cmp : A -> A -> Z) x l :
  Permutation (JS.sort_insert cmp x l) (x :: l).
Proof.
  induction l as [|y l IH]; simpl; [reflexivity|].
  destruct (cmp x y <=? 0); [reflexivity|].
  rewrite IH. apply perm_swap.
Qed.

Lemma Array_sort_Permutation (cmp : A -> A -> Z) l :
  Permutation (JS.Array_sort cmp l) l.
Proof.
  induction l as [|x l IH]; simpl; [reflexivity|].
  rewrite sort_insert_Permutation. now constructor.
Qed.

Lemma sort_insert_newest_first x l :
  newest_first l -> newest_first (JS.sort_insert descending x l).
Proof.
  unfold newest_first, descending.
  induction l as [|y l IH]; simpl; intros Hs.
  - repeat constructor.
  - apply StronglySorted_inv in Hs as [Hl Hy].
    destruct (Z.leb_spec (key y - key x) 0) as [Hle|Hgt].
    + constructor; [now constructor|].
      constructor; [lia|].
      eapply Forall_impl; [exact Hy|]. simpl. intros; lia.
    + constructor; [now apply IH|].
      eapply Permutation_Forall.
      * symmetry. apply sort_insert_Permutation.
      * constructor; [lia|assumption].
Qed.

Lemma Array_sort_newest_first l :
  newest_first (JS.Array_sort descending l).
Proof.
  induction l as [|x l IH]; simpl; [constructor|].
  now apply sort_insert_newest_first.
Qed.

End ArraySort.

(** ** Lookups *)

Lemma find_box_Some boxes boxId box :
  Views.find_box boxes boxId = Some box ->
  box ∈ boxes /\ Box.id box = boxId.
Proof.
  unfold Views.find_box. intros H.
  apply List.find_some in H as [Hin Heq].
  split; [now apply list_elem_of_In|now apply String.eqb_eq].
Qed.

Lemma find_box_None boxes boxId :
  Views.find_box boxes boxId = None <->
  (forall b, b ∈ boxes -> Box.id b <> boxId).
Proof.
  unfold Views.find_box. split.
  - intros H b Hb Heq.
    apply list_elem_of_In in Hb.
    apply (List.find_none _ _ H) in Hb.
    apply String.eqb_neq in Hb. contradiction.
  - intros H. induction boxes as [|b l IH]; simpl; [reflexivity|].
    destruct (String.eqb_spec (Box.id b) boxId) as [Heq|Hne].
    + exfalso. apply (H b); [left|assumption].
    + apply IH. intros b' Hb'. apply H. now right.
Qed.

Lemma find_box_is_Some boxes boxId b :
  b ∈ boxes -> Box.id b = boxId ->
  exists box, Views.find_box boxes boxId = Some box.
Proof.
  intros Hin Heq.
  destruct (Views.find_box boxes boxId) as [box|] eqn:E; [eauto|].
  exfalso. eapply find_box_None; eauto.
Qed.

(** ** [addItem] *)

Section AddItem.
Variables (uuid : string) (now : Z) (boxId : string) (itemData : PartialItem.t).

Lemma legacy_addItem_absent s w :
  Views.find_box (LocalStorageService.boxes s) boxId = None ->
  LocalStorageService.addItem uuid now boxId itemData (s, w)
  = (Returned tt, (s, w)).
Proof.
  intros H. unfold LocalStorageService.addItem. prog_simpl. now rewrite H.
Qed.

Lemma legacy_addItem_present s w box :
  Views.find_box (LocalStorageService.boxes s) boxId = Some box ->
  LocalStorageService.addItem uuid now boxId itemData (s, w)
  = (Returned tt,
     (LocalStorageService.set_items
        (Views.newItem uuid now boxId box itemData
           :: LocalStorageService.items s) s, w)).
Proof.
  intros H. unfold LocalStorageService.addItem. prog_simpl. now rewrite H.
Qed.

Lemma idb_addItem_absent s w :
  Views.find_box (IndexedDBService.boxes s) boxId = None ->
  IndexedDBService.addItem uuid now boxId itemData (s, w)
  = (Returned tt, (s, w)).
Proof.
  intros H. unfold IndexedDBService.addItem. prog_simpl. now rewrite H.
Qed.

Lemma idb_addItem_present s w box :
  Views.find_box (IndexedDBService.boxes s) boxId = Some box ->
  fst (Prog.exec (IndexedDBService.addItem uuid now boxId itemData) (s, w))
  = IndexedDBService.set_items
      (Views.newItem uuid now boxId box itemData
         :: IndexedDBService.items s) s.
Proof.
  intros H.
  unfold IndexedDBService.addItem, IndexedDBService.putToStore.
  prog_simpl. rewrite H. simpl. now destruct (IndexedDBService.db s).
Qed.

End AddItem.

Lemma newItem_built uuid now boxId box itemData :
  built_item uuid now boxId box itemData
    (Views.newItem uuid now boxId box itemData).
Proof.
  unfold built_item, Views.newItem; simpl.
  repeat split; intros ->; reflexivity.
Qed.

(** C2. [addItem(boxId, itemData)], in both revisions: when no box of
    the collection has the id [boxId], the call returns without an error
    and changes nothing; when some box has it, one item is put in front
    of the item collection, the rest of the collection and the boxes
    stay, and the new item carries the name of the box that [find]
    returns, the time of the call and the defaults for the properties
    that [itemData] lacks. *)
Theorem C2_addItem uuid now boxId itemData :
  (forall s w,
      ((forall b, b ∈ LocalStorageService.boxes s -> Box.id b <> boxId) ->
       LocalStorageService.addItem uuid now boxId itemData (s, w)
       = (Returned tt, (s, w)))
      /\ ((exists b, b ∈ LocalStorageService.boxes s /\ Box.id b = boxId) ->
          exists box item,
            Views.find_box (LocalStorageService.boxes s) boxId = Some box
            /\ LocalStorageService.addItem uuid now boxId itemData (s, w)
               = (Returned tt,
                  (LocalStorageService.set_items
                     (item :: LocalStorageService.items s) s, w))
            /\ built_item uuid now boxId box itemData item))
  /\
  (forall s w,
      ((forall b, b ∈ IndexedDBService.boxes s -> Box.id b <> boxId) ->
       IndexedDBService.addItem uuid now boxId itemData (s, w)
       = (Returned tt, (s, w)))
      /\ ((exists b, b ∈ IndexedDBService.boxes s /\ Box.id b = boxId) ->
          exists box item,
            Views.find_box (IndexedDBService.boxes s) boxId = Some box
            /\ fst (Prog.exec
                      (IndexedDBService.addItem uuid now boxId itemData)
                      (s, w))
               = IndexedDBService.set_items
                   (item :: IndexedDBService.items s) s
            /\ built_item uuid now boxId box itemData item)).
Proof.
  split; intros s w; split.
  - intros H. apply legacy_addItem_absent. now apply find_box_None.
  - intros (b & Hin & Hid).
    destruct (find_box_is_Some _ _ _ Hin Hid) as [box Hbox].
    exists box, (Views.newItem uuid now boxId box itemData).
    split; [assumption|]. split; [|apply newItem_built].
    now apply legacy_addItem_present.
  - intros H. apply idb_addItem_absent. now apply find_box_None.
  - intros (b & Hin & Hid).
    destruct (find_box_is_Some _ _ _ Hin Hid) as [box Hbox].
    exists box, (Views.newItem uuid now boxId box itemData).
    split; [assumption|]. split; [|apply newItem_built].
    now apply idb_addItem_present.
Qed.

(** [addItem('b-1', {})] on a service that holds the box [Garage], and
    [addItem('b-2', {})] on the same service. *)
Lemma C2_addItem_witness :
  let s := LocalStorageService.mk [Samples.garage] [] None in
  (exists box item,
      Views.find_box (LocalStorageService.boxes s) "b-1" = Some box
      /\ LocalStorageService.addItem "i-9" 3000 "b-1" PartialItem.empty
           (s, World_empty)
         = (Returned tt,
            (LocalStorageService.set_items
               (item :: LocalStorageService.items s) s, World_empty))
      /\ built_item "i-9" 3000 "b-1" box PartialItem.empty item)
  /\ LocalStorageService.addItem "i-9" 3000 "b-2" PartialItem.empty
       (s, World_empty)
     = (Returned tt, (s, World_empty)).
Proof.
  intros s.
  destruct (C2_addItem "i-9" 3000 "b-1" PartialItem.empty) as [Hl _].
  destruct (C2_addItem "i-9" 3000 "b-2" PartialItem.empty) as [Hl2 _].
  split.
  - apply (proj2 (Hl s World_empty)).
    exists Samples.garage. split; [apply list_elem_of_here|reflexivity].
  - apply (proj1 (Hl2 s World_empty)).
    intros b Hb. apply list_elem_of_singleton in Hb. subst b.
    vm_compute. discriminate.
Defined.

(** C10. A property of [itemData] that is present but falsy is replaced
    like a missing one: for a [boxId] that a box has, an empty [name]
    becomes [Unknown Item], an empty [imageUrl] or [description] is
    stored as the empty string, and a [tags] array, empty or not, is kept
    as given. Both revisions. *)
Theorem C10_addItem_falsy uuid now boxId itemData box :
  (forall s w,
      Views.find_box (LocalStorageService.boxes s) boxId = Some box ->
      exists item,
        LocalStorageService.items
          (fst (Prog.exec
                  (LocalStorageService.addItem uuid now boxId itemData)
                  (s, w)))
        = item :: LocalStorageService.items s
        /\ (PartialItem.name itemData = Some EmptyString ->
            Item.name item = "Unknown Item")
        /\ (PartialItem.imageUrl itemData = Some EmptyString ->
            Item.imageUrl item = EmptyString)
        /\ (PartialItem.description itemData = Some EmptyString ->
            Item.description item = EmptyString)
        /\ (forall t, PartialItem.tags itemData = Some t ->
                      Item.tags item = t))
  /\
  (forall s w,
      Views.find_box (IndexedDBService.boxes s) boxId = Some box ->
      exists item,
        IndexedDBService.items
          (fst (Prog.exec
                  (IndexedDBService.addItem uuid now boxId itemData)
                  (s, w)))
        = item :: IndexedDBService.items s
        /\ (PartialItem.name itemData = Some EmptyString ->
            Item.name item = "Unknown Item")
        /\ (PartialItem.imageUrl itemData = Some EmptyString ->
            Item.imageUrl item = EmptyString)
        /\ (PartialItem.description itemData = Some EmptyString ->
            Item.description item = EmptyString)
        /\ (forall t, PartialItem.tags itemData = Some t ->
                      Item.tags item = t)).
Proof.
  split; intros s w Hbox;
    exists (Views.newItem uuid now boxId box itemData).
  - unfold Prog.exec. rewrite (legacy_addItem_present _ _ _ _ _ _ _ Hbox).
    simpl. repeat split; try (intros ->; reflexivity).
    intros t ->. reflexivity.
  - rewrite (idb_addItem_present _ _ _ _ _ _ _ Hbox).
    simpl. repeat split; try (intros ->; reflexivity).
    intros t ->. reflexivity.
Qed.

(** [addItem('b-1', { name: '', tags: [] })] next to the box [Garage]. *)
Lemma C10_addItem_falsy_witness :
  let s := LocalStorageService.mk [Samples.garage] [] None in
  let itemData :=
    PartialItem.mk None None None None (Some EmptyString) None (Some []) None in
  exists item,
    LocalStorageService.items
      (fst (Prog.exec (LocalStorageService.addItem "i-9" 3000 "b-1" itemData)
              (s, World_empty)))
    = item :: LocalStorageService.items s
    /\ Item.name item = "Unknown Item"
    /\ Item.tags item = [].
Proof.
  intros s itemData.
  destruct (proj1 (C10_addItem_falsy "i-9" 3000 "b-1" itemData Samples.garage)
              s World_empty eq_refl)
    as (item & Hitems & Hname & _ & _ & Htags).
  exists item. split; [exact Hitems|].
  split; [apply Hname; reflexivity|apply Htags; reflexivity].
Defined.

(** ** [addBox] and its caller *)

Lemma legacy_addBox_run uuid now name s w :
  LocalStorageService.addBox uuid now name (s, w)
  = (Returned tt,
     (LocalStorageService.mk
        (Views.newBox uuid now name :: LocalStorageService.boxes s)
        (LocalStorageService.items s) (Some uuid), w)).
Proof. reflexivity. Qed.

Lemma idb_addBox_fields uuid now name s w :
  fst (Prog.exec (IndexedDBService.addBox uuid now name) (s, w))
  = IndexedDBService.mk (IndexedDBService.db s)
      (Views.newBox uuid now name :: IndexedDBService.boxes s)
      (IndexedDBService.items s) (Some uuid).
Proof.
  unfold IndexedDBService.addBox, IndexedDBService.putToStore. prog_simpl.
  destruct s as [[d|] bs its cur]; reflexivity.
Qed.

Lemma truthy_trim_empty name :
  JS.trim name = EmptyString -> JS.truthy (Some (JS.trim name)) = false.
Proof. intros ->. reflexivity. Qed.

(** C1, as the code has it. [addBox] does not look at the name: under
    any name it puts a new box in front and selects it. The guard is in
    its caller: for a name whose trimmed form is empty,
    [createNewBox(name)] returns without calling [addBox], so that the
    box collection, the pointer and the stores are the same after the
    call as before. Both revisions. *)
Theorem C1_createNewBox_guard (name : string)
    (Hblank : JS.trim name = EmptyString) :
  (forall uuid now st,
      AppComponent.createNewBox (LocalStorageService.addBox uuid now) name st
      = (Returned tt, st))
  /\ (forall uuid now st,
         AppComponent.createNewBox (IndexedDBService.addBox uuid now) name st
         = (Returned tt, st))
  /\ (forall uuid now s w,
         let s' := fst (Prog.exec (LocalStorageService.addBox uuid now name)
                          (s, w)) in
         LocalStorageService.boxes s'
         = Views.newBox uuid now name :: LocalStorageService.boxes s
         /\ LocalStorageService.currentBoxId s' = Some uuid)
  /\ (forall uuid now s w,
         let s' := fst (Prog.exec (IndexedDBService.addBox uuid now name)
                          (s, w)) in
         IndexedDBService.boxes s'
         = Views.newBox uuid now name :: IndexedDBService.boxes s
         /\ IndexedDBService.currentBoxId s' = Some uuid).
Proof.
  pose proof (truthy_trim_empty name Hblank) as Ht.
  split; [|split; [|split]].
  - intros. unfold AppComponent.createNewBox. now rewrite Ht.
  - intros. unfold AppComponent.createNewBox. now rewrite Ht.
  - intros uuid now s w s'. split; reflexivity.
  - intros uuid now s w s'. subst s'. rewrite idb_addBox_fields.
    split; reflexivity.
Qed.

(** [createNewBox('   ')] on a fresh service. *)
Lemma C1_createNewBox_guard_witness :
  JS.trim "   " = EmptyString
  /\ AppComponent.createNewBox (IndexedDBService.addBox "b-1" 1000) "   "
       (IndexedDBService.initial, World_empty)
     = (Returned tt, (IndexedDBService.initial, World_empty)).
Proof.
  split; [reflexivity|].
  apply (C1_createNewBox_guard "   " eq_refl).
Defined.

(** C1 as stated fails: [addBox('')] and [addBox('   ')] on a fresh
    service, of either revision, add a box and move the pointer. *)
Lemma C1_addBox_blank_counterexample :
  JS.trim EmptyString = EmptyString /\ JS.trim "   " = EmptyString
  /\ (let s' := fst (Prog.exec (LocalStorageService.addBox "b-1" 1000 "   ")
                       (LocalStorageService.initial, World_empty)) in
      LocalStorageService.boxes s' = [Box.mk "b-1" "   " false 1000]
      /\ LocalStorageService.boxes s'
         <> LocalStorageService.boxes LocalStorageService.initial
      /\ LocalStorageService.currentBoxId s'
         <> LocalStorageService.currentBoxId LocalStorageService.initial)
  /\ (let s' := fst (Prog.exec
                       (IndexedDBService.addBox "b-1" 1000 EmptyString)
                       (IndexedDBService.initial, World_empty)) in
      IndexedDBService.boxes s' = [Box.mk "b-1" EmptyString false 1000]
      /\ IndexedDBService.boxes s'
         <> IndexedDBService.boxes IndexedDBService.initial
      /\ IndexedDBService.currentBoxId s'
         <> IndexedDBService.currentBoxId IndexedDBService.initial).
Proof.
  repeat split; try reflexivity; vm_compute; discriminate.
Qed.

(** *** Sequences of [addBox] *)

Section AddBoxSequence.

Lemma newest_first_cons (b : Box.t) (l : list Box.t) :
  newest_first Box.createdAt l ->
  Forall (fun b' => Box.createdAt b' <= Box.createdAt b) l ->
  newest_first Box.createdAt (b :: l).
Proof. intros Hs Hb. now constructor. Qed.

Lemma run_calls_cons {S C} (method : C -> Prog S unit) c calls st :
  run_calls method (c :: calls) st
  = run_calls method calls (Prog.exec (method c) st).
Proof. reflexivity. Qed.

Lemma legacy_run_addBoxes calls : forall s w bound,
  newest_first Box.createdAt (LocalStorageService.boxes s) ->
  Forall (fun b => Box.createdAt b <= bound) (LocalStorageService.boxes s) ->
  Forall (fun n => bound <= n) (List.map call_now calls) ->
  clock_nondecreasing calls ->
  let s' := fst (run_calls
                   (fun c => LocalStorageService.addBox
                               (call_uuid c) (call_now c) (call_name c))
                   calls (s, w)) in
  length (LocalStorageService.boxes s')
  = (length calls + length (LocalStorageService.boxes s))%nat
  /\ newest_first Box.createdAt (LocalStorageService.boxes s').
Proof.
  unfold clock_nondecreasing.
  induction calls as [|c calls IH]; intros s w bound Hs Hb Hn Hc.
  - split; [reflexivity|assumption].
  - simpl in Hn, Hc. apply Forall_cons in Hn as [Hc0 Hn].
    apply StronglySorted_inv in Hc as [Hc Hc1].
    cbv zeta. rewrite run_calls_cons.
    unfold Prog.exec. rewrite legacy_addBox_run. cbn [snd].
    destruct (IH (LocalStorageService.mk
                    (Views.newBox (call_uuid c) (call_now c) (call_name c)
                       :: LocalStorageService.boxes s)
                    (LocalStorageService.items s) (Some (call_uuid c)))
                w (call_now c)) as [Hlen Hsorted].
    + apply newest_first_cons; [assumption|].
      eapply Forall_impl; [exact Hb|]. simpl. intros; lia.
    + constructor; [simpl; lia|].
      eapply Forall_impl; [exact Hb|]. simpl. intros; lia.
    + assumption.
    + assumption.
    + split; [|exact Hsorted]. rewrite Hlen. simpl. lia.
Qed.

Lemma idb_run_addBoxes calls : forall s w bound,
  newest_first Box.createdAt (IndexedDBService.boxes s) ->
  Forall (fun b => Box.createdAt b <= bound) (IndexedDBService.boxes s) ->
  Forall (fun n => bound <= n) (List.map call_now calls) ->
  clock_nondecreasing calls ->
  let s' := fst (run_calls
                   (fun c => IndexedDBService.addBox
                               (call_uuid c) (call_now c) (call_name c))
                   calls (s, w)) in
  length (IndexedDBService.boxes s')
  = (length calls + length (IndexedDBService.boxes s))%nat
  /\ newest_first Box.createdAt (IndexedDBService.boxes s').
Proof.
  unfold clock_nondecreasing.
  induction calls as [|c calls IH]; intros s w bound Hs Hb Hn Hc.
  - split; [reflexivity|assumption].
  - simpl in Hn, Hc. apply Forall_cons in Hn as [Hc0 Hn].
    apply StronglySorted_inv in Hc as [Hc Hc1].
    cbv zeta. rewrite run_calls_cons.
    pose proof (idb_addBox_fields (call_uuid c) (call_now c) (call_name c)
                  s w) as Hf.
    destruct (Prog.exec
                (IndexedDBService.addBox (call_uuid c) (call_now c)
                   (call_name c)) (s, w)) as [s1 w1].
    cbn [fst] in Hf. subst s1.
    destruct (IH (IndexedDBService.mk (IndexedDBService.db s)
                    (Views.newBox (call_uuid c) (call_now c) (call_name c)
                       :: IndexedDBService.boxes s)
                    (IndexedDBService.items s) (Some (call_uuid c)))
                w1 (call_now c)) as [Hlen Hsorted].
    + apply newest_first_cons; [assumption|].
      eapply Forall_impl; [exact Hb|]. simpl. intros; lia.
    + constructor; [simpl; lia|].
      eapply Forall_impl; [exact Hb|]. simpl. intros; lia.
    + assumption.
    + assumption.
    + split; [|exact Hsorted]. rewrite Hlen. simpl. lia.
Qed.

End AddBoxSequence.

(** C4. A sequence of [addBox] calls on a fresh service, the clock not
    running backwards from one call to the next: the box collection has
    as many boxes as there were calls and is ordered newest first by
    [createdAt]. It holds whatever the names are, so for non-empty names
    too, and in both revisions (in the transactional one whether or not
    the database has opened). *)
Theorem C4_addBox_sequence (calls : list AddBoxCall)
    (Hclock : clock_nondecreasing calls) :
  (forall w,
      let s' := fst (run_calls
                       (fun c => LocalStorageService.addBox
                                   (call_uuid c) (call_now c) (call_name c))
                       calls (LocalStorageService.initial, w)) in
      length (LocalStorageService.boxes s') = length calls
      /\ newest_first Box.createdAt (LocalStorageService.boxes s'))
  /\ (forall d w,
         let s' := fst (run_calls
                          (fun c => IndexedDBService.addBox
                                      (call_uuid c) (call_now c) (call_name c))
                          calls
                          (IndexedDBService.set_db d IndexedDBService.initial,
                           w)) in
         length (IndexedDBService.boxes s') = length calls
         /\ newest_first Box.createdAt (IndexedDBService.boxes s')).
Proof.
  assert (Hbound : exists bound,
             Forall (fun n => bound <= n) (List.map call_now calls)).
  { clear Hclock. induction calls as [|c l [b Hb]].
    - exists 0. constructor.
    - exists (Z.min b (call_now c)). simpl. constructor; [lia|].
      eapply Forall_impl; [exact Hb|]. simpl. intros; lia. }
  destruct Hbound as [bound Hbound].
  split.
  - intros w. cbv zeta.
    destruct (legacy_run_addBoxes calls LocalStorageService.initial w bound
                (SSorted_nil _) (List.Forall_nil _) Hbound Hclock)
      as [Hlen Hsorted].
    split; [|exact Hsorted]. rewrite Hlen. simpl. lia.
  - intros d w. cbv zeta.
    destruct (idb_run_addBoxes calls
                (IndexedDBService.set_db d IndexedDBService.initial) w bound
                (SSorted_nil _) (List.Forall_nil _) Hbound Hclock)
      as [Hlen Hsorted].
    split; [|exact Hsorted]. rewrite Hlen. simpl. lia.
Qed.

(** Three calls, two of them within the same millisecond. *)
Lemma C4_addBox_sequence_witness :
  let calls := [mkAddBoxCall "b-1" 1000 "Garage";
                mkAddBoxCall "b-2" 1000 "Attic";
                mkAddBoxCall "b-3" 1500 "Shed"] in
  clock_nondecreasing calls
  /\ (let s' := fst (run_calls
                       (fun c => LocalStorageService.addBox
                                   (call_uuid c) (call_now c) (call_name c))
                       calls (LocalStorageService.initial, World_empty)) in
      length (LocalStorageService.boxes s') = 3%nat
      /\ newest_first Box.createdAt (LocalStorageService.boxes s')).
Proof.
  intros calls.
  assert (Hclock : clock_nondecreasing calls).
  { unfold clock_nondecreasing, calls. simpl.
    repeat (constructor; try lia). }
  split; [exact Hclock|].
  exact (proj1 (C4_addBox_sequence calls Hclock) World_empty).
Defined.

(** ** [updateBoxStatus] *)

Lemma lookup_map {A B} (f : A -> B) (l : list A) (i : nat) :
  List.map f l !! i = f <$> (l !! i).
Proof.
  revert i. induction l as [|x l IH]; intros [|i]; simpl; auto.
Qed.

Section UpdateBoxStatus.
Variable boxId : string.

(** What [boxes.map(b => b.id === boxId ? f b : b)] does to the lookup
    of [boxId], when [f] keeps the id. *)
Lemma find_box_map (f : Box.t -> Box.t) boxes box :
  (forall b, Box.id b = boxId -> Box.id (f b) = boxId) ->
  Views.find_box boxes boxId = Some box ->
  Views.find_box
    (List.map (fun b => if String.eqb (Box.id b) boxId then f b else b) boxes)
    boxId = Some (f box).
Proof.
  unfold Views.find_box. intros Hf.
  induction boxes as [|b l IH]; simpl; [discriminate|].
  destruct (String.eqb_spec (Box.id b) boxId) as [Heq|Hne].
  - intros [= ->]. rewrite (Hf _ Heq). now rewrite String.eqb_refl.
  - destruct (String.eqb_spec (Box.id b) boxId); [contradiction|]. exact IH.
Qed.

Lemma lookup_map_other (f : Box.t -> Box.t) boxes i b :
  boxes !! i = Some b -> Box.id b <> boxId ->
  List.map (fun b => if String.eqb (Box.id b) boxId then f b else b) boxes
    !! i = Some b.
Proof.
  intros Hi Hne. rewrite lookup_map, Hi. simpl.
  now destruct (String.eqb_spec (Box.id b) boxId).
Qed.

Lemma legacy_updateBoxStatus_run isFull s w :
  LocalStorageService.updateBoxStatus boxId isFull (s, w)
  = (Returned tt,
     (LocalStorageService.set_boxes
        (List.map (fun b => if String.eqb (Box.id b) boxId
                            then Box.with_isFull b isFull else b)
           (LocalStorageService.boxes s)) s, w)).
Proof. reflexivity. Qed.

Lemma idb_updateBoxStatus_fields isFull s w box :
  Views.find_box (IndexedDBService.boxes s) boxId = Some box ->
  fst (Prog.exec (IndexedDBService.updateBoxStatus boxId isFull) (s, w))
  = IndexedDBService.set_boxes
      (List.map (fun b => if String.eqb (Box.id b) boxId
                          then Box.with_isFull box isFull else b)
         (IndexedDBService.boxes s)) s.
Proof.
  intros H.
  unfold IndexedDBService.updateBoxStatus, IndexedDBService.putToStore.
  prog_simpl. rewrite H. destruct s as [[d|] bs its cur]; reflexivity.
Qed.

End UpdateBoxStatus.

(** C5. On a state that holds a box under [boxId],
    [updateBoxStatus(boxId, true)] followed by
    [updateBoxStatus(boxId, false)] leaves that box unsealed, with its
    [id], [name] and [createdAt] as they were; the collection keeps its
    length, every box with another id stays where and what it was, and
    the items and the pointer are not touched. Both revisions. *)
Theorem C5_updateBoxStatus_pair (boxId : string) (box : Box.t) :
  (forall s w,
      Views.find_box (LocalStorageService.boxes s) boxId = Some box ->
      let s2 :=
        fst (Prog.exec (LocalStorageService.updateBoxStatus boxId false)
               (Prog.exec (LocalStorageService.updateBoxStatus boxId true)
                  (s, w))) in
      (exists box',
          Views.find_box (LocalStorageService.boxes s2) boxId = Some box'
          /\ Box.isFull box' = false
          /\ Box.id box' = Box.id box
          /\ Box.name box' = Box.name box
          /\ Box.createdAt box' = Box.createdAt box)
      /\ length (LocalStorageService.boxes s2)
         = length (LocalStorageService.boxes s)
      /\ (forall i b,
             LocalStorageService.boxes s !! i = Some b ->
             Box.id b <> boxId ->
             LocalStorageService.boxes s2 !! i = Some b)
      /\ LocalStorageService.items s2 = LocalStorageService.items s
      /\ LocalStorageService.currentBoxId s2
         = LocalStorageService.currentBoxId s)
  /\
  (forall s w,
      Views.find_box (IndexedDBService.boxes s) boxId = Some box ->
      let s2 :=
        fst (Prog.exec (IndexedDBService.updateBoxStatus boxId false)
               (Prog.exec (IndexedDBService.updateBoxStatus boxId true)
                  (s, w))) in
      (exists box',
          Views.find_box (IndexedDBService.boxes s2) boxId = Some box'
          /\ Box.isFull box' = false
          /\ Box.id box' = Box.id box
          /\ Box.name box' = Box.name box
          /\ Box.createdAt box' = Box.createdAt box)
      /\ length (IndexedDBService.boxes s2)
         = length (IndexedDBService.boxes s)
      /\ (forall i b,
             IndexedDBService.boxes s !! i = Some b ->
             Box.id b <> boxId ->
             IndexedDBService.boxes s2 !! i = Some b)
      /\ IndexedDBService.items s2 = IndexedDBService.items s
      /\ IndexedDBService.currentBoxId s2 = IndexedDBService.currentBoxId s).
Proof.
  split; intros s w Hbox; cbv zeta.
  - unfold Prog.exec. rewrite !legacy_updateBoxStatus_run. cbn [fst snd].
    simpl. split; [|split; [|split; [|split]]]; try reflexivity.
    + exists (Box.with_isFull (Box.with_isFull box true) false).
      split; [|repeat split].
      apply (find_box_map boxId (fun b => Box.with_isFull b false));
        [auto|].
      apply (find_box_map boxId (fun b => Box.with_isFull b true));
        [auto|assumption].
    + now rewrite !length_map.
    + intros i b Hi Hne.
      apply (lookup_map_other boxId (fun b => Box.with_isFull b false));
        [|assumption].
      now apply (lookup_map_other boxId (fun b => Box.with_isFull b true)).
  - destruct (find_box_Some _ _ _ Hbox) as [_ Hid].
    pose proof (idb_updateBoxStatus_fields boxId true s w box Hbox) as H1.
    destruct (Prog.exec (IndexedDBService.updateBoxStatus boxId true) (s, w))
      as [s1 w1].
    cbn [fst] in H1.
    assert (Hbox1 : Views.find_box (IndexedDBService.boxes s1) boxId
                    = Some (Box.with_isFull box true)).
    { subst s1. simpl.
      apply (find_box_map boxId (fun _ => Box.with_isFull box true) _ box);
        [auto|assumption]. }
    rewrite (idb_updateBoxStatus_fields boxId false s1 w1 _ Hbox1).
    subst s1. simpl.
    split; [|split; [|split; [|split]]]; try reflexivity.
    + exists (Box.with_isFull (Box.with_isFull box true) false).
      split; [|repeat split].
      apply (find_box_map boxId
               (fun _ => Box.with_isFull (Box.with_isFull box true) false)
               _ (Box.with_isFull box true));
        [auto|].
      apply (find_box_map boxId (fun _ => Box.with_isFull box true) _ box);
        [auto|assumption].
    + now rewrite !length_map.
    + intros i b Hi Hne.
      apply (lookup_map_other boxId
               (fun _ => Box.with_isFull (Box.with_isFull box true) false));
        [|assumption].
      now apply (lookup_map_other boxId (fun _ => Box.with_isFull box true)).
Qed.

(** Sealing and reopening [Garage], which stands behind [Attic]. *)
Lemma C5_updateBoxStatus_pair_witness :
  let attic := Box.mk "b-2" "Attic" true 1500 in
  let s := IndexedDBService.mk (Some IndexedDBService.ClutterAI_DB)
             [attic; Samples.garage] [] None in
  let s2 :=
    fst (Prog.exec (IndexedDBService.updateBoxStatus "b-1" false)
           (Prog.exec (IndexedDBService.updateBoxStatus "b-1" true)
              (s, World_empty))) in
  Views.find_box (IndexedDBService.boxes s) "b-1" = Some Samples.garage
  /\ (exists box',
         Views.find_box (IndexedDBService.boxes s2) "b-1" = Some box'
         /\ Box.isFull box' = false
         /\ Box.name box' = "Garage")
  /\ IndexedDBService.boxes s2 !! 0%nat = Some attic.
Proof.
  intros attic s s2.
  destruct (proj2 (C5_updateBoxStatus_pair "b-1" Samples.garage)
              s World_empty eq_refl)
    as ((box' & Hfind & Hfull & _ & Hname & _) & _ & Hothers & _).
  split; [reflexivity|]. split.
  - exists box'. repeat split; assumption.
  - apply Hothers; [reflexivity|]. vm_compute. discriminate.
Defined.

(** ** The derived view [itemsInCurrentBox] *)

Section ItemsInCurrentBox.
Variables (items : list Item.t) (cur : option string).

Local Abbreviation selected :=
  (List.filter (fun i => JS.strict_eq (Item.boxId i) cur) items).

Lemma strict_eq_true s o : JS.strict_eq s o = true <-> o = Some s.
Proof.
  destruct o as [t|]; simpl.
  - rewrite String.eqb_eq. split; [now intros ->|now intros [= ->]].
  - split; discriminate.
Qed.

Lemma view_Permutation :
  Permutation (Views.itemsInCurrentBox items cur) selected.
Proof. apply Array_sort_Permutation. Qed.

Lemma view_elem_of i :
  i ∈ Views.itemsInCurrentBox items cur
  <-> i ∈ items /\ cur = Some (Item.boxId i).
Proof.
  rewrite view_Permutation, !list_elem_of_In, List.filter_In.
  now rewrite strict_eq_true.
Qed.

Lemma view_newest_first :
  newest_first Item.timestamp (Views.itemsInCurrentBox items cur).
Proof. apply (Array_sort_newest_first Item.timestamp). Qed.

Lemma view_empty :
  (forall i, i ∈ items -> cur <> Some (Item.boxId i)) ->
  Views.itemsInCurrentBox items cur = [].
Proof.
  intros H.
  destruct (Views.itemsInCurrentBox items cur) as [|i l] eqn:E;
    [reflexivity|].
  exfalso.
  assert (Hi : i ∈ Views.itemsInCurrentBox items cur)
    by (rewrite E; left).
  apply view_elem_of in Hi as [Hin Hcur]. now apply (H i).
Qed.

End ItemsInCurrentBox.

(** C3, as the code has it. [itemsInCurrentBox] holds exactly the items
    whose [boxId] equals the pointer, each as often as the collection
    has it, newest first by [timestamp]. It is empty when the pointer
    is null and when no item has the pointer as its [boxId]; so also
    under a pointer that names no box, as long as every item names a
    box of the collection. Both revisions compute it the same way. *)
Theorem C3_itemsInCurrentBox (boxes : list Box.t) (items : list Item.t)
    (cur : option string) :
  let view := Views.itemsInCurrentBox items cur in
  (forall s, LocalStorageService.boxes s = boxes ->
             LocalStorageService.items s = items ->
             LocalStorageService.currentBoxId s = cur ->
             LocalStorageService.itemsInCurrentBox s = view)
  /\ (forall s, IndexedDBService.boxes s = boxes ->
                IndexedDBService.items s = items ->
                IndexedDBService.currentBoxId s = cur ->
                IndexedDBService.itemsInCurrentBox s = view)
  /\ Permutation view
       (List.filter (fun i => JS.strict_eq (Item.boxId i) cur) items)
  /\ (forall i, i ∈ view <-> i ∈ items /\ cur = Some (Item.boxId i))
  /\ newest_first Item.timestamp view
  /\ (cur = None -> view = [])
  /\ (forall B, cur = Some B ->
                (forall i, i ∈ items -> Item.boxId i <> B) -> view = [])
  /\ (forall B, cur = Some B ->
                Views.currentBox boxes cur = None ->
                (forall i, i ∈ items ->
                           exists b, b ∈ boxes /\ Box.id b = Item.boxId i) ->
                view = []).
Proof.
  cbv zeta. repeat apply conj.
  - intros s _ <- <-. reflexivity.
  - intros s _ <- <-. reflexivity.
  - apply view_Permutation.
  - apply view_elem_of.
  - apply view_newest_first.
  - intros ->. apply view_empty. discriminate.
  - intros B -> H. apply view_empty. intros i Hi [= ->]. now apply (H i).
  - intros B -> Hdangling Href. apply view_empty. intros i Hi [= ->].
    destruct (Href i Hi) as (b & Hb & Hid).
    unfold Views.currentBox in Hdangling.
    apply list_elem_of_In in Hb.
    apply (List.find_none _ _ Hdangling) in Hb. simpl in Hb.
    apply String.eqb_neq in Hb. contradiction.
Qed.

(** The drill in the garage, the pointer on the garage, on the attic
    (which is empty), on nothing, and on a box that does not exist. *)
Lemma C3_itemsInCurrentBox_witness :
  let boxes := [Box.mk "b-2" "Attic" false 1500; Samples.garage] in
  let items := [Samples.drill] in
  Views.itemsInCurrentBox items (Some "b-1") = [Samples.drill]
  /\ Views.itemsInCurrentBox items (Some "b-2") = []
  /\ Views.itemsInCurrentBox items None = []
  /\ Views.itemsInCurrentBox items (Some "ghost") = [].
Proof.
  intros boxes items. split; [reflexivity|]. split; [|split].
  - destruct (C3_itemsInCurrentBox boxes items (Some "b-2"))
      as (_ & _ & _ & _ & _ & _ & H & _).
    apply (H "b-2" eq_refl). intros i Hi.
    apply list_elem_of_singleton in Hi. subst i. vm_compute. discriminate.
  - destruct (C3_itemsInCurrentBox boxes items None)
      as (_ & _ & _ & _ & _ & H & _).
    apply H. reflexivity.
  - destruct (C3_itemsInCurrentBox boxes items (Some "ghost"))
      as (_ & _ & _ & _ & _ & _ & _ & H).
    apply (H "ghost" eq_refl); [reflexivity|]. intros i Hi.
    apply list_elem_of_singleton in Hi. subst i.
    exists Samples.garage. split; [|reflexivity].
    apply list_elem_of_further, list_elem_of_here.
Defined.

(** C3 as stated fails under a dangling pointer. In the blob-keyed
    revision, after [updateItem(i-1, { boxId: 'ghost' })] and
    [selectBox('ghost')] no box is selected, and the view holds the
    drill. In the transactional revision, after a start-up that migrated
    the drill but not its box, [selectBox('b-1')] selects no box, and
    the view holds the drill. *)
Lemma C3_dangling_pointer_counterexample :
  (LocalStorageService.currentBoxId Samples.ghost_state = Some "ghost"
   /\ LocalStorageService.currentBox Samples.ghost_state = None
   /\ Views.find_box (LocalStorageService.boxes Samples.ghost_state) "ghost"
      = None
   /\ LocalStorageService.itemsInCurrentBox Samples.ghost_state
      = [Item.mk "i-1" "ghost" "Garage" EmptyString "Drill" EmptyString []
           2000]
   /\ LocalStorageService.itemsInCurrentBox Samples.ghost_state <> [])
  /\
  (IndexedDBService.currentBoxId Samples.orphan_state = Some "b-1"
   /\ IndexedDBService.boxes Samples.orphan_state = []
   /\ IndexedDBService.currentBox Samples.orphan_state = None
   /\ IndexedDBService.itemsInCurrentBox Samples.orphan_state
      = [Samples.drill]
   /\ IndexedDBService.itemsInCurrentBox Samples.orphan_state <> []).
Proof.
  split.
  - repeat split; try reflexivity. vm_compute. discriminate.
  - assert (H : Samples.orphan_state
                = IndexedDBService.mk (Some IndexedDBService.ClutterAI_DB)
                    [] [Samples.drill] (Some "b-1"))
      by (vm_compute; reflexivity).
    rewrite H. repeat split; try reflexivity. vm_compute. discriminate.
Qed.

(** ** Migration *)

Lemma with_objectStore_same n w : with_objectStore n w (objectStore n w) = w.
Proof. destruct n, w; reflexivity. Qed.

Lemma objectStore_with n w m : objectStore n (with_objectStore n w m) = m.
Proof. destruct n; reflexivity. Qed.

Lemma with_objectStore_twice n w m m' :
  with_objectStore n (with_objectStore n w m) m' = with_objectStore n w m'.
Proof. destruct n; reflexivity. Qed.

Section MigrationLoop.
Variable n : StoreName.

Local Abbreviation body :=
  (fun v : JSON.value =>
     match IndexedDBService.record_of_json n v with
     | Some r => IndexedDBService.putToStore n r
     | None => Prog.throw DataError
     end).

Lemma for_of_put_run vs : forall s w,
  Prog.for_of vs body (s, w)
  = (match snd (put_loop n (is_open s) vs) with
     | None => Returned tt
     | Some e => Threw e
     end,
     (s, with_objectStore n w
           (put_all n (fst (put_loop n (is_open s) vs)) (objectStore n w)))).
Proof.
  induction vs as [|v vs IH]; intros s w; simpl.
  - unfold Prog.ret, put_all. simpl. now rewrite with_objectStore_same.
  - unfold Prog.bind.
    destruct (IndexedDBService.record_of_json n v) as [r|]; simpl.
    + unfold IndexedDBService.putToStore, is_open in *. prog_simpl.
      destruct (IndexedDBService.db s) as [d|] eqn:Hdb; simpl.
      * rewrite IH. rewrite Hdb.
        destruct (put_loop n true vs) as [rs e]. simpl.
        now rewrite objectStore_with, with_objectStore_twice.
      * unfold put_all. simpl. now rewrite with_objectStore_same.
    + unfold Prog.throw, put_all. simpl. now rewrite with_objectStore_same.
Qed.

Lemma migrate_blob_run key error_msg json s w :
  IndexedDBService.migrate_blob key n error_msg json (s, w)
  = (Returned tt, (s, blob_migrated key n error_msg (is_open s) json w)).
Proof.
  unfold IndexedDBService.migrate_blob, blob_migrated, migration_attempt.
  unfold Prog.when. destruct (JS.truthy json); [|reflexivity].
  unfold Prog.try_catch, JSON_parse_as, mbind, Prog_bind, Prog.bind.
  destruct (JSON.parse (default EmptyString json)) as [v|]; simpl.
  - destruct (Codec.as_array v) as [vs|]; simpl.
    + unfold mret, Prog_ret, Prog.ret. rewrite for_of_put_run.
      destruct (put_loop n (is_open s) vs) as [rs [e|]]; reflexivity.
    + unfold put_all. simpl. now rewrite with_objectStore_same.
  - unfold put_all. simpl. now rewrite with_objectStore_same.
Qed.

End MigrationLoop.

Lemma migrate_run s w :
  IndexedDBService.migrateFromLocalStorage (s, w)
  = (Returned tt,
     (s,
      let boxesJson := localStorage w !! "clutter_boxes" in
      let itemsJson := localStorage w !! "clutter_items" in
      if negb (JS.truthy boxesJson) && negb (JS.truthy itemsJson) then w
      else
        blob_migrated "clutter_items" Store_items "Error migrating items"
          (is_open s) itemsJson
          (blob_migrated "clutter_boxes" Store_boxes "Error migrating boxes"
             (is_open s) boxesJson
             (with_console w
                (console w ++
                 [console_log
                    "Migrating data from LocalStorage to IndexedDB..."]))))).
Proof.
  unfold IndexedDBService.migrateFromLocalStorage.
  unfold localStorage_getItem, console_write, mbind, Prog_bind, Prog.bind,
    Prog.get_world, Prog.update_world, mret, Prog_ret, Prog.ret.
  cbn [fst snd].
  destruct (negb (JS.truthy (localStorage w !! "clutter_boxes"))
            && negb (JS.truthy (localStorage w !! "clutter_items")));
    [reflexivity|].
  rewrite migrate_blob_run. now rewrite migrate_blob_run.
Qed.

(** *** Putting the same records again *)

Section PutAll.
Variable n : StoreName.

Lemma put_all_union rs : forall m,
  put_all n rs m
  = list_to_map (reverse ((fun r => (keyPath_id n r, r)) <$> rs)) ∪ m.
Proof.
  unfold put_all.
  induction rs as [|r rs IH]; intros m; simpl.
  - now rewrite (left_id_L ∅ (∪)).
  - rewrite IH, reverse_cons, list_to_map_app. simpl.
    rewrite <- (assoc_L (∪)). f_equal.
    rewrite insert_empty. now rewrite <- insert_union_singleton_l.
Qed.

Lemma put_all_idempotent rs m :
  put_all n rs (put_all n rs m) = put_all n rs m.
Proof.
  rewrite !put_all_union.
  now rewrite (assoc_L (∪)), (idemp_L (∪)).
Qed.

Lemma put_all_empty_elements (rs : list (StoreValue n)) :
  NoDup (keyPath_id n <$> rs) ->
  IDBObjectStore_getAll (put_all n rs ∅) ≡ₚ rs.
Proof.
  intros Hnd. unfold IDBObjectStore_getAll.
  rewrite Array_sort_Permutation.
  rewrite put_all_union, (right_id_L ∅ (∪)).
  rewrite map_to_list_to_map.
  - rewrite fmap_reverse, reverse_Permutation, <- list_fmap_compose.
    simpl. now rewrite list_fmap_id.
  - rewrite fmap_reverse, <- list_fmap_compose. simpl.
    now rewrite reverse_Permutation.
Qed.

Lemma put_loop_mapM vs rs :
  mapM (IndexedDBService.record_of_json n) vs = Some rs ->
  put_loop n true vs = (rs, None).
Proof.
  revert rs. induction vs as [|v vs IH]; intros rs; simpl.
  - now intros [= <-].
  - destruct (IndexedDBService.record_of_json n v) as [r|]; simpl;
      [|discriminate].
    destruct (mapM (IndexedDBService.record_of_json n) vs) as [rs'|]; simpl;
      [|discriminate].
    intros [= <-]. now rewrite (IH rs' eq_refl).
Qed.

Lemma migration_attempt_records json rs :
  blob_of_records n json rs ->
  migration_attempt n true json = (rs, None).
Proof.
  intros (vs & Hparse & Hcast). unfold migration_attempt.
  rewrite Hparse. simpl. now apply put_loop_mapM.
Qed.

Lemma migration_attempt_malformed db_open json :
  JSON.parse json = None ->
  migration_attempt n db_open json = ([], Some SyntaxError).
Proof. unfold migration_attempt. now intros ->. Qed.

End PutAll.

Lemma truthy_nonempty json :
  json <> EmptyString -> JS.truthy (Some json) = true.
Proof.
  intros H. simpl. now destruct (String.eqb_spec json EmptyString).
Qed.

Lemma blob_of_records_nonempty n json rs :
  blob_of_records n json rs -> json <> EmptyString.
Proof. intros (vs & Hparse & _) ->. discriminate. Qed.

Lemma blob_migrated_records key n error_msg json rs w :
  blob_of_records n json rs ->
  blob_migrated key n error_msg true (Some json) w
  = let w1 := with_objectStore n w (put_all n rs (objectStore n w)) in
    with_localStorage w1 (delete key (localStorage w1)).
Proof.
  intros H. unfold blob_migrated.
  rewrite (truthy_nonempty _ (blob_of_records_nonempty _ _ _ H)).
  simpl. now rewrite (migration_attempt_records _ _ _ H).
Qed.

Lemma blob_migrated_malformed key n error_msg db_open json w :
  json <> EmptyString -> JSON.parse json = None ->
  blob_migrated key n error_msg db_open (Some json) w
  = with_console w (console w ++ [console_error error_msg (Some SyntaxError)]).
Proof.
  intros Hne Hparse. unfold blob_migrated.
  rewrite (truthy_nonempty _ Hne). simpl.
  rewrite (migration_attempt_malformed _ _ _ Hparse).
  unfold put_all. simpl. now rewrite with_objectStore_same.
Qed.

(** C8. During migration, with the database open: when the text of one
    blob is there and [JSON.parse] throws on it, that collection is
    given up (its store is as before), the error is logged and the blob
    stays; the other collection, whose blob holds records, is written
    record by record into its store and its blob is deleted. Either
    way round. *)
Theorem C8_migration_malformed_blob (s : IndexedDBService.t) (w : World)
    (Hopen : is_open s = true) :
  let run := IndexedDBService.migrateFromLocalStorage (s, w) in
  let w' := snd (snd run) in
  (forall boxesJson itemsJson (items : list Item.t),
      localStorage w !! "clutter_boxes" = Some boxesJson ->
      boxesJson <> EmptyString ->
      JSON.parse boxesJson = None ->
      localStorage w !! "clutter_items" = Some itemsJson ->
      blob_of_records Store_items itemsJson items ->
      fst run = Returned tt
      /\ fst (snd run) = s
      /\ store_boxes w' = store_boxes w
      /\ localStorage w' !! "clutter_boxes" = Some boxesJson
      /\ console w'
         = console w ++
           [console_log "Migrating data from LocalStorage to IndexedDB...";
            console_error "Error migrating boxes" (Some SyntaxError)]
      /\ store_items w' = put_all Store_items items (store_items w)
      /\ localStorage w' !! "clutter_items" = None)
  /\
  (forall boxesJson itemsJson (boxes : list Box.t),
      localStorage w !! "clutter_items" = Some itemsJson ->
      itemsJson <> EmptyString ->
      JSON.parse itemsJson = None ->
      localStorage w !! "clutter_boxes" = Some boxesJson ->
      blob_of_records Store_boxes boxesJson boxes ->
      fst run = Returned tt
      /\ fst (snd run) = s
      /\ store_items w' = store_items w
      /\ localStorage w' !! "clutter_items" = Some itemsJson
      /\ console w'
         = console w ++
           [console_log "Migrating data from LocalStorage to IndexedDB...";
            console_error "Error migrating items" (Some SyntaxError)]
      /\ store_boxes w' = put_all Store_boxes boxes (store_boxes w)
      /\ localStorage w' !! "clutter_boxes" = None).
Proof.
  cbv zeta. rewrite migrate_run, Hopen. cbn [fst snd].
  split.
  - intros boxesJson itemsJson items Hb Hne Hparse Hi Hrecords.
    rewrite Hb, Hi, (truthy_nonempty _ Hne). cbn [negb andb].
    rewrite (blob_migrated_malformed _ _ _ _ _ _ Hne Hparse).
    rewrite (blob_migrated_records _ _ _ _ _ _ Hrecords).
    simpl. repeat split.
    + now rewrite lookup_delete_ne.
    + now rewrite <- app_assoc.
    + now rewrite lookup_delete_eq.
  - intros boxesJson itemsJson boxes Hi Hne Hparse Hb Hrecords.
    rewrite Hb, Hi,
      (truthy_nonempty _ (blob_of_records_nonempty _ _ _ Hrecords)).
    cbn [negb andb].
    rewrite (blob_migrated_records _ _ _ _ _ _ Hrecords).
    rewrite (blob_migrated_malformed _ _ _ _ _ _ Hne Hparse).
    simpl. repeat split.
    + now rewrite lookup_delete_ne.
    + now rewrite <- app_assoc.
    + now rewrite lookup_delete_eq.
Qed.

(** Start-up over a boxes blob that is no JSON and an items blob that
    holds the drill. *)
Lemma C8_migration_malformed_blob_witness :
  let w := Samples.corrupt_boxes_world in
  let run := IndexedDBService.migrateFromLocalStorage (opened, w) in
  let w' := snd (snd run) in
  is_open opened = true
  /\ JSON.parse "{oops" = None
  /\ store_boxes w' = store_boxes w
  /\ localStorage w' !! "clutter_boxes" = Some "{oops"
  /\ console w'
     = console w ++
       [console_log "Migrating data from LocalStorage to IndexedDB...";
        console_error "Error migrating boxes" (Some SyntaxError)]
  /\ store_items w' = put_all Store_items [Samples.drill] (store_items w)
  /\ localStorage w' !! "clutter_items" = None.
Proof.
  intros w run w'.
  assert (Hne : "{oops" <> EmptyString) by discriminate.
  assert (Hrecords : blob_of_records Store_items
                       (Codec.stringify_items [Samples.drill])
                       [Samples.drill]).
  { eexists. split; vm_compute; reflexivity. }
  destruct (proj1 (C8_migration_malformed_blob opened w eq_refl)
              "{oops" (Codec.stringify_items [Samples.drill])
              [Samples.drill] eq_refl Hne eq_refl eq_refl Hrecords)
    as (_ & _ & H1 & H2 & H3 & H4 & H5).
  repeat split; assumption.
Defined.

(** *** Running the migration again *)

Section BlobMigrated.
Variables (key : string) (n : StoreName) (error_msg : string)
  (db_open : bool) (json : option string) (w : World).

Lemma blob_migrated_objectStore :
  objectStore n (blob_migrated key n error_msg db_open json w)
  = put_all n (migrated_records n db_open json) (objectStore n w).
Proof.
  unfold blob_migrated, migrated_records.
  destruct (JS.truthy json); [|reflexivity].
  destruct (migration_attempt n db_open (default EmptyString json))
    as [rs [e|]]; destruct n; reflexivity.
Qed.

Lemma blob_migrated_localStorage :
  localStorage (blob_migrated key n error_msg db_open json w)
  = if blob_removed n db_open json then delete key (localStorage w)
    else localStorage w.
Proof.
  unfold blob_migrated, blob_removed.
  destruct (JS.truthy json); [|reflexivity].
  destruct (migration_attempt n db_open (default EmptyString json))
    as [rs [e|]]; destruct n; reflexivity.
Qed.

(** A second look at the blob finds it deleted, or as it was and
    failing as before. *)
Lemma blob_removed_again :
  blob_removed n db_open
    (if blob_removed n db_open json then None else json) = false.
Proof.
  destruct (blob_removed n db_open json) eqn:E; [reflexivity|exact E].
Qed.

Lemma migrated_records_again m :
  put_all n
    (migrated_records n db_open
       (if blob_removed n db_open json then None else json))
    (put_all n (migrated_records n db_open json) m)
  = put_all n (migrated_records n db_open json) m.
Proof.
  destruct (blob_removed n db_open json); [reflexivity|].
  apply put_all_idempotent.
Qed.

End BlobMigrated.

Lemma blob_migrated_boxes_store_items key error_msg db_open json w :
  store_items (blob_migrated key Store_boxes error_msg db_open json w)
  = store_items w.
Proof.
  unfold blob_migrated. destruct (JS.truthy json); [|reflexivity].
  destruct (migration_attempt Store_boxes db_open (default EmptyString json))
    as [rs [e|]]; reflexivity.
Qed.

Lemma blob_migrated_items_store_boxes key error_msg db_open json w :
  store_boxes (blob_migrated key Store_items error_msg db_open json w)
  = store_boxes w.
Proof.
  unfold blob_migrated. destruct (JS.truthy json); [|reflexivity].
  destruct (migration_attempt Store_items db_open (default EmptyString json))
    as [rs [e|]]; reflexivity.
Qed.

(** The stores and the blobs after the two blocks, from those before. *)
Lemma both_migrated_durable db_open msg_b msg_i w0 w :
  localStorage w0 = localStorage w ->
  store_boxes w0 = store_boxes w ->
  store_items w0 = store_items w ->
  let boxesJson := localStorage w !! "clutter_boxes" in
  let itemsJson := localStorage w !! "clutter_items" in
  let w' := blob_migrated "clutter_items" Store_items msg_i db_open itemsJson
              (blob_migrated "clutter_boxes" Store_boxes msg_b db_open
                 boxesJson w0) in
  localStorage w'
  = delete_if (blob_removed Store_items db_open itemsJson) "clutter_items"
      (delete_if (blob_removed Store_boxes db_open boxesJson) "clutter_boxes"
         (localStorage w))
  /\ store_boxes w'
     = put_all Store_boxes (migrated_records Store_boxes db_open boxesJson)
         (store_boxes w)
  /\ store_items w'
     = put_all Store_items (migrated_records Store_items db_open itemsJson)
         (store_items w).
Proof.
  intros Hls Hsb Hsi. cbv zeta. split; [|split].
  - rewrite !blob_migrated_localStorage, Hls.
    destruct (blob_removed Store_items db_open _),
      (blob_removed Store_boxes db_open _); reflexivity.
  - rewrite blob_migrated_items_store_boxes.
    rewrite (blob_migrated_objectStore _ Store_boxes). simpl. now rewrite Hsb.
  - rewrite (blob_migrated_objectStore _ Store_items). simpl.
    now rewrite blob_migrated_boxes_store_items, Hsi.
Qed.

Lemma lookup_after_removal (ls : gmap string string) rb ri :
  let ls' := delete_if ri "clutter_items" (delete_if rb "clutter_boxes" ls) in
  ls' !! "clutter_boxes" = (if rb then None else ls !! "clutter_boxes")
  /\ ls' !! "clutter_items" = (if ri then None else ls !! "clutter_items").
Proof.
  destruct rb, ri; simpl;
    rewrite ?lookup_delete_eq, ?lookup_delete_ne, ?lookup_delete_eq by done;
    auto.
Qed.

Lemma migrate_twice_durable s w :
  let w1 := snd (Prog.exec IndexedDBService.migrateFromLocalStorage (s, w)) in
  let w2 := snd (Prog.exec IndexedDBService.migrateFromLocalStorage (s, w1)) in
  localStorage w2 = localStorage w1
  /\ store_boxes w2 = store_boxes w1
  /\ store_items w2 = store_items w1.
Proof.
  cbv zeta. unfold Prog.exec. rewrite (migrate_run s w). cbn [fst snd].
  set (o := is_open s).
  set (jb := localStorage w !! "clutter_boxes").
  set (ji := localStorage w !! "clutter_items").
  destruct (negb (JS.truthy jb) && negb (JS.truthy ji)) eqn:Habsent.
  { cbv zeta. rewrite migrate_run. cbn [fst snd]. fold jb ji.
    rewrite Habsent. auto. }
  cbv zeta.
  match goal with
  | |- context [IndexedDBService.migrateFromLocalStorage (s, ?x)] =>
      set (w1 := x)
  end.
  destruct (both_migrated_durable o "Error migrating boxes"
              "Error migrating items"
              (with_console w
                 (console w ++
                  [console_log
                     "Migrating data from LocalStorage to IndexedDB..."]))
              w eq_refl eq_refl eq_refl) as (Hls & Hsb & Hsi).
  fold jb ji w1 in Hls, Hsb, Hsi.
  destruct (lookup_after_removal (localStorage w)
              (blob_removed Store_boxes o jb) (blob_removed Store_items o ji))
    as [Hjb Hji].
  rewrite <- Hls in Hjb, Hji. fold jb in Hjb. fold ji in Hji.
  rewrite (migrate_run s w1). cbn [fst snd]. rewrite Hjb, Hji. fold o.
  match goal with
  | |- context [if ?c then w1 else _] => destruct c; [auto|]
  end.
  destruct (both_migrated_durable o "Error migrating boxes"
              "Error migrating items"
              (with_console w1
                 (console w1 ++
                  [console_log
                     "Migrating data from LocalStorage to IndexedDB..."]))
              w1 eq_refl eq_refl eq_refl) as (Hls' & Hsb' & Hsi').
  rewrite Hjb, Hji in Hls', Hsb', Hsi'.
  rewrite Hls', Hsb', Hsi', Hsb, Hsi.
  rewrite !blob_removed_again, !migrated_records_again. auto.
Qed.

Lemma migrate_twice s w :
  exists w1 w2,
    IndexedDBService.migrateFromLocalStorage (s, w) = (Returned tt, (s, w1))
    /\ IndexedDBService.migrateFromLocalStorage (s, w1)
       = (Returned tt, (s, w2))
    /\ localStorage w2 = localStorage w1
    /\ store_boxes w2 = store_boxes w1
    /\ store_items w2 = store_items w1.
Proof.
  pose proof (migrate_twice_durable s w) as H. cbv zeta in H.
  unfold Prog.exec in H.
  destruct (IndexedDBService.migrateFromLocalStorage (s, w))
    as [r1 [s1 w1]] eqn:E1.
  rewrite migrate_run in E1. injection E1 as <- <- E1.
  cbn [fst snd] in H.
  destruct (IndexedDBService.migrateFromLocalStorage (s, w1))
    as [r2 [s2 w2]] eqn:E2.
  rewrite migrate_run in E2. injection E2 as <- <- E2.
  cbn [fst snd] in H.
  exists w1, w2. split; [reflexivity|]. split; [|exact H].
  rewrite migrate_run. cbv zeta. now rewrite E2.
Qed.

(** C7. The migration step. Without the two blobs it does nothing at
    all. When the database is open and both blobs hold records, it puts
    every record into its store and deletes the two blobs (and only
    these), and a second run is then the no-op of the first sentence.
    Whatever the first run met, a second run right after it leaves the
    two stores, the blobs and the fields of the service as the first
    run left them. *)
Theorem C7_migration_idempotent (s : IndexedDBService.t) (w : World) :
  let st1 := Prog.exec IndexedDBService.migrateFromLocalStorage (s, w) in
  let st2 := Prog.exec IndexedDBService.migrateFromLocalStorage st1 in
  (localStorage w !! "clutter_boxes" = None ->
   localStorage w !! "clutter_items" = None ->
   IndexedDBService.migrateFromLocalStorage (s, w) = (Returned tt, (s, w)))
  /\ (forall boxesJson itemsJson boxes items,
         is_open s = true ->
         localStorage w !! "clutter_boxes" = Some boxesJson ->
         localStorage w !! "clutter_items" = Some itemsJson ->
         blob_of_records Store_boxes boxesJson boxes ->
         blob_of_records Store_items itemsJson items ->
         localStorage (snd st1)
         = delete "clutter_items" (delete "clutter_boxes" (localStorage w))
         /\ store_boxes (snd st1) = put_all Store_boxes boxes (store_boxes w)
         /\ store_items (snd st1) = put_all Store_items items (store_items w)
         /\ IndexedDBService.migrateFromLocalStorage st1 = (Returned tt, st1))
  /\ (fst st2 = fst st1
      /\ localStorage (snd st2) = localStorage (snd st1)
      /\ store_boxes (snd st2) = store_boxes (snd st1)
      /\ store_items (snd st2) = store_items (snd st1)).
Proof.
  cbv zeta. split; [|split].
  - intros Hb Hi. rewrite migrate_run, Hb, Hi. reflexivity.
  - intros boxesJson itemsJson boxes items Hopen Hb Hi Hboxes Hitems.
    unfold Prog.exec. rewrite migrate_run, Hopen, Hb, Hi. cbn [fst snd].
    rewrite (truthy_nonempty _ (blob_of_records_nonempty _ _ _ Hboxes)).
    cbn [negb andb].
    rewrite (blob_migrated_records _ _ _ _ _ _ Hboxes).
    rewrite (blob_migrated_records _ _ _ _ _ _ Hitems).
    cbn [localStorage store_boxes store_items console with_objectStore
           with_localStorage with_console objectStore].
    repeat split.
    rewrite migrate_run.
    cbn [localStorage store_boxes store_items console with_objectStore
           with_localStorage with_console objectStore].
    rewrite lookup_delete_eq, lookup_delete_ne, lookup_delete_eq by done.
    reflexivity.
  - destruct (migrate_twice s w) as (w1 & w2 & E1 & E2 & H).
    unfold Prog.exec. rewrite E1. cbn [fst snd]. rewrite E2. cbn [fst snd].
    split; [reflexivity|exact H].
Qed.

(** Start-up over the blobs of the garage and the drill, twice. *)
Lemma C7_migration_idempotent_witness :
  let w := Samples.saved_world in
  let st1 := Prog.exec IndexedDBService.migrateFromLocalStorage (opened, w) in
  let st2 := Prog.exec IndexedDBService.migrateFromLocalStorage st1 in
  IndexedDBService.migrateFromLocalStorage (opened, World_empty)
  = (Returned tt, (opened, World_empty))
  /\ localStorage (snd st1)
     = delete "clutter_items" (delete "clutter_boxes" (localStorage w))
  /\ store_boxes (snd st1) = put_all Store_boxes [Samples.garage] ∅
  /\ store_items (snd st1) = put_all Store_items [Samples.drill] ∅
  /\ store_boxes (snd st2) = store_boxes (snd st1)
  /\ store_items (snd st2) = store_items (snd st1).
Proof.
  intros w st1 st2.
  assert (Hb : blob_of_records Store_boxes
                 (Codec.stringify_boxes [Samples.garage]) [Samples.garage]).
  { eexists. split; vm_compute; reflexivity. }
  assert (Hi : blob_of_records Store_items
                 (Codec.stringify_items [Samples.drill]) [Samples.drill]).
  { eexists. split; vm_compute; reflexivity. }
  destruct (C7_migration_idempotent opened World_empty) as (Habsent & _ & _).
  destruct (C7_migration_idempotent opened w) as (_ & Hok & _ & _ & H5 & H6).
  destruct (Hok _ _ _ _ eq_refl eq_refl eq_refl Hb Hi) as (H1 & H2 & H3 & _).
  split; [apply Habsent; reflexivity|].
  split; [exact H1|]. split; [exact H2|]. split; [exact H3|].
  split; [exact H5|exact H6].
Defined.

(** ** Load *)

Lemma legacy_load_boxes_malformed s w json :
  localStorage w !! "clutter_boxes" = Some json ->
  json <> EmptyString -> JSON.parse json = None ->
  LocalStorageService.loadFromStorage (s, w) = (Threw SyntaxError, (s, w)).
Proof.
  intros Hb Hne Hparse.
  unfold LocalStorageService.loadFromStorage,
    LocalStorageService.STORAGE_KEY_BOXES, JSON_parse_as.
  prog_simpl. rewrite Hb, (truthy_nonempty _ Hne). simpl.
  now rewrite Hparse.
Qed.

Lemma legacy_load_items_malformed s w json :
  localStorage w !! "clutter_items" = Some json ->
  json <> EmptyString -> JSON.parse json = None ->
  (JS.truthy (localStorage w !! "clutter_boxes") = false ->
   LocalStorageService.loadFromStorage (s, w) = (Threw SyntaxError, (s, w)))
  /\ (forall boxesJson boxes,
         localStorage w !! "clutter_boxes" = Some boxesJson ->
         blob_of_records Store_boxes boxesJson boxes ->
         LocalStorageService.loadFromStorage (s, w)
         = (Threw SyntaxError, (LocalStorageService.set_boxes boxes s, w))).
Proof.
  intros Hi Hne Hparse.
  unfold LocalStorageService.loadFromStorage,
    LocalStorageService.STORAGE_KEY_BOXES,
    LocalStorageService.STORAGE_KEY_ITEMS, JSON_parse_as.
  prog_simpl. rewrite Hi, (truthy_nonempty _ Hne). split.
  - intros ->. simpl. now rewrite Hparse.
  - intros boxesJson boxes Hb Hrecords. rewrite Hb.
    rewrite (truthy_nonempty _ (blob_of_records_nonempty _ _ _ Hrecords)).
    destruct Hrecords as (vs & Hp & Hcast). simpl in *.
    rewrite Hp. simpl. rewrite Hcast. simpl. now rewrite Hparse.
Qed.

Lemma loadData_run s w :
  IndexedDBService.loadData (s, w)
  = (Returned tt,
     (match IndexedDBService.db s with
      | None => s
      | Some _ =>
          IndexedDBService.set_items
            (JS.Array_sort (descending Item.timestamp)
               (IDBObjectStore_getAll (store_items w)))
            (IndexedDBService.set_boxes
               (JS.Array_sort (descending Box.createdAt)
                  (IDBObjectStore_getAll (store_boxes w))) s)
      end, w)).
Proof.
  unfold IndexedDBService.loadData, IndexedDBService.getAllFromStore.
  prog_simpl. destruct s as [[d|] bs its cur]; reflexivity.
Qed.

(** C9, as the code has it. The load of the blob-keyed revision does
    not catch a failure of [JSON.parse]: on a blob that is there and is
    no JSON, [loadFromStorage] throws the [SyntaxError] and logs
    nothing. Under [clutter_boxes] the failure leaves both collections
    as they were and keeps the items blob from being read; under
    [clutter_items] it leaves the items as they were and the boxes as
    the load has just set them. The load of the transactional revision
    parses no JSON: it returns, with the records of the two stores. *)
Theorem C9_load_malformed_blob (s : LocalStorageService.t) (w : World)
    (json : string)
    (Hne : json <> EmptyString) (Hparse : JSON.parse json = None) :
  (localStorage w !! "clutter_boxes" = Some json ->
   LocalStorageService.loadFromStorage (s, w) = (Threw SyntaxError, (s, w)))
  /\ (localStorage w !! "clutter_items" = Some json ->
      JS.truthy (localStorage w !! "clutter_boxes") = false ->
      LocalStorageService.loadFromStorage (s, w)
      = (Threw SyntaxError, (s, w)))
  /\ (localStorage w !! "clutter_items" = Some json ->
      forall boxesJson boxes,
        localStorage w !! "clutter_boxes" = Some boxesJson ->
        blob_of_records Store_boxes boxesJson boxes ->
        LocalStorageService.loadFromStorage (s, w)
        = (Threw SyntaxError, (LocalStorageService.set_boxes boxes s, w)))
  /\ (forall s',
         IndexedDBService.loadData (s', w)
         = (Returned tt,
            (match IndexedDBService.db s' with
             | None => s'
             | Some _ =>
                 IndexedDBService.set_items
                   (JS.Array_sort (descending Item.timestamp)
                      (IDBObjectStore_getAll (store_items w)))
                   (IndexedDBService.set_boxes
                      (JS.Array_sort (descending Box.createdAt)
                         (IDBObjectStore_getAll (store_boxes w))) s')
             end, w))).
Proof.
  split; [|split; [|split]].
  - intros Hb. now apply legacy_load_boxes_malformed with json.
  - intros Hi Hb.
    now apply (proj1 (legacy_load_items_malformed s w json Hi Hne Hparse)).
  - intros Hi boxesJson boxes Hb Hrecords.
    now apply (proj2 (legacy_load_items_malformed s w json Hi Hne Hparse)
                 boxesJson boxes).
  - intros s'. apply loadData_run.
Qed.

(** The constructor of the blob-keyed service on a [localStorage] whose
    boxes blob is no JSON. *)
Lemma C9_load_malformed_blob_witness :
  JSON.parse "{oops" = None
  /\ LocalStorageService.loadFromStorage
       (LocalStorageService.initial, Samples.corrupt_boxes_world)
     = (Threw SyntaxError,
        (LocalStorageService.initial, Samples.corrupt_boxes_world)).
Proof.
  split; [reflexivity|].
  assert (Hne : "{oops" <> EmptyString) by discriminate.
  apply (proj1 (C9_load_malformed_blob LocalStorageService.initial
                  Samples.corrupt_boxes_world "{oops" Hne eq_refl)).
  reflexivity.
Defined.

(** C9 as stated fails: with a boxes blob that is no JSON next to an
    items blob that holds the drill, the constructor of the blob-keyed
    service throws, logs nothing and leaves the items empty, although
    the same items blob alone is loaded; and with an items blob that is
    no JSON it throws too. *)
Lemma C9_load_throws_counterexample :
  JSON.parse "{oops" = None
  /\ localStorage Samples.corrupt_boxes_world !! "clutter_boxes"
     = Some "{oops"
  /\ (let run := LocalStorageService.constructor
                   (LocalStorageService.initial, Samples.corrupt_boxes_world)
      in
      fst run = Threw SyntaxError
      /\ console (snd (snd run)) = []
      /\ LocalStorageService.items (fst (snd run)) = [])
  /\ (let run := LocalStorageService.constructor
                   (LocalStorageService.initial, Samples.items_only_world) in
      fst run = Returned tt
      /\ LocalStorageService.items (fst (snd run)) = [Samples.drill])
  /\ (let run := LocalStorageService.constructor
                   (LocalStorageService.initial, Samples.corrupt_items_world)
      in
      fst run = Threw SyntaxError /\ console (snd (snd run)) = []).
Proof.
  vm_compute. repeat split; reflexivity.
Qed.

(** ** [JSON.parse] reads back what [JSON.stringify] wrote *)

Module JSONFacts.
Import JSON.

Lemma parse_string_escape c r :
  parse_string (escape c ++ r)
  = '(str, r') ← parse_string r; Some (String c str, r').
Proof. destruct c as [[] [] [] [] [] [] [] []]; reflexivity. Qed.

Lemma parse_string_quote_body s rest :
  parse_string (quote_body s ++ dquote :: rest) = Some (s, rest).
Proof.
  induction s as [|c s IH]; [reflexivity|].
  simpl quote_body. rewrite <- app_assoc, parse_string_escape, IH.
  reflexivity.
Qed.

(** *** Numbers *)

Lemma digit_of_follows c r :
  follows_value (c :: r) -> digit_of c = None.
Proof. simpl. intros [-> | [-> | ->]]; reflexivity. Qed.

Lemma number_continues_follows rest :
  follows_value rest -> number_continues rest = false.
Proof.
  destruct rest as [|c r]; [reflexivity|].
  simpl. intros [-> | [-> | ->]]; reflexivity.
Qed.

Lemma read_digits_digits u rest :
  follows_value rest -> read_digits (digits u ++ rest) = (u, rest).
Proof.
  intros Hrest.
  induction u as [|u IH|u IH|u IH|u IH|u IH|u IH|u IH|u IH|u IH|u IH];
    simpl; try (now rewrite IH).
  destruct rest as [|c r]; [reflexivity|].
  simpl. now rewrite (digit_of_follows c r Hrest).
Qed.

Lemma unorm_fixed_well_formed u :
  Decimal.unorm u = u -> well_formed_int u = true.
Proof.
  destruct u as [|u| | | | | | | | |]; try reflexivity.
  - intros H. now apply DecimalFacts.unorm_nonnil in H.
  - destruct u; try reflexivity; intros H; exfalso;
      rewrite DecimalFacts.unorm_D0 in H;
      unfold Decimal.unorm in H;
      match type of H with
      | match ?x with _ => _ end = _ =>
          destruct x eqn:E; try discriminate;
          match type of H with
          | Decimal.D0 _ = _ =>
              exact (DecimalFacts.nzhead_nonzero _ _ (eq_trans E H))
          | _ => idtac
          end
      end.
Qed.

Lemma nzhead_fixed_well_formed u :
  Decimal.nzhead u = u -> u <> Decimal.Nil -> well_formed_int u = true.
Proof.
  destruct u as [|u| | | | | | | | |]; try reflexivity.
  - contradiction.
  - intros H _. exfalso. exact (DecimalFacts.nzhead_nonzero _ _ H).
Qed.

Lemma to_int_well_formed n :
  match Z.to_int n with
  | Decimal.Pos u | Decimal.Neg u => well_formed_int u = true
  end.
Proof.
  pose proof (DecimalZ.to_of (Z.to_int n)) as H.
  rewrite DecimalZ.of_to in H.
  destruct (Z.to_int n) as [u|u]; simpl in H.
  - injection H as H. now apply unorm_fixed_well_formed.
  - destruct (Decimal.nzhead u) eqn:E; try discriminate;
      injection H as H; apply nzhead_fixed_well_formed;
      try congruence; subst; discriminate.
Qed.

Lemma strip_sign_digits u rest :
  well_formed_int u = true ->
  match digits u ++ rest with
  | c :: r => if Ascii.eqb c "-"%char then (true, r)
              else (false, digits u ++ rest)
  | [] => (false, digits u ++ rest)
  end = (false, digits u ++ rest).
Proof. destruct u; try reflexivity. discriminate. Qed.

Lemma parse_number_print n rest :
  follows_value rest ->
  parse_number (print_number n ++ rest) = Some (n, rest).
Proof.
  intros Hrest.
  pose proof (to_int_well_formed n) as Hwf.
  pose proof (DecimalZ.of_to n) as Hn.
  unfold print_number, parse_number.
  destruct (Z.to_int n) as [u|u].
  - rewrite (strip_sign_digits u rest Hwf).
    rewrite (read_digits_digits u rest Hrest), Hwf.
    rewrite (number_continues_follows rest Hrest). cbn [andb negb].
    now rewrite Hn.
  - cbn [app Ascii.eqb Bool.eqb].
    rewrite (read_digits_digits u rest Hrest), Hwf.
    rewrite (number_continues_follows rest Hrest). cbn [andb negb].
    now rewrite Hn.
Qed.

Lemma print_number_head n :
  exists c r, print_number n = c :: r /\ starts_number c = true.
Proof.
  pose proof (to_int_well_formed n) as Hwf. unfold print_number.
  destruct (Z.to_int n) as [u|u].
  - destruct u; try discriminate; simpl; eauto.
  - simpl; eauto.
Qed.

(** *** The first character decides *)

Lemma starts_value_facts c :
  starts_value c = true ->
  is_ws c = false /\ Ascii.eqb c "]"%char = false
  /\ Ascii.eqb c "}"%char = false.
Proof.
  destruct c as [[] [] [] [] [] [] [] []]; intros H;
    try discriminate H; repeat split.
Qed.

Lemma parse_value_number f c r :
  starts_number c = true ->
  parse_value (S f) (c :: r)
  = '(n, r') ← parse_number (c :: r); Some (Number n, r').
Proof.
  destruct c as [[] [] [] [] [] [] [] []]; intros H;
    try discriminate H; reflexivity.
Qed.

Lemma parse_value_string f r :
  parse_value (S f) (dquote :: r)
  = '(str, r') ← parse_string r; Some (Str str, r').
Proof. reflexivity. Qed.

Lemma parse_value_array f r :
  parse_value (S f) ("["%char :: r)
  = match skip_ws r with
    | c' :: r' =>
        if Ascii.eqb c' "]"%char then Some (Array [], r')
        else '(vs, r'') ← parse_elements (parse_value f) f r;
             Some (Array vs, r'')
    | [] => None
    end.
Proof. reflexivity. Qed.

Lemma parse_value_object f r :
  parse_value (S f) ("{"%char :: r)
  = match skip_ws r with
    | c' :: r' =>
        if Ascii.eqb c' "}"%char then Some (Object [], r')
        else '(kvs, r'') ← parse_members (parse_value f) f r;
             Some (Object kvs, r'')
    | [] => None
    end.
Proof. reflexivity. Qed.

Lemma print_head v :
  exists c r, print v = c :: r /\ starts_value c = true.
Proof.
  destruct v as [|[]|n|s|l|l]; simpl; eauto.
  destruct (print_number_head n) as (c & r & -> & Hc).
  exists c, r. split; [reflexivity|].
  unfold starts_value. now rewrite Hc.
Qed.

Lemma skip_ws_follows rest :
  follows_value rest -> skip_ws rest = rest.
Proof.
  destruct rest as [|c r]; [reflexivity|].
  simpl. intros [-> | [-> | ->]]; reflexivity.
Qed.

(** *** Arrays and objects *)

Section Elements.
Variable pv : list ascii -> option (value * list ascii).

Lemma parse_elements_join l : forall n rest,
  l <> [] -> (length l <= n)%nat ->
  (forall v r, v ∈ l -> follows_value r -> pv (print v ++ r) = Some (v, r)) ->
  parse_elements pv n (join_comma (List.map print l) ++ "]"%char :: rest)
  = Some (l, rest).
Proof.
  induction l as [|v l IH]; intros n rest Hne Hlen Hpv; [contradiction|].
  destruct n as [|n]; [simpl in Hlen; lia|].
  destruct l as [|v' l].
  - simpl. rewrite Hpv; [|left|simpl; auto]. reflexivity.
  - change (join_comma (List.map print (v :: v' :: l)))
      with (print v ++ ","%char :: join_comma (List.map print (v' :: l))).
    rewrite <- app_assoc. simpl parse_elements.
    rewrite Hpv; [|left|simpl; auto]. simpl.
    rewrite IH; [reflexivity|discriminate|simpl in *; lia|].
    intros v0 r Hv0. apply Hpv. now right.
Qed.

Lemma join_comma_cons2 (x y : list ascii) l :
  join_comma (x :: y :: l) = x ++ ","%char :: join_comma (y :: l).
Proof. reflexivity. Qed.

(** One member, and what stands behind it. *)
Lemma parse_members_step n k v r :
  pv (print v ++ r) = Some (v, r) ->
  parse_members pv (S n) ((quote k ++ ":"%char :: print v) ++ r)
  = match skip_ws r with
    | c :: r' =>
        if Ascii.eqb c ","%char then
          '(kvs, r'') ← parse_members pv n r'; Some ((k, v) :: kvs, r'')
        else if Ascii.eqb c "}"%char then Some ([(k, v)], r')
        else None
    | [] => None
    end.
Proof.
  intros Hpv. unfold quote.
  replace ((dquote :: quote_body k ++ [dquote]) ++ ":"%char :: print v)
    with (dquote :: quote_body k ++ dquote :: ":"%char :: print v)
    by (simpl; now rewrite <- app_assoc).
  replace ((dquote :: quote_body k ++ dquote :: ":"%char :: print v) ++ r)
    with (dquote :: quote_body k ++ dquote :: ":"%char :: (print v ++ r))
    by (simpl; now rewrite <- app_assoc).
  remember (print v ++ r) as t eqn:Et.
  simpl. rewrite parse_string_quote_body. simpl.
  rewrite Hpv. reflexivity.
Qed.

Lemma parse_members_join l : forall n rest,
  l <> [] -> (length l <= n)%nat ->
  (forall k v r, (k, v) ∈ l -> follows_value r ->
                 pv (print v ++ r) = Some (v, r)) ->
  parse_members pv n
    (join_comma
       (List.map (fun kv => match kv with
                            | (k, v') => quote k ++ ":"%char :: print v'
                            end) l)
     ++ "}"%char :: rest)
  = Some (l, rest).
Proof.
  induction l as [|[k v] l IH]; intros n rest Hne Hlen Hpv; [contradiction|].
  destruct n as [|n]; [simpl in Hlen; lia|].
  destruct l as [|kv' l].
  - cbn [List.map join_comma].
    rewrite parse_members_step; [reflexivity|].
    apply (Hpv k); [left|simpl; auto].
  - match goal with
    | |- context [List.map ?f _] =>
        change (List.map f ((k, v) :: kv' :: l))
          with ((quote k ++ ":"%char :: print v)
                  :: match List.map f (kv' :: l) with
                     | [] => [] | y :: l' => y :: l' end)
    end.
    cbn [List.map]. rewrite join_comma_cons2, <- app_assoc.
    cbn [app].
    rewrite parse_members_step; [|apply (Hpv k); [left|simpl; auto]].
    cbn [skip_ws]. change (is_ws ","%char) with false. cbv iota.
    change (Ascii.eqb ","%char ","%char) with true. cbv iota.
    cbn [List.map] in IH.
    rewrite (IH n rest); [reflexivity|discriminate|simpl in *; lia|].
    intros k0 v0 r Hv0. apply (Hpv k0). now right.
Qed.

End Elements.

Lemma list_sum_elem {A} (f : A -> nat) (l : list A) (v : A) :
  v ∈ l -> (f v <= list_sum (List.map f l))%nat.
Proof.
  induction 1 as [|? ? ? ? IH]; simpl; [lia|]. lia.
Qed.

Lemma list_sum_length {A} (f : A -> nat) (l : list A) :
  (forall x, x ∈ l -> (1 <= f x)%nat) ->
  (length l <= list_sum (List.map f l))%nat.
Proof.
  induction l as [|x l IH]; intros H; simpl; [lia|].
  pose proof (H x (list_elem_of_here _ _)).
  assert (length l <= list_sum (List.map f l))%nat; [|lia].
  apply IH. intros y Hy. apply H. now right.
Qed.

Lemma json_size_pos v : (1 <= json_size v)%nat.
Proof. destruct v; simpl; lia. Qed.

Lemma parse_value_print fuel : forall v rest,
  (json_size v <= fuel)%nat -> follows_value rest ->
  parse_value fuel (print v ++ rest) = Some (v, rest).
Proof.
  induction fuel as [|f IH]; intros v rest Hsize Hrest.
  { pose proof (json_size_pos v). lia. }
  destruct v as [|[]|n|s|l|l]; try reflexivity.
  - (* a number *)
    simpl print.
    destruct (print_number_head n) as (c & r & Hp & Hc).
    pose proof (parse_number_print n rest Hrest) as Hn.
    rewrite Hp in *. simpl app in *.
    now rewrite (parse_value_number f c _ Hc), Hn.
  - (* a string *)
    simpl print. unfold quote. simpl app.
    rewrite parse_value_string, <- app_assoc. simpl app.
    now rewrite parse_string_quote_body.
  - (* an array *)
    change (print (Array l))
      with ("["%char :: join_comma (List.map print l) ++ ["]"%char]).
    cbn [app]. rewrite parse_value_array, <- app_assoc.
    cbn [app]. destruct l as [|v l]; [reflexivity|].
    simpl in Hsize.
    assert (Hpv : forall v0 r, v0 ∈ v :: l -> follows_value r ->
                  parse_value f (print v0 ++ r) = Some (v0, r)).
    { intros v0 r Hv0 Hr. apply IH; [|assumption].
      pose proof (list_sum_elem json_size (v :: l) v0 Hv0) as H.
      simpl in H. lia. }
    assert (Hlen : (length (v :: l) <= f)%nat).
    { pose proof (list_sum_length json_size (v :: l)
                    (fun x _ => json_size_pos x)) as H.
      simpl in H. simpl. lia. }
    rewrite (parse_elements_join (parse_value f) (v :: l) f rest
               ltac:(discriminate) Hlen Hpv).
    destruct (print_head v) as (c & r & Hp & Hc).
    destruct (starts_value_facts c Hc) as (Hws & Hbr & _).
    assert (Hjoin : exists r', join_comma (List.map print (v :: l))
                               ++ "]"%char :: rest = c :: r').
    { destruct l; simpl; rewrite Hp; simpl; eauto. }
    destruct Hjoin as [r' ->]. simpl. now rewrite Hws, Hbr.
  - (* an object *)
    change (print (Object l))
      with ("{"%char
              :: join_comma
                   (List.map (fun kv : string * value =>
                                match kv with
                                | (k, v') => quote k ++ ":"%char :: print v'
                                end) l)
              ++ ["}"%char]).
    cbn [app]. rewrite parse_value_object, <- app_assoc.
    cbn [app]. destruct l as [|[k v] l]; [reflexivity|].
    simpl in Hsize.
    assert (Hpv : forall k0 v0 r, (k0, v0) ∈ (k, v) :: l ->
                  follows_value r ->
                  parse_value f (print v0 ++ r) = Some (v0, r)).
    { intros k0 v0 r Hv0 Hr. apply IH; [|assumption].
      assert (H : (json_size v0
                   <= list_sum
                        (List.map (fun kv : string * value =>
                                     match kv with
                                     | (_, v') => json_size v'
                                     end) ((k, v) :: l)))%nat).
      { exact (list_sum_elem
                 (fun kv : string * value =>
                    match kv with (_, v') => json_size v' end)
                 _ (k0, v0) Hv0). }
      simpl in H. lia. }
    assert (Hlen : (length ((k, v) :: l) <= f)%nat).
    { pose proof (list_sum_length
                    (fun kv : string * value =>
                       match kv with (_, v') => json_size v' end)
                    ((k, v) :: l)
                    (fun x _ => match x with
                                | (_, v') => json_size_pos v'
                                end)) as H.
      simpl in H. simpl. lia. }
    rewrite (parse_members_join (parse_value f) ((k, v) :: l) f rest
               ltac:(discriminate) Hlen Hpv).
    assert (Hjoin : exists r',
               join_comma
                 (List.map (fun kv : string * value =>
                              match kv with
                              | (k0, v') => quote k0 ++ ":"%char :: print v'
                              end) ((k, v) :: l))
               ++ "}"%char :: rest = dquote :: r').
    { unfold quote. destruct l; simpl; eauto. }
    destruct Hjoin as [r' ->]. reflexivity.
Qed.

(** *** The fuel of [JSON.parse] suffices *)

Lemma list_sum_join {A} (f : A -> nat) (g : A -> list ascii) (l : list A) :
  (forall x, x ∈ l -> (f x <= length (g x))%nat) ->
  (list_sum (List.map f l) <= length (join_comma (List.map g l)))%nat.
Proof.
  induction l as [|x l IH]; intros H; [simpl; lia|].
  pose proof (H x (list_elem_of_here _ _)) as Hx.
  assert (Hl : (list_sum (List.map f l)
                <= length (join_comma (List.map g l)))%nat).
  { apply IH. intros y Hy. apply H. now right. }
  destruct l as [|y l]; [simpl in *; lia|].
  cbn [List.map] in *. rewrite join_comma_cons2.
  change (list_sum (f x :: f y :: List.map f l))
    with (f x + list_sum (f y :: List.map f l))%nat.
  rewrite length_app. cbn [length]. lia.
Qed.

Lemma json_size_bounded n : forall v,
  (json_size v <= n)%nat -> (json_size v <= length (print v))%nat.
Proof.
  induction n as [|n IH]; intros v Hn.
  { pose proof (json_size_pos v). lia. }
  destruct v as [|[]|z|s|l|l]; try (simpl; lia).
  - destruct (print_number_head z) as (c & r & Hp & _).
    simpl. rewrite Hp. simpl. lia.
  - change (print (Array l))
      with ("["%char :: join_comma (List.map print l) ++ ["]"%char]).
    simpl in Hn. cbn [json_size length]. rewrite length_app.
    assert (list_sum (List.map json_size l)
            <= length (join_comma (List.map print l)))%nat; [|simpl; lia].
    apply list_sum_join. intros v Hv. apply IH.
    pose proof (list_sum_elem json_size l v Hv). lia.
  - change (print (Object l))
      with ("{"%char
              :: join_comma
                   (List.map (fun kv : string * value =>
                                match kv with
                                | (k, v') => quote k ++ ":"%char :: print v'
                                end) l)
              ++ ["}"%char]).
    simpl in Hn. cbn [json_size length]. rewrite length_app.
    match goal with
    | |- (S (list_sum (List.map ?f l)) <= S (length (join_comma (List.map ?g l)) + _))%nat =>
        assert (list_sum (List.map f l)
                <= length (join_comma (List.map g l)))%nat;
          [|cbn [length]; lia];
        apply list_sum_join; intros [k v] Hv;
        pose proof (list_sum_elem f l (k, v) Hv) as Hle
    end.
    simpl in Hle. rewrite length_app. simpl.
    assert (json_size v <= length (print v))%nat by (apply IH; lia). lia.
Qed.

(** Every value is read back from its text. *)
Lemma parse_stringify v : parse (stringify v) = Some v.
Proof.
  unfold parse, stringify.
  rewrite list_ascii_of_string_of_list_ascii.
  pose proof (parse_value_print (S (length (print v))) v [] ) as H.
  rewrite app_nil_r in H. rewrite H; [reflexivity| |exact I].
  pose proof (json_size_bounded (json_size v) v (le_n _)). lia.
Qed.

Lemma stringify_nonempty v : stringify v <> EmptyString.
Proof.
  intros H. pose proof (parse_stringify v) as Hp. rewrite H in Hp.
  discriminate.
Qed.

End JSONFacts.

(** ** Records are read back from their JSON values *)

Lemma box_of_to_json b : Codec.box_of_json (Codec.box_to_json b) = Some b.
Proof. destruct b. reflexivity. Qed.

Lemma strings_of_to_json (l : list string) :
  mapM Codec.as_string (List.map JSON.Str l) = Some l.
Proof.
  induction l as [|x l IH]; [reflexivity|].
  simpl. rewrite IH. reflexivity.
Qed.

Lemma item_of_to_json i : Codec.item_of_json (Codec.item_to_json i) = Some i.
Proof.
  destruct i as [id boxId boxName imageUrl name description tags timestamp].
  unfold Codec.item_of_json, Codec.item_to_json.
  unfold Codec.string_field, Codec.strings_field, Codec.number_field.
  cbn [JSON.get String.eqb Ascii.eqb Bool.eqb Item.id Item.boxId Item.boxName
         Item.imageUrl Item.name Item.description Item.tags Item.timestamp].
  rewrite strings_of_to_json. reflexivity.
Qed.

Lemma mapM_of_to_json {A} (encode : A -> JSON.value)
    (decode : JSON.value -> option A) (l : list A) :
  (forall x, decode (encode x) = Some x) ->
  mapM decode (List.map encode l) = Some l.
Proof.
  intros H. induction l as [|x l IH]; [reflexivity|].
  simpl. rewrite H, IH. reflexivity.
Qed.

Lemma blob_of_boxes boxes :
  blob_of_records Store_boxes (Codec.stringify_boxes boxes) boxes.
Proof.
  exists (List.map Codec.box_to_json boxes). split.
  - apply JSONFacts.parse_stringify.
  - apply (mapM_of_to_json Codec.box_to_json Codec.box_of_json).
    apply box_of_to_json.
Qed.

Lemma blob_of_items items :
  blob_of_records Store_items (Codec.stringify_items items) items.
Proof.
  exists (List.map Codec.item_to_json items). split.
  - apply JSONFacts.parse_stringify.
  - apply (mapM_of_to_json Codec.item_to_json Codec.item_of_json).
    apply item_of_to_json.
Qed.

(** ** Round trips through the durable layouts *)

Lemma autosave_run s w :
  LocalStorageService.autosave (s, w)
  = (Returned tt,
     (s, with_localStorage w
           (<["clutter_items" :=
                Codec.stringify_items (LocalStorageService.items s)]>
              (<["clutter_boxes" :=
                   Codec.stringify_boxes (LocalStorageService.boxes s)]>
                 (localStorage w))))).
Proof. reflexivity. Qed.

Lemma legacy_load_records s w boxesJson itemsJson boxes items :
  localStorage w !! "clutter_boxes" = Some boxesJson ->
  localStorage w !! "clutter_items" = Some itemsJson ->
  blob_of_records Store_boxes boxesJson boxes ->
  blob_of_records Store_items itemsJson items ->
  LocalStorageService.loadFromStorage (s, w)
  = (Returned tt,
     (LocalStorageService.mk boxes items
        (LocalStorageService.currentBoxId s), w)).
Proof.
  intros Hb Hi Hboxes Hitems.
  pose proof (truthy_nonempty _ (blob_of_records_nonempty _ _ _ Hboxes))
    as Htb.
  pose proof (truthy_nonempty _ (blob_of_records_nonempty _ _ _ Hitems))
    as Hti.
  destruct Hboxes as (vb & Hpb & Hcb). destruct Hitems as (vi & Hpi & Hci).
  simpl in Hcb, Hci.
  unfold LocalStorageService.loadFromStorage,
    LocalStorageService.STORAGE_KEY_BOXES,
    LocalStorageService.STORAGE_KEY_ITEMS, JSON_parse_as.
  prog_simpl. rewrite Hb, Hi, Htb, Hti. simpl.
  rewrite Hpb. simpl. rewrite Hcb. simpl.
  rewrite Hpi. simpl. rewrite Hci. reflexivity.
Qed.

Lemma put_records_run n records s w :
  is_open s = true ->
  put_records n records (s, w)
  = (Returned tt,
     (s, with_objectStore n w (put_all n records (objectStore n w)))).
Proof.
  unfold put_records, is_open. intros Hopen. revert w.
  induction records as [|r records IH]; intros w.
  - unfold put_all. simpl. now rewrite with_objectStore_same.
  - simpl. unfold Prog.bind, IndexedDBService.putToStore at 1. prog_simpl.
    destruct (IndexedDBService.db s) as [d|]; [|discriminate].
    rewrite IH. now rewrite objectStore_with, with_objectStore_twice.
Qed.

Section Reload.
Variables (boxes : list Box.t) (items : list Item.t).
Hypothesis Hboxes : NoDup (List.map Box.id boxes).
Hypothesis Hitems : NoDup (List.map Item.id items).

Lemma NoDup_map_fmap {A B} (f : A -> B) (l : list A) :
  NoDup (List.map f l) -> NoDup (f <$> l).
Proof.
  induction l as [|x l IH]; simpl; [constructor|].
  intros H. apply NoDup_cons in H as [Hx Hl].
  apply NoDup_cons. split; [|now apply IH].
  intros Hin. apply Hx. clear -Hin.
  induction l as [|y l IH]; simpl in *; [now apply not_elem_of_nil in Hin|].
  apply elem_of_cons in Hin as [->|Hin]; [left|right; now apply IH].
Qed.

(** Loading from stores that hold exactly the two collections. *)
Lemma loadData_reloads s w :
  is_open s = true ->
  store_boxes w = put_all Store_boxes boxes ∅ ->
  store_items w = put_all Store_items items ∅ ->
  let s' := fst (Prog.exec IndexedDBService.loadData (s, w)) in
  IndexedDBService.boxes s' ≡ₚ boxes
  /\ IndexedDBService.items s' ≡ₚ items
  /\ newest_first Box.createdAt (IndexedDBService.boxes s')
  /\ newest_first Item.timestamp (IndexedDBService.items s').
Proof.
  intros Hopen Hsb Hsi. cbv zeta. unfold Prog.exec.
  rewrite loadData_run. cbn [fst snd]. unfold is_open in Hopen.
  destruct (IndexedDBService.db s) as [d|]; [|discriminate].
  cbn [IndexedDBService.boxes IndexedDBService.items
         IndexedDBService.set_boxes IndexedDBService.set_items].
  rewrite Hsb, Hsi. repeat split.
  - rewrite Array_sort_Permutation.
    apply (put_all_empty_elements Store_boxes).
    now apply NoDup_map_fmap.
  - rewrite Array_sort_Permutation.
    apply (put_all_empty_elements Store_items).
    now apply NoDup_map_fmap.
  - apply Array_sort_newest_first.
  - apply Array_sort_newest_first.
Qed.

End Reload.

Lemma idb_constructor_run w :
  Prog.exec (IndexedDBService.constructor true) (IndexedDBService.initial, w)
  = Prog.exec IndexedDBService.loadData
      (opened,
       snd (Prog.exec IndexedDBService.migrateFromLocalStorage (opened, w))).
Proof.
  unfold IndexedDBService.constructor, IndexedDBService.initDatabase.
  unfold Prog.exec, mbind, Prog_bind, Prog.bind, Prog.update_fields.
  cbn [fst snd]. fold opened. now rewrite migrate_run.
Qed.

(** Start-up of the transactional revision over the blobs that the
    blob-keyed revision left, the stores being empty. *)
Lemma upgrade_reloads boxes items
    (Hboxes : NoDup (List.map Box.id boxes))
    (Hitems : NoDup (List.map Item.id items)) w boxesJson itemsJson :
  localStorage w !! "clutter_boxes" = Some boxesJson ->
  localStorage w !! "clutter_items" = Some itemsJson ->
  blob_of_records Store_boxes boxesJson boxes ->
  blob_of_records Store_items itemsJson items ->
  store_boxes w = ∅ -> store_items w = ∅ ->
  let st := Prog.exec (IndexedDBService.constructor true)
              (IndexedDBService.initial, w) in
  IndexedDBService.boxes (fst st) ≡ₚ boxes
  /\ IndexedDBService.items (fst st) ≡ₚ items
  /\ newest_first Box.createdAt (IndexedDBService.boxes (fst st))
  /\ newest_first Item.timestamp (IndexedDBService.items (fst st))
  /\ localStorage (snd st) !! "clutter_boxes" = None
  /\ localStorage (snd st) !! "clutter_items" = None.
Proof.
  intros Hb Hi Hbr Hir Hsb Hsi. cbv zeta. rewrite idb_constructor_run.
  unfold Prog.exec at 2 4 6 8 10 12. rewrite migrate_run. cbn [snd].
  rewrite Hb, Hi.
  rewrite (truthy_nonempty _ (blob_of_records_nonempty _ _ _ Hbr)).
  cbn [negb andb]. change (is_open opened) with true.
  rewrite (blob_migrated_records _ _ _ _ _ _ Hbr).
  rewrite (blob_migrated_records _ _ _ _ _ _ Hir).
  cbv zeta.
  match goal with
  | |- context [Prog.exec IndexedDBService.loadData (opened, ?x)] =>
      set (w2 := x)
  end.
  destruct (loadData_reloads boxes items Hboxes Hitems opened w2 eq_refl)
    as (H1 & H2 & H3 & H4).
  { subst w2.
    cbn [store_boxes store_items with_objectStore objectStore
           with_localStorage with_console localStorage].
    now rewrite Hsb. }
  { subst w2.
    cbn [store_boxes store_items with_objectStore objectStore
           with_localStorage with_console localStorage].
    now rewrite Hsi. }
  split; [exact H1|]. split; [exact H2|]. split; [exact H3|].
  split; [exact H4|].
  unfold Prog.exec. rewrite loadData_run. cbn [fst snd]. subst w2.
  cbn [store_boxes store_items with_objectStore objectStore
         with_localStorage with_console localStorage].
  split.
  - rewrite lookup_delete_ne by done. apply lookup_delete_eq.
  - apply lookup_delete_eq.
Qed.

(** C6: the box and item collections, written to the durable layout
    and loaded by a fresh service, come back as the same collections up
    to order. The collections are those of the data model: the ids of
    the boxes are pairwise distinct and so are those of the items, and
    the time stamps are integers, as [Date.now()] gives them. Blob
    layout: after the auto-save has written the two collections under
    [clutter_boxes] and [clutter_items], a fresh blob-keyed service
    loads the very same two lists (this half needs no assumption on
    the ids). Table layout: after every record was put into its store
    of an open and empty database, a fresh service loads collections
    that are permutations of the originals, newest first; and the same
    holds when the records reach the stores from the blobs through the
    migration step at start-up. *)
Theorem C6_round_trip (boxes : list Box.t) (items : list Item.t) :
  (forall cur w,
      let w1 := snd (Prog.exec LocalStorageService.autosave
                       (LocalStorageService.mk boxes items cur, w)) in
      LocalStorageService.constructor (LocalStorageService.initial, w1)
      = (Returned tt, (LocalStorageService.mk boxes items None, w1)))
  /\
  (NoDup (List.map Box.id boxes) -> NoDup (List.map Item.id items) ->
   forall w,
     store_boxes w = ∅ -> store_items w = ∅ ->
     (let w1 := snd (Prog.exec
                       (put_records Store_boxes boxes;;
                        put_records Store_items items) (opened, w)) in
      let s' := fst (Prog.exec IndexedDBService.loadData (opened, w1)) in
      IndexedDBService.boxes s' ≡ₚ boxes
      /\ IndexedDBService.items s' ≡ₚ items
      /\ newest_first Box.createdAt (IndexedDBService.boxes s')
      /\ newest_first Item.timestamp (IndexedDBService.items s'))
     /\
     (forall cur,
         let w1 := snd (Prog.exec LocalStorageService.autosave
                          (LocalStorageService.mk boxes items cur, w)) in
         let st := Prog.exec (IndexedDBService.constructor true)
                     (IndexedDBService.initial, w1) in
         IndexedDBService.boxes (fst st) ≡ₚ boxes
         /\ IndexedDBService.items (fst st) ≡ₚ items
         /\ newest_first Box.createdAt (IndexedDBService.boxes (fst st))
         /\ newest_first Item.timestamp (IndexedDBService.items (fst st))
         /\ localStorage (snd st) !! "clutter_boxes" = None
         /\ localStorage (snd st) !! "clutter_items" = None)).
Proof.
  split.
  - intros cur w. cbv zeta. unfold Prog.exec. rewrite autosave_run.
    cbn [fst snd LocalStorageService.boxes LocalStorageService.items].
    unfold LocalStorageService.constructor.
    rewrite (legacy_load_records LocalStorageService.initial _
               (Codec.stringify_boxes boxes) (Codec.stringify_items items)
               boxes items); [reflexivity| | | |].
    + cbn [localStorage with_localStorage].
      rewrite lookup_insert_ne by done. apply lookup_insert_eq.
    + cbn [localStorage with_localStorage]. apply lookup_insert_eq.
    + apply blob_of_boxes.
    + apply blob_of_items.
  - intros Hboxes Hitems w Hsb Hsi. split.
    + cbv zeta. unfold Prog.exec, mbind, Prog_bind, Prog.bind.
      rewrite (put_records_run Store_boxes boxes opened w eq_refl).
      rewrite (put_records_run Store_items items opened _ eq_refl).
      cbn [fst snd].
      match goal with
      | |- context [IndexedDBService.loadData (opened, ?x)] => set (w1 := x)
      end.
      pose proof (loadData_reloads boxes items Hboxes Hitems opened w1
                    eq_refl) as H.
      cbv zeta in H. unfold Prog.exec in H. apply H; subst w1.
      * cbn [store_boxes with_objectStore objectStore]. now rewrite Hsb.
      * cbn [store_items with_objectStore objectStore]. now rewrite Hsi.
    + intros cur. cbv zeta. unfold Prog.exec at 2. rewrite autosave_run.
      cbn [fst snd LocalStorageService.boxes LocalStorageService.items].
      apply (upgrade_reloads boxes items Hboxes Hitems _
               (Codec.stringify_boxes boxes) (Codec.stringify_items items)).
      * cbn [localStorage with_localStorage].
        rewrite lookup_insert_ne by done. apply lookup_insert_eq.
      * cbn [localStorage with_localStorage]. apply lookup_insert_eq.
      * apply blob_of_boxes.
      * apply blob_of_items.
      * exact Hsb.
      * exact Hsi.
Qed.

(** The garage and the drill, through both layouts. *)
Lemma C6_round_trip_witness :
  NoDup (List.map Box.id [Samples.garage])
  /\ NoDup (List.map Item.id [Samples.drill])
  /\ LocalStorageService.constructor
       (LocalStorageService.initial, Samples.saved_world)
     = (Returned tt,
        (LocalStorageService.mk [Samples.garage] [Samples.drill] None,
         Samples.saved_world))
  /\ (let st := Prog.exec (IndexedDBService.constructor true)
                  (IndexedDBService.initial, Samples.saved_world) in
      IndexedDBService.boxes (fst st) ≡ₚ [Samples.garage]
      /\ IndexedDBService.items (fst st) ≡ₚ [Samples.drill]).
Proof.
  assert (Hb : NoDup (List.map Box.id [Samples.garage])).
  { simpl. apply NoDup_singleton. }
  assert (Hi : NoDup (List.map Item.id [Samples.drill])).
  { simpl. apply NoDup_singleton. }
  destruct (C6_round_trip [Samples.garage] [Samples.drill]) as [Hblob Htable].
  split; [exact Hb|]. split; [exact Hi|]. split.
  - exact (Hblob None World_empty).
  - destruct (Htable Hb Hi World_empty eq_refl eq_refl) as [_ Hup].
    destruct (Hup None) as (H1 & H2 & _). split; assumption.
Defined.

(** * Further properties *)

(** ** The helpers of the transactional revision *)

Lemma putToStore_run n (v : StoreValue n) s w :
  IndexedDBService.putToStore n v (s, w)
  = if is_open s
    then (Returned tt,
          (s, with_objectStore n w
                (<[keyPath_id n v := v]> (objectStore n w))))
    else (Threw (Rejected "Database not initialized"), (s, w)).
Proof.
  unfold IndexedDBService.putToStore, is_open. prog_simpl.
  destruct (IndexedDBService.db s); reflexivity.
Qed.

Lemma deleteFromStore_run n key s w :
  IndexedDBService.deleteFromStore n key (s, w)
  = if is_open s
    then (Returned tt,
          (s, with_objectStore n w (delete key (objectStore n w))))
    else (Threw (Rejected "Database not initialized"), (s, w)).
Proof.
  unfold IndexedDBService.deleteFromStore, is_open. prog_simpl.
  destruct (IndexedDBService.db s); reflexivity.
Qed.

(** ** Lists of records and their ids *)

Lemma NoDup_map_eq {A B} (f : A -> B) (l : list A) (x y : A) :
  NoDup (List.map f l) -> x ∈ l -> y ∈ l -> f x = f y -> x = y.
Proof.
  induction l as [|a l IH]; simpl; intros Hnd Hx Hy Hf.
  - now apply not_elem_of_nil in Hx.
  - apply NoDup_cons in Hnd as [Ha Hnd].
    assert (Hin : forall z, z ∈ l -> f z ∈ List.map f l).
    { intros z Hz. apply list_elem_of_In, List.in_map, list_elem_of_In, Hz. }
    apply elem_of_cons in Hx as [->|Hx]; apply elem_of_cons in Hy as [->|Hy].
    + reflexivity.
    + exfalso. apply Ha. rewrite Hf. now apply Hin.
    + exfalso. apply Ha. rewrite <- Hf. now apply Hin.
    + now apply IH.
Qed.

Lemma map_replace_none {A} (p : A -> bool) (f : A -> A) (l : list A) :
  (forall x, x ∈ l -> p x = false) ->
  List.map (fun x => if p x then f x else x) l = l.
Proof.
  induction l as [|a l IH]; intros H; simpl; [reflexivity|].
  rewrite (H a (list_elem_of_here _ _)). f_equal.
  apply IH. intros x Hx. apply H. now right.
Qed.

Lemma map_replace_ext {A} (p : A -> bool) (f g : A -> A) (l : list A) :
  (forall x, x ∈ l -> p x = true -> f x = g x) ->
  List.map (fun x => if p x then f x else x) l
  = List.map (fun x => if p x then g x else x) l.
Proof.
  induction l as [|a l IH]; intros H; simpl; [reflexivity|].
  f_equal.
  - destruct (p a) eqn:E; [|reflexivity]. apply H; [left|assumption].
  - apply IH. intros x Hx. apply H. now right.
Qed.

Lemma find_item_Some (items : list Item.t) itemId item :
  List.find (fun i => String.eqb (Item.id i) itemId) items = Some item ->
  item ∈ items /\ Item.id item = itemId.
Proof.
  intros H. apply List.find_some in H as [Hin Heq].
  split; [now apply list_elem_of_In|now apply String.eqb_eq].
Qed.

Lemma find_item_None (items : list Item.t) itemId :
  List.find (fun i => String.eqb (Item.id i) itemId) items = None ->
  forall i, i ∈ items -> String.eqb (Item.id i) itemId = false.
Proof.
  intros H i Hi. apply list_elem_of_In in Hi.
  exact (List.find_none _ _ H i Hi).
Qed.

(** ** What each call does to the signals *)

Lemma legacy_op_fields o s w :
  exists s', legacy_op o (s, w) = (Returned tt, (s', w)).
Proof.
  destruct o; simpl.
  - eexists. apply legacy_addBox_run.
  - destruct (Views.find_box (LocalStorageService.boxes s) boxId) eqn:E.
    + eexists. eapply legacy_addItem_present. eassumption.
    + eexists. eapply legacy_addItem_absent. eassumption.
  - eexists. reflexivity.
  - eexists. reflexivity.
  - eexists. reflexivity.
  - eexists. reflexivity.
Qed.

Lemma idb_updateBoxStatus_absent boxId isFull s w :
  Views.find_box (IndexedDBService.boxes s) boxId = None ->
  IndexedDBService.updateBoxStatus boxId isFull (s, w) = (Returned tt, (s, w)).
Proof.
  intros H. unfold IndexedDBService.updateBoxStatus. prog_simpl.
  now rewrite H.
Qed.

Lemma idb_updateBoxStatus_run boxId isFull s w box :
  Views.find_box (IndexedDBService.boxes s) boxId = Some box ->
  IndexedDBService.updateBoxStatus boxId isFull (s, w)
  = IndexedDBService.putToStore Store_boxes (Box.with_isFull box isFull)
      (IndexedDBService.set_boxes
         (List.map (fun b => if String.eqb (Box.id b) boxId
                             then Box.with_isFull box isFull else b)
            (IndexedDBService.boxes s)) s, w).
Proof.
  intros H. unfold IndexedDBService.updateBoxStatus. prog_simpl.
  now rewrite H.
Qed.

Lemma idb_updateItem_absent itemId updates s w :
  List.find (fun i => String.eqb (Item.id i) itemId)
    (IndexedDBService.items s) = None ->
  IndexedDBService.updateItem itemId updates (s, w) = (Returned tt, (s, w)).
Proof.
  intros H. unfold IndexedDBService.updateItem. prog_simpl.
  now rewrite H.
Qed.

Lemma idb_updateItem_run itemId updates s w item :
  List.find (fun i => String.eqb (Item.id i) itemId)
    (IndexedDBService.items s) = Some item ->
  IndexedDBService.updateItem itemId updates (s, w)
  = IndexedDBService.putToStore Store_items (ItemUpdates.merge item updates)
      (IndexedDBService.set_items
         (List.map (fun i => if String.eqb (Item.id i) itemId
                             then ItemUpdates.merge item updates else i)
            (IndexedDBService.items s)) s, w).
Proof.
  intros H. unfold IndexedDBService.updateItem. prog_simpl.
  now rewrite H.
Qed.

Lemma idb_addBox_run uuid now name s w :
  IndexedDBService.addBox uuid now name (s, w)
  = IndexedDBService.putToStore Store_boxes (Views.newBox uuid now name)
      (IndexedDBService.mk (IndexedDBService.db s)
         (Views.newBox uuid now name :: IndexedDBService.boxes s)
         (IndexedDBService.items s) (Some uuid), w).
Proof. reflexivity. Qed.

Lemma idb_addItem_run uuid now boxId itemData s w box :
  Views.find_box (IndexedDBService.boxes s) boxId = Some box ->
  IndexedDBService.addItem uuid now boxId itemData (s, w)
  = IndexedDBService.putToStore Store_items
      (Views.newItem uuid now boxId box itemData)
      (IndexedDBService.set_items
         (Views.newItem uuid now boxId box itemData
            :: IndexedDBService.items s) s, w).
Proof.
  intros H. unfold IndexedDBService.addItem. prog_simpl. now rewrite H.
Qed.

Lemma idb_deleteItem_run itemId s w :
  IndexedDBService.deleteItem itemId (s, w)
  = IndexedDBService.deleteFromStore Store_items itemId
      (IndexedDBService.set_items
         (List.filter (fun item => negb (String.eqb (Item.id item) itemId))
            (IndexedDBService.items s)) s, w).
Proof. reflexivity. Qed.

(** The fields after a helper: it does not touch them. *)
Lemma putToStore_fields n (v : StoreValue n) s w :
  fst (Prog.exec (IndexedDBService.putToStore n v) (s, w)) = s.
Proof.
  unfold Prog.exec. rewrite putToStore_run. now destruct (is_open s).
Qed.

Lemma deleteFromStore_fields n key s w :
  fst (Prog.exec (IndexedDBService.deleteFromStore n key) (s, w)) = s.
Proof.
  unfold Prog.exec. rewrite deleteFromStore_run. now destruct (is_open s).
Qed.

(** ** The two revisions on the same call *)

Lemma step_agree (o : Op) (s : IndexedDBService.t) (w w' : World) :
  NoDup (List.map Box.id (IndexedDBService.boxes s)) ->
  NoDup (List.map Item.id (IndexedDBService.items s)) ->
  signals_of (fst (Prog.exec (idb_op o) (s, w)))
  = fst (Prog.exec (legacy_op o) (signals_of s, w'))
  /\ IndexedDBService.db (fst (Prog.exec (idb_op o) (s, w)))
     = IndexedDBService.db s.
Proof.
  intros Hb Hi. destruct o; cbn [idb_op legacy_op].
  - rewrite idb_addBox_fields. split; reflexivity.
  - destruct (Views.find_box (IndexedDBService.boxes s) boxId) as [box|] eqn:E.
    + rewrite (idb_addItem_present _ _ _ _ _ _ _ E).
      unfold Prog.exec.
      rewrite (legacy_addItem_present uuid now boxId itemData (signals_of s)
                 w' box E).
      split; reflexivity.
    + unfold Prog.exec.
      rewrite (idb_addItem_absent _ _ _ _ _ _ E).
      rewrite (legacy_addItem_absent uuid now boxId itemData (signals_of s)
                 w' E).
      split; reflexivity.
  - destruct (Views.find_box (IndexedDBService.boxes s) boxId) as [box|] eqn:E.
    + rewrite (idb_updateBoxStatus_fields _ _ _ _ _ E).
      unfold Prog.exec. rewrite legacy_updateBoxStatus_run. cbn [fst snd].
      split; [|reflexivity].
      unfold signals_of, LocalStorageService.set_boxes. simpl. f_equal.
      apply (map_replace_ext (fun b => String.eqb (Box.id b) boxId)).
      intros b Hin Hid. apply String.eqb_eq in Hid.
      destruct (find_box_Some _ _ _ E) as [Hbox Hboxid].
      f_equal. apply (NoDup_map_eq Box.id (IndexedDBService.boxes s));
        [assumption..|congruence].
    + unfold Prog.exec.
      rewrite (idb_updateBoxStatus_absent _ _ _ _ E).
      rewrite legacy_updateBoxStatus_run. cbn [fst snd].
      split; [|reflexivity].
      unfold signals_of, LocalStorageService.set_boxes. simpl. f_equal.
      symmetry.
      apply (map_replace_none (fun b => String.eqb (Box.id b) boxId)).
      intros b Hin. apply String.eqb_neq.
      now apply (proj1 (find_box_None _ _) E).
  - split; reflexivity.
  - destruct (List.find (fun i => String.eqb (Item.id i) itemId)
                (IndexedDBService.items s)) as [item|] eqn:E.
    + unfold Prog.exec. rewrite (idb_updateItem_run _ _ _ _ _ E).
      fold (Prog.exec
              (IndexedDBService.putToStore Store_items
                 (ItemUpdates.merge item updates))
              (IndexedDBService.set_items
                 (List.map (fun i => if String.eqb (Item.id i) itemId
                                     then ItemUpdates.merge item updates
                                     else i)
                    (IndexedDBService.items s)) s, w)).
      rewrite putToStore_fields. split; [|reflexivity].
      unfold signals_of. simpl. unfold LocalStorageService.set_items. simpl.
      f_equal.
      apply (map_replace_ext (fun i => String.eqb (Item.id i) itemId)).
      intros i Hin Hid. apply String.eqb_eq in Hid.
      destruct (find_item_Some _ _ _ E) as [Hitem Hitemid].
      f_equal. apply (NoDup_map_eq Item.id (IndexedDBService.items s));
        [assumption..|congruence].
    + unfold Prog.exec. rewrite (idb_updateItem_absent _ _ _ _ E).
      cbn [fst snd]. split; [|reflexivity].
      unfold signals_of. simpl. unfold LocalStorageService.set_items. simpl.
      f_equal. symmetry.
      apply (map_replace_none (fun i => String.eqb (Item.id i) itemId)).
      apply (find_item_None _ _ E).
  - unfold Prog.exec at 1 3. rewrite idb_deleteItem_run.
    fold (Prog.exec (IndexedDBService.deleteFromStore Store_items itemId)
            (IndexedDBService.set_items
               (List.filter
                  (fun item => negb (String.eqb (Item.id item) itemId))
                  (IndexedDBService.items s)) s, w)).
    rewrite deleteFromStore_fields. split; reflexivity.
Qed.

(** ** The ids of the records, call by call *)

Lemma map_id_replace_boxes boxId (f : Box.t -> Box.t) (l : list Box.t) :
  (forall b, Box.id b = boxId -> Box.id (f b) = boxId) ->
  List.map Box.id
    (List.map (fun b => if String.eqb (Box.id b) boxId then f b else b) l)
  = List.map Box.id l.
Proof.
  intros Hf. induction l as [|b l IH]; simpl; [reflexivity|].
  rewrite IH. f_equal.
  destruct (String.eqb_spec (Box.id b) boxId) as [Heq|_]; [|reflexivity].
  now rewrite (Hf b Heq).
Qed.

Lemma map_id_replace_items itemId (f : Item.t -> Item.t) (l : list Item.t) :
  (forall i, Item.id i = itemId -> Item.id (f i) = itemId) ->
  List.map Item.id
    (List.map (fun i => if String.eqb (Item.id i) itemId then f i else i) l)
  = List.map Item.id l.
Proof.
  intros Hf. induction l as [|i l IH]; simpl; [reflexivity|].
  rewrite IH. f_equal.
  destruct (String.eqb_spec (Item.id i) itemId) as [Heq|_]; [|reflexivity].
  now rewrite (Hf i Heq).
Qed.

Lemma map_filter_submseteq {A B} (f : A -> B) (p : A -> bool) (l : list A) :
  List.map f (List.filter p l) ⊆+ List.map f l.
Proof.
  induction l as [|a l IH]; simpl; [constructor|].
  destruct (p a); simpl.
  - now apply submseteq_skip.
  - now apply submseteq_cons.
Qed.

Lemma submseteq_NoDup {A} (l k : list A) : l ⊆+ k -> NoDup k -> NoDup l.
Proof.
  intros Hsub Hk. apply submseteq_Permutation in Hsub as [k' Hp].
  rewrite Hp in Hk. now apply NoDup_app in Hk as [Hl _].
Qed.

(** The fields after a call on the blob-keyed revision. *)
Lemma legacy_step_cases o s w :
  let s' := fst (Prog.exec (legacy_op o) (s, w)) in
  (* the ids of the boxes *)
  (List.map Box.id (LocalStorageService.boxes s')
   = match o with
     | AddBox uuid _ _ => uuid :: List.map Box.id (LocalStorageService.boxes s)
     | _ => List.map Box.id (LocalStorageService.boxes s)
     end)
  /\
  (* the ids of the items *)
  (List.map Item.id (LocalStorageService.items s')
   ⊆+ match o with
      | AddItem uuid _ _ _ =>
          uuid :: List.map Item.id (LocalStorageService.items s)
      | _ => List.map Item.id (LocalStorageService.items s)
      end).
Proof.
  cbv zeta. destruct o; cbn [legacy_op].
  - split; reflexivity.
  - destruct (Views.find_box (LocalStorageService.boxes s) boxId) as [box|]
      eqn:E; unfold Prog.exec.
    + rewrite (legacy_addItem_present _ _ _ _ _ _ _ E). split; reflexivity.
    + rewrite (legacy_addItem_absent _ _ _ _ _ _ E). cbn [fst snd].
      split; [reflexivity|]. now apply submseteq_cons.
  - split; [|reflexivity]. simpl.
    now apply (map_id_replace_boxes boxId (fun b => Box.with_isFull b isFull)).
  - split; reflexivity.
  - split; [reflexivity|]. simpl.
    now rewrite (map_id_replace_items itemId
                   (fun i => ItemUpdates.merge i updates)).
  - split; [reflexivity|]. simpl. apply map_filter_submseteq.
Qed.

Lemma legacy_step_fresh o ops s w :
  fresh_uuids (LocalStorageService.boxes s) (LocalStorageService.items s)
    (o :: ops) ->
  let s' := fst (Prog.exec (legacy_op o) (s, w)) in
  fresh_uuids (LocalStorageService.boxes s') (LocalStorageService.items s')
    ops.
Proof.
  intros [Hb Hi]. cbv zeta.
  destruct (legacy_step_cases o s w) as [Eb Ei]. cbv zeta in Eb, Ei.
  split.
  - rewrite Eb. destruct o; try exact Hb.
    cbn [box_uuids omap] in Hb.
    eapply NoDup_Permutation_proper; [|exact Hb].
    simpl. apply Permutation_middle.
  - eapply submseteq_NoDup; [|exact Hi].
    destruct o; cbn [item_uuids omap];
      try (apply submseteq_app; [exact Ei|reflexivity]).
    etransitivity.
    + apply submseteq_app; [exact Ei|reflexivity].
    + simpl. apply Permutation_submseteq, Permutation_middle.
Qed.

Lemma legacy_exec_world o s w :
  snd (Prog.exec (legacy_op o) (s, w)) = w.
Proof.
  destruct (legacy_op_fields o s w) as [s' E]. unfold Prog.exec.
  now rewrite E.
Qed.

Lemma legacy_exec_pair o s w :
  Prog.exec (legacy_op o) (s, w)
  = (fst (Prog.exec (legacy_op o) (s, w)), w).
Proof.
  rewrite <- (legacy_exec_world o s w) at 3.
  now destruct (Prog.exec (legacy_op o) (s, w)).
Qed.

Lemma legacy_run_fresh ops : forall s w,
  fresh_uuids (LocalStorageService.boxes s) (LocalStorageService.items s)
    ops ->
  let s' := fst (run_calls legacy_op ops (s, w)) in
  NoDup (List.map Box.id (LocalStorageService.boxes s'))
  /\ NoDup (List.map Item.id (LocalStorageService.items s')).
Proof.
  induction ops as [|o ops IH]; intros s w Hfresh; cbv zeta.
  - destruct Hfresh as [Hb Hi]. cbn [box_uuids item_uuids omap] in Hb, Hi.
    rewrite app_nil_r in Hb, Hi. now split.
  - rewrite run_calls_cons, legacy_exec_pair.
    apply IH. now apply legacy_step_fresh.
Qed.

(** A run of calls shows the same signals in both revisions. *)
Lemma idb_run_agree ops : forall s w w',
  fresh_uuids (IndexedDBService.boxes s) (IndexedDBService.items s) ops ->
  signals_of (fst (run_calls idb_op ops (s, w)))
  = fst (run_calls legacy_op ops (signals_of s, w'))
  /\ IndexedDBService.db (fst (run_calls idb_op ops (s, w)))
     = IndexedDBService.db s.
Proof.
  induction ops as [|o ops IH]; intros s w w' Hfresh.
  - split; reflexivity.
  - rewrite !run_calls_cons.
    assert (Hb : NoDup (List.map Box.id (IndexedDBService.boxes s))).
    { destruct Hfresh as [H _]. now apply NoDup_app in H as [H _]. }
    assert (Hi : NoDup (List.map Item.id (IndexedDBService.items s))).
    { destruct Hfresh as [_ H]. now apply NoDup_app in H as [H _]. }
    destruct (step_agree o s w w' Hb Hi) as [Hs Hdb].
    pose proof (legacy_step_fresh o ops (signals_of s) w' Hfresh) as Hf.
    cbv zeta in Hf. rewrite <- Hs in Hf.
    rewrite (legacy_exec_pair o (signals_of s) w'), <- Hs.
    destruct (Prog.exec (idb_op o) (s, w)) as [s1 w1].
    cbn [fst] in *.
    destruct (IH s1 w1 w' Hf) as [IHs IHdb].
    split; [exact IHs|congruence].
Qed.

(** X1. A session of calls of the public API, none of whose new ids
    repeats an id: at its end the transactional revision holds the same
    boxes, the same items and the same pointer as the blob-keyed
    revision after the same calls, whether or not its database has
    opened, and its [db] handle is as before. The calls of the
    blob-keyed revision leave the world alone: what it saves, its
    effect saves. *)
Theorem X1_revisions_agree (ops : list Op) (s : IndexedDBService.t)
    (w w' : World)
    (Hfresh : fresh_uuids (IndexedDBService.boxes s)
                (IndexedDBService.items s) ops) :
  signals_of (fst (run_calls idb_op ops (s, w)))
  = fst (run_calls legacy_op ops (signals_of s, w'))
  /\ IndexedDBService.db (fst (run_calls idb_op ops (s, w)))
     = IndexedDBService.db s
  /\ snd (run_calls legacy_op ops (signals_of s, w')) = w'.
Proof.
  destruct (idb_run_agree ops s w w' Hfresh) as [Hs Hdb].
  split; [exact Hs|]. split; [exact Hdb|].
  clear. generalize (signals_of s) as sl.
  induction ops as [|o ops IH]; intros sl; [reflexivity|].
  rewrite run_calls_cons, legacy_exec_pair. apply IH.
Qed.

Lemma idb_run_NoDup ops s w :
  fresh_uuids (IndexedDBService.boxes s) (IndexedDBService.items s) ops ->
  let s' := fst (run_calls idb_op ops (s, w)) in
  NoDup (List.map Box.id (IndexedDBService.boxes s'))
  /\ NoDup (List.map Item.id (IndexedDBService.items s')).
Proof.
  intros Hfresh. cbv zeta.
  destruct (idb_run_agree ops s w w Hfresh) as [Hs _].
  pose proof (legacy_run_fresh ops (signals_of s) w Hfresh) as H.
  cbv zeta in H. rewrite <- Hs in H. exact H.
Qed.

(** X2. The ids stay unique: after a session of calls whose new ids do
    not repeat an id, no two boxes share an id and no two items share
    an id. Both revisions. *)
Theorem X2_ids_stay_unique (ops : list Op) :
  (forall s w,
      fresh_uuids (LocalStorageService.boxes s) (LocalStorageService.items s)
        ops ->
      let s' := fst (run_calls legacy_op ops (s, w)) in
      NoDup (List.map Box.id (LocalStorageService.boxes s'))
      /\ NoDup (List.map Item.id (LocalStorageService.items s')))
  /\
  (forall s w,
      fresh_uuids (IndexedDBService.boxes s) (IndexedDBService.items s)
        ops ->
      let s' := fst (run_calls idb_op ops (s, w)) in
      NoDup (List.map Box.id (IndexedDBService.boxes s'))
      /\ NoDup (List.map Item.id (IndexedDBService.items s'))).
Proof.
  split.
  - intros s w. apply legacy_run_fresh.
  - intros s w Hfresh. now apply idb_run_NoDup.
Qed.

(** ** Items and the boxes they name *)

Lemma in_map_replace {A} (p : A -> bool) (f : A -> A) (l : list A) (x : A) :
  x ∈ l -> (if p x then f x else x) ∈ List.map (fun x => if p x then f x else x) l.
Proof.
  intros H. apply list_elem_of_In.
  apply (List.in_map (fun x => if p x then f x else x)).
  now apply list_elem_of_In.
Qed.

Lemma in_map_replace_inv {A} (p : A -> bool) (f : A -> A) (l : list A)
    (y : A) :
  y ∈ List.map (fun x => if p x then f x else x) l ->
  exists x, x ∈ l /\ y = if p x then f x else x.
Proof.
  intros H. apply list_elem_of_In, List.in_map_iff in H as (x & Hy & Hx).
  exists x. split; [now apply list_elem_of_In|now symmetry].
Qed.

Lemma legacy_step_in_boxes o s w :
  keeps_box o ->
  items_in_boxes (LocalStorageService.boxes s) (LocalStorageService.items s) ->
  let s' := fst (Prog.exec (legacy_op o) (s, w)) in
  items_in_boxes (LocalStorageService.boxes s') (LocalStorageService.items s').
Proof.
  intros Hkeep Hinv. cbv zeta. destruct o; cbn [legacy_op].
  - intros i Hi. destruct (Hinv i Hi) as (b & Hb & Hid & Hname).
    exists b. split; [now right|now split].
  - destruct (Views.find_box (LocalStorageService.boxes s) boxId) as [box|]
      eqn:E; unfold Prog.exec.
    + rewrite (legacy_addItem_present _ _ _ _ _ _ _ E). cbn [fst snd].
      intros i Hi. simpl in Hi. apply elem_of_cons in Hi as [->|Hi].
      * destruct (find_box_Some _ _ _ E) as [Hbox Hid].
        exists box. simpl. now repeat split.
      * now apply Hinv.
    + now rewrite (legacy_addItem_absent _ _ _ _ _ _ E).
  - intros i Hi. simpl in Hi. destruct (Hinv i Hi) as (b & Hb & Hid & Hname).
    exists (if String.eqb (Box.id b) boxId then Box.with_isFull b isFull
            else b).
    split; [|destruct (String.eqb (Box.id b) boxId); now split].
    simpl.
    apply (in_map_replace (fun b => String.eqb (Box.id b) boxId)
             (fun b => Box.with_isFull b isFull)), Hb.
  - exact Hinv.
  - destruct Hkeep as [Hk1 Hk2]. intros i' Hi'. simpl in Hi'.
    apply in_map_replace_inv in Hi' as (i & Hi & ->).
    destruct (Hinv i Hi) as (b & Hb & Hid & Hname).
    exists b. split; [exact Hb|].
    destruct (String.eqb (Item.id i) itemId); [|now split].
    simpl. now rewrite Hk1, Hk2.
  - intros i Hi. simpl in Hi.
    apply list_elem_of_In, List.filter_In in Hi as [Hi _].
    apply Hinv. now apply list_elem_of_In.
Qed.

Lemma legacy_run_in_boxes ops : forall s w,
  Forall keeps_box ops ->
  items_in_boxes (LocalStorageService.boxes s) (LocalStorageService.items s) ->
  let s' := fst (run_calls legacy_op ops (s, w)) in
  items_in_boxes (LocalStorageService.boxes s') (LocalStorageService.items s').
Proof.
  induction ops as [|o ops IH]; intros s w Hkeep Hinv; cbv zeta.
  - exact Hinv.
  - apply Forall_cons in Hkeep as [Ho Hkeep].
    rewrite run_calls_cons, legacy_exec_pair.
    apply IH; [assumption|]. now apply legacy_step_in_boxes.
Qed.

Lemma dangling_view_empty boxes items cur :
  items_in_boxes boxes items ->
  Views.currentBox boxes cur = None ->
  Views.itemsInCurrentBox items cur = [].
Proof.
  intros Hinv Hnone. apply view_empty. intros i Hi ->.
  destruct (Hinv i Hi) as (b & Hb & Hid & _).
  unfold Views.currentBox in Hnone.
  apply list_elem_of_In in Hb.
  apply (List.find_none _ _ Hnone) in Hb. simpl in Hb.
  apply String.eqb_neq in Hb. contradiction.
Qed.

(** X3. Referential integrity: from collections in which every item
    names a box of the collection and carries that box's name, a
    session of calls in which no [updateItem] rewrites [boxId] or
    [boxName] ends in such collections, so that a pointer that selects
    no box shows no items. Both revisions (the transactional one under
    new ids that do not repeat an id). *)
Theorem X3_items_keep_their_box (ops : list Op)
    (Hkeep : Forall keeps_box ops) :
  (forall s w,
      items_in_boxes (LocalStorageService.boxes s)
        (LocalStorageService.items s) ->
      let s' := fst (run_calls legacy_op ops (s, w)) in
      items_in_boxes (LocalStorageService.boxes s')
        (LocalStorageService.items s')
      /\ (LocalStorageService.currentBox s' = None ->
          LocalStorageService.itemsInCurrentBox s' = []))
  /\
  (forall s w,
      fresh_uuids (IndexedDBService.boxes s) (IndexedDBService.items s)
        ops ->
      items_in_boxes (IndexedDBService.boxes s) (IndexedDBService.items s) ->
      let s' := fst (run_calls idb_op ops (s, w)) in
      items_in_boxes (IndexedDBService.boxes s') (IndexedDBService.items s')
      /\ (IndexedDBService.currentBox s' = None ->
          IndexedDBService.itemsInCurrentBox s' = [])).
Proof.
  split.
  - intros s w Hinv. cbv zeta.
    pose proof (legacy_run_in_boxes ops s w Hkeep Hinv) as H.
    cbv zeta in H. split; [exact H|].
    now apply dangling_view_empty.
  - intros s w Hfresh Hinv. cbv zeta.
    destruct (idb_run_agree ops s w w Hfresh) as [Hs _].
    pose proof (legacy_run_in_boxes ops (signals_of s) w Hkeep Hinv) as H.
    cbv zeta in H. rewrite <- Hs in H. simpl in H. split; [exact H|].
    now apply dangling_view_empty.
Qed.

(** ** The stores follow the collections *)

Section Table.
Context {A : Type} (key : A -> string).

Local Abbreviation table :=
  (fun l : list A => (list_to_map ((fun x => (key x, x)) <$> l)
                      : gmap string A)).

Lemma table_replace_insert k (u : A) l :
  key u = k ->
  <[k := u]> (table (List.map (fun x => if String.eqb (key x) k then u else x)
                       l))
  = <[k := u]> (table l).
Proof.
  intros Hu. induction l as [|x l IH]; [reflexivity|].
  cbn [List.map fmap list_fmap list_to_map foldr uncurry fst snd].
  destruct (String.eqb_spec (key x) k) as [Heq|Hne].
  - rewrite Hu, Heq, !insert_insert_eq. exact IH.
  - rewrite !(insert_insert_ne _ k (key x)) by congruence.
    now rewrite IH.
Qed.

(** Replacing the records under a key that the list holds. *)
Lemma table_replace k (u : A) l x :
  key u = k -> x ∈ l -> key x = k ->
  table (List.map (fun x => if String.eqb (key x) k then u else x) l)
  = <[k := u]> (table l).
Proof.
  intros Hu Hin Hx. induction l as [|y l IH];
    [now apply not_elem_of_nil in Hin|].
  cbn [List.map fmap list_fmap list_to_map foldr uncurry fst snd].
  destruct (String.eqb_spec (key y) k) as [Heq|Hne].
  - rewrite Hu, Heq, insert_insert_eq. now apply table_replace_insert.
  - apply elem_of_cons in Hin as [->|Hin]; [congruence|].
    rewrite (insert_insert_ne _ k (key y)) by congruence.
    now rewrite IH.
Qed.

(** Dropping the records under a key. *)
Lemma table_filter k l :
  table (List.filter (fun x => negb (String.eqb (key x) k)) l)
  = delete k (table l).
Proof.
  induction l as [|y l IH]; cbn [List.filter].
  - symmetry. apply delete_empty.
  - destruct (String.eqb_spec (key y) k) as [Heq|Hne]; cbn [negb].
    + rewrite IH. cbn [fmap list_fmap list_to_map foldr uncurry fst snd].
      now rewrite Heq, delete_insert_eq.
    + cbn [fmap list_fmap list_to_map foldr uncurry fst snd].
      rewrite delete_insert_ne by congruence. now rewrite <- IH.
Qed.

(** Under an id the table has the first record of the list with that
    id. *)
Lemma lookup_table l k :
  table l !! k = List.find (fun x => String.eqb (key x) k) l.
Proof.
  induction l as [|x l IH]; [apply lookup_empty|].
  cbn [fmap list_fmap list_to_map foldr uncurry fst snd List.find].
  destruct (String.eqb_spec (key x) k) as [Heq|Hne].
  - rewrite Heq. apply lookup_insert_eq.
  - rewrite lookup_insert_ne by exact Hne. exact IH.
Qed.

(** What [getAll] reads from the table of a list without twins. *)
Lemma getAll_table l :
  NoDup (List.map key l) -> IDBObjectStore_getAll (table l) ≡ₚ l.
Proof.
  intros Hnd. unfold IDBObjectStore_getAll.
  rewrite Array_sort_Permutation, map_to_list_to_map.
  - rewrite <- list_fmap_compose. simpl. now rewrite list_fmap_id.
  - rewrite <- list_fmap_compose. simpl. now apply NoDup_map_fmap.
Qed.

End Table.

(** With the database open a call returns, and the stores follow the
    collections through it. *)
Lemma idb_step_mirrors o s w :
  is_open s = true -> mirrors s w ->
  exists s' w',
    idb_op o (s, w) = (Returned tt, (s', w'))
    /\ is_open s' = true /\ mirrors s' w'
    /\ localStorage w' = localStorage w /\ console w' = console w.
Proof.
  intros Hopen [Hb Hi].
  assert (Hput : forall n (v : StoreValue n) s0 w0,
             is_open s0 = true ->
             IndexedDBService.putToStore n v (s0, w0)
             = (Returned tt,
                (s0, with_objectStore n w0
                       (<[keyPath_id n v := v]> (objectStore n w0))))).
  { intros n v s0 w0 H0. now rewrite putToStore_run, H0. }
  destruct o; simpl.
  - rewrite idb_addBox_run, Hput by exact Hopen.
    do 2 eexists. split; [reflexivity|]. split; [exact Hopen|].
    split; [|split; reflexivity].
    split; simpl; [now rewrite Hb|exact Hi].
  - destruct (Views.find_box (IndexedDBService.boxes s) boxId) as [box|] eqn:E.
    + rewrite (idb_addItem_run _ _ _ _ _ _ _ E), Hput by exact Hopen.
      do 2 eexists. split; [reflexivity|]. split; [exact Hopen|].
      split; [|split; reflexivity].
      split; simpl; [exact Hb|now rewrite Hi].
    + rewrite (idb_addItem_absent _ _ _ _ _ _ E).
      do 2 eexists. split; [reflexivity|]. split; [exact Hopen|].
      split; [|split; reflexivity].
      split; simpl; [exact Hb|exact Hi].
  - destruct (Views.find_box (IndexedDBService.boxes s) boxId) as [box|] eqn:E.
    + rewrite (idb_updateBoxStatus_run _ _ _ _ _ E), Hput by exact Hopen.
      do 2 eexists. split; [reflexivity|]. split; [exact Hopen|].
      split; [|split; reflexivity].
      apply find_box_Some in E as [Hin Hid].
      split; simpl; [|exact Hi].
      rewrite Hb, Hid. symmetry.
      now apply (table_replace Box.id boxId _ _ box).
    + rewrite (idb_updateBoxStatus_absent _ _ _ _ E).
      do 2 eexists. split; [reflexivity|]. split; [exact Hopen|].
      split; [|split; reflexivity].
      split; simpl; [exact Hb|exact Hi].
  - do 2 eexists. split; [reflexivity|]. split; [exact Hopen|].
    split; [|split; reflexivity].
    split; simpl; [exact Hb|exact Hi].
  - destruct (List.find (fun i => String.eqb (Item.id i) itemId)
                (IndexedDBService.items s)) as [item|] eqn:E.
    + rewrite (idb_updateItem_run _ _ _ _ _ E), Hput by exact Hopen.
      do 2 eexists. split; [reflexivity|]. split; [exact Hopen|].
      split; [|split; reflexivity].
      apply find_item_Some in E as [Hin Hid].
      split; simpl; [exact Hb|].
      rewrite Hi, Hid. symmetry.
      now apply (table_replace Item.id itemId _ _ item).
    + rewrite (idb_updateItem_absent _ _ _ _ E).
      do 2 eexists. split; [reflexivity|]. split; [exact Hopen|].
      split; [|split; reflexivity].
      split; simpl; [exact Hb|exact Hi].
  - rewrite idb_deleteItem_run, deleteFromStore_run.
    replace (is_open _) with true by (symmetry; exact Hopen).
    do 2 eexists. split; [reflexivity|]. split; [exact Hopen|].
    split; [|split; reflexivity].
    split; simpl; [exact Hb|].
    rewrite Hi. symmetry. apply (table_filter Item.id).
Qed.

Lemma outcomes_cons {S C} (method : C -> Prog S unit) c calls st :
  outcomes method (c :: calls) st
  = Prog.outcome (method c) st
      :: outcomes method calls (Prog.exec (method c) st).
Proof. reflexivity. Qed.

Lemma idb_run_mirrors ops : forall s w,
  is_open s = true -> mirrors s w ->
  let st := run_calls idb_op ops (s, w) in
  Forall (fun r => r = Returned tt) (outcomes idb_op ops (s, w))
  /\ mirrors (fst st) (snd st)
  /\ localStorage (snd st) = localStorage w
  /\ console (snd st) = console w.
Proof.
  induction ops as [|o ops IH]; intros s w Hopen Hm; cbv zeta.
  - repeat split; try constructor; apply Hm.
  - destruct (idb_step_mirrors o s w Hopen Hm)
      as (s1 & w1 & Hrun & Hopen1 & Hm1 & Hls & Hc).
    rewrite run_calls_cons, outcomes_cons.
    unfold Prog.exec, Prog.outcome. rewrite Hrun. cbn [fst snd].
    destruct (IH s1 w1 Hopen1 Hm1) as (Hr & Hm' & Hls' & Hc').
    repeat split; try apply Hm'; try congruence.
    now constructor.
Qed.

(** X4. Write-through: with the database open and the stores holding
    the two collections, every call of a session returns (none
    rejects: the requests of an open database succeed), and at the end
    each store has under every id the record that the collection in
    memory shows first under that id, and nothing under an id that the
    collection does not have; localStorage and the console are as
    before. *)
Theorem X4_stores_follow_collections (ops : list Op)
    (s : IndexedDBService.t) (w : World)
    (Hopen : is_open s = true) (Hmirrors : mirrors s w) :
  let st := run_calls idb_op ops (s, w) in
  Forall (fun r => r = Returned tt) (outcomes idb_op ops (s, w))
  /\ (forall boxId,
         store_boxes (snd st) !! boxId
         = Views.find_box (IndexedDBService.boxes (fst st)) boxId)
  /\ (forall itemId,
         store_items (snd st) !! itemId
         = List.find (fun i => String.eqb (Item.id i) itemId)
             (IndexedDBService.items (fst st)))
  /\ localStorage (snd st) = localStorage w
  /\ console (snd st) = console w.
Proof.
  cbv zeta.
  destruct (idb_run_mirrors ops s w Hopen Hmirrors)
    as (Hr & [Hb Hi] & Hls & Hc).
  split; [exact Hr|]. split; [|split; [|now split]].
  - intros boxId. rewrite Hb. apply (lookup_table Box.id).
  - intros itemId. rewrite Hi. apply (lookup_table Item.id).
Qed.

(** A start over a localStorage without the blobs of the blob-keyed
    revision is the load alone, and writes nothing. *)
Lemma idb_constructor_no_blobs w :
  JS.truthy (localStorage w !! "clutter_boxes") = false ->
  JS.truthy (localStorage w !! "clutter_items") = false ->
  IndexedDBService.constructor true (IndexedDBService.initial, w)
  = IndexedDBService.loadData (opened, w).
Proof.
  intros Hb Hi.
  unfold IndexedDBService.constructor, IndexedDBService.initDatabase.
  unfold mbind, Prog_bind, Prog.bind, Prog.update_fields.
  cbn [fst snd]. fold opened. rewrite migrate_run. cbv zeta.
  now rewrite Hb, Hi.
Qed.

(** A restart after a session, as a function of the session's end. *)
Lemma idb_restart_run ops s w :
  is_open s = true -> mirrors s w ->
  JS.truthy (localStorage w !! "clutter_boxes") = false ->
  JS.truthy (localStorage w !! "clutter_items") = false ->
  let st := run_calls idb_op ops (s, w) in
  Prog.exec (IndexedDBService.constructor true)
    (IndexedDBService.initial, snd st)
  = (IndexedDBService.mk (Some IndexedDBService.ClutterAI_DB)
       (JS.Array_sort (descending Box.createdAt)
          (IDBObjectStore_getAll
             (list_to_map ((fun b => (Box.id b, b))
                             <$> IndexedDBService.boxes (fst st)))))
       (JS.Array_sort (descending Item.timestamp)
          (IDBObjectStore_getAll
             (list_to_map ((fun i => (Item.id i, i))
                             <$> IndexedDBService.items (fst st)))))
       None,
     snd st).
Proof.
  intros Hopen Hmirrors Hboxes Hitems. cbv zeta.
  destruct (idb_run_mirrors ops s w Hopen Hmirrors)
    as (_ & [Hb Hi] & Hls & _).
  unfold Prog.exec.
  rewrite idb_constructor_no_blobs by (rewrite Hls; assumption).
  rewrite loadData_run. cbn. now rewrite Hb, Hi.
Qed.

(** X5. A session survives a restart: after a session of calls on an
    open database whose stores held the collections, none of whose new
    ids repeats an id, and with no blob of the blob-keyed revision in
    localStorage, the constructor of a fresh service reads back the
    boxes and the items of the session's end, up to their order, each
    newest first, and writes nothing. *)
Theorem X5_session_survives_restart (ops : list Op)
    (s : IndexedDBService.t) (w : World)
    (Hopen : is_open s = true) (Hmirrors : mirrors s w)
    (Hfresh : fresh_uuids (IndexedDBService.boxes s)
                (IndexedDBService.items s) ops)
    (Hboxes : JS.truthy (localStorage w !! "clutter_boxes") = false)
    (Hitems : JS.truthy (localStorage w !! "clutter_items") = false) :
  let st := run_calls idb_op ops (s, w) in
  let st' := Prog.exec (IndexedDBService.constructor true)
               (IndexedDBService.initial, snd st) in
  IndexedDBService.boxes (fst st') ≡ₚ IndexedDBService.boxes (fst st)
  /\ IndexedDBService.items (fst st') ≡ₚ IndexedDBService.items (fst st)
  /\ newest_first Box.createdAt (IndexedDBService.boxes (fst st'))
  /\ newest_first Item.timestamp (IndexedDBService.items (fst st'))
  /\ snd st' = snd st.
Proof.
  cbv zeta.
  rewrite (idb_restart_run ops s w Hopen Hmirrors Hboxes Hitems).
  destruct (idb_run_NoDup ops s w Hfresh) as [Hndb Hndi].
  cbn [fst snd IndexedDBService.boxes IndexedDBService.items].
  repeat split.
  - rewrite Array_sort_Permutation. now apply (getAll_table Box.id).
  - rewrite Array_sort_Permutation. now apply (getAll_table Item.id).
  - apply Array_sort_newest_first.
  - apply Array_sort_newest_first.
Qed.

(** ** Before the database has opened *)

Lemma idb_step_closed o s w :
  is_open s = false ->
  exists s',
    idb_op o (s, w)
    = (if reaches_store s o
       then Threw (Rejected "Database not initialized")
       else Returned tt, (s', w))
    /\ is_open s' = false.
Proof.
  intros Hclosed.
  assert (Hput : forall n (v : StoreValue n) s0 w0,
             is_open s0 = false ->
             IndexedDBService.putToStore n v (s0, w0)
             = (Threw (Rejected "Database not initialized"), (s0, w0))).
  { intros n v s0 w0 H0. now rewrite putToStore_run, H0. }
  destruct o; simpl.
  - rewrite idb_addBox_run, Hput by exact Hclosed.
    eexists. split; [reflexivity|exact Hclosed].
  - destruct (Views.find_box (IndexedDBService.boxes s) boxId) as [box|] eqn:E.
    + rewrite (idb_addItem_run _ _ _ _ _ _ _ E), Hput by exact Hclosed.
      eexists. split; [reflexivity|exact Hclosed].
    + rewrite (idb_addItem_absent _ _ _ _ _ _ E).
      eexists. split; [reflexivity|exact Hclosed].
  - destruct (Views.find_box (IndexedDBService.boxes s) boxId) as [box|] eqn:E.
    + rewrite (idb_updateBoxStatus_run _ _ _ _ _ E), Hput by exact Hclosed.
      eexists. split; [reflexivity|exact Hclosed].
    + rewrite (idb_updateBoxStatus_absent _ _ _ _ E).
      eexists. split; [reflexivity|exact Hclosed].
  - eexists. split; [reflexivity|exact Hclosed].
  - destruct (List.find (fun i => String.eqb (Item.id i) itemId)
                (IndexedDBService.items s)) as [item|] eqn:E.
    + rewrite (idb_updateItem_run _ _ _ _ _ E), Hput by exact Hclosed.
      eexists. split; [reflexivity|exact Hclosed].
    + rewrite (idb_updateItem_absent _ _ _ _ E).
      eexists. split; [reflexivity|exact Hclosed].
  - rewrite idb_deleteItem_run, deleteFromStore_run.
    replace (is_open _) with false by (symmetry; exact Hclosed).
    eexists. split; [reflexivity|exact Hclosed].
Qed.

Lemma idb_run_closed ops : forall s w,
  is_open s = false ->
  snd (run_calls idb_op ops (s, w)) = w
  /\ is_open (fst (run_calls idb_op ops (s, w))) = false.
Proof.
  induction ops as [|o ops IH]; intros s w Hclosed.
  - now split.
  - destruct (idb_step_closed o s w Hclosed) as (s1 & Hrun & Hclosed1).
    rewrite run_calls_cons. unfold Prog.exec. rewrite Hrun. cbn [snd].
    now apply IH.
Qed.

(** X6. While the database has not opened (or after it failed to
    open), a call never reaches the stores: it rejects with
    'Database not initialized' exactly when it gets as far as a helper
    of the database, and returns otherwise; a whole session leaves
    localStorage, the stores and the console as they were, and the
    database closed. *)
Theorem X6_closed_database (o : Op) (ops : list Op)
    (s : IndexedDBService.t) (w : World)
    (Hclosed : is_open s = false) :
  Prog.outcome (idb_op o) (s, w)
  = (if reaches_store s o
     then Threw (Rejected "Database not initialized")
     else Returned tt)
  /\ snd (run_calls idb_op ops (s, w)) = w
  /\ is_open (fst (run_calls idb_op ops (s, w))) = false.
Proof.
  split.
  - destruct (idb_step_closed o s w Hclosed) as (s1 & Hrun & _).
    unfold Prog.outcome. now rewrite Hrun.
  - now apply idb_run_closed.
Qed.

(** ** What the migration leaves alone *)

Lemma put_all_keeps n (rs : list (StoreValue n)) : forall m k,
  is_Some (m !! k) -> is_Some (put_all n rs m !! k).
Proof.
  unfold put_all. induction rs as [|r rs IH]; intros m k Hk; [exact Hk|].
  simpl. apply IH. apply lookup_insert_is_Some.
  destruct (decide (keyPath_id n r = k)); [now left|now right].
Qed.

Lemma blob_migrated_keeps key n error_msg db_open json w :
  let w' := blob_migrated key n error_msg db_open json w in
  (forall n' k, is_Some (objectStore n' w !! k) ->
                is_Some (objectStore n' w' !! k))
  /\ (forall k, k <> key -> localStorage w' !! k = localStorage w !! k).
Proof.
  cbv zeta. unfold blob_migrated.
  destruct (JS.truthy json); [|now split].
  destruct (migration_attempt n db_open (default EmptyString json))
    as [rs e].
  assert (Hstore : forall n' k,
             is_Some (objectStore n' w !! k) ->
             is_Some (objectStore n'
                        (with_objectStore n w
                           (put_all n rs (objectStore n w))) !! k)).
  { intros n' k Hk.
    destruct n, n'; cbn;
      first [exact Hk
            |apply (put_all_keeps Store_boxes), Hk
            |apply (put_all_keeps Store_items), Hk]. }
  destruct e as [e|]; split.
  - intros n' k Hk. specialize (Hstore n' k Hk).
    destruct n, n'; exact Hstore.
  - intros k _. now destruct n.
  - intros n' k Hk. specialize (Hstore n' k Hk).
    destruct n, n'; exact Hstore.
  - intros k Hne. destruct n; cbn; now rewrite lookup_delete_ne.
Qed.

(** X7. The migration never loses a record and never reaches past its
    two blobs: whatever the blobs hold and whether or not the database
    is open, it returns; every id that a store held before it still
    has a record after it; every key of localStorage other than
    'clutter_boxes' and 'clutter_items' keeps its value; and the fields
    of the service are as before. *)
Theorem X7_migration_keeps_records (s : IndexedDBService.t) (w : World) :
  let r := IndexedDBService.migrateFromLocalStorage (s, w) in
  fst r = Returned tt
  /\ fst (snd r) = s
  /\ (forall n k, is_Some (objectStore n w !! k) ->
                  is_Some (objectStore n (snd (snd r)) !! k))
  /\ (forall k, k <> "clutter_boxes" -> k <> "clutter_items" ->
                localStorage (snd (snd r)) !! k = localStorage w !! k).
Proof.
  cbv zeta. rewrite migrate_run. cbn [fst snd]. cbv zeta.
  split; [reflexivity|]. split; [reflexivity|].
  destruct (negb (JS.truthy (localStorage w !! "clutter_boxes"))
            && negb (JS.truthy (localStorage w !! "clutter_items")));
    [now split|].
  match goal with
  | |- context [blob_migrated ?k2 ?n2 ?m2 ?o2 ?j2
                  (blob_migrated ?k1 ?n1 ?m1 ?o1 ?j1 ?w0)] =>
      destruct (blob_migrated_keeps k1 n1 m1 o1 j1 w0) as [Hs1 Hl1];
      destruct (blob_migrated_keeps k2 n2 m2 o2 j2
                  (blob_migrated k1 n1 m1 o1 j1 w0)) as [Hs2 Hl2]
  end.
  cbv zeta in Hs1, Hl1, Hs2, Hl2. split.
  - intros n k Hk. apply Hs2, Hs1. now destruct n.
  - intros k Hb Hi. rewrite Hl2, Hl1 by assumption. reflexivity.
Qed.

(** ** Adding an item and deleting it again *)

Lemma filter_other_ids (itemId : string) (l : list Item.t) :
  itemId ∉ List.map Item.id l ->
  List.filter (fun item => negb (String.eqb (Item.id item) itemId)) l = l.
Proof.
  induction l as [|i l IH]; simpl; intros H; [reflexivity|].
  apply not_elem_of_cons in H as [Hne Hin].
  destruct (String.eqb_spec (Item.id i) itemId) as [Heq|_]; simpl.
  - now symmetry in Heq.
  - now rewrite IH.
Qed.

Lemma legacy_add_delete uuid now boxId itemData s w :
  uuid ∉ List.map Item.id (LocalStorageService.items s) ->
  Prog.exec (LocalStorageService.deleteItem uuid)
    (Prog.exec (LocalStorageService.addItem uuid now boxId itemData) (s, w))
  = (s, w).
Proof.
  intros Hfresh. unfold Prog.exec at 2.
  destruct (Views.find_box (LocalStorageService.boxes s) boxId)
    as [box|] eqn:E.
  - rewrite (legacy_addItem_present _ _ _ _ _ _ _ E). cbn [snd].
    unfold Prog.exec, LocalStorageService.deleteItem, Prog.update_fields.
    cbn [fst snd LocalStorageService.items LocalStorageService.set_items
           List.filter Item.id Views.newItem].
    rewrite String.eqb_refl. cbn [negb].
    rewrite filter_other_ids by exact Hfresh. now destruct s.
  - rewrite (legacy_addItem_absent _ _ _ _ _ _ E). cbn [snd].
    unfold Prog.exec, LocalStorageService.deleteItem, Prog.update_fields.
    cbn [fst snd]. rewrite filter_other_ids by exact Hfresh. now destruct s.
Qed.

Lemma is_open_set_items l s :
  is_open (IndexedDBService.set_items l s) = is_open s.
Proof. reflexivity. Qed.

Lemma is_open_set_boxes l s :
  is_open (IndexedDBService.set_boxes l s) = is_open s.
Proof. reflexivity. Qed.

Lemma idb_addItem_exec uuid now boxId itemData s w :
  Prog.exec (IndexedDBService.addItem uuid now boxId itemData) (s, w)
  = match Views.find_box (IndexedDBService.boxes s) boxId with
    | Some box =>
        let newItem := Views.newItem uuid now boxId box itemData in
        (IndexedDBService.set_items (newItem :: IndexedDBService.items s) s,
         if is_open s
         then with_objectStore Store_items w
                (<[uuid := newItem]> (store_items w))
         else w)
    | None => (s, w)
    end.
Proof.
  unfold Prog.exec.
  destruct (Views.find_box (IndexedDBService.boxes s) boxId) as [box|] eqn:E.
  - rewrite (idb_addItem_run _ _ _ _ _ _ _ E), putToStore_run.
    rewrite is_open_set_items. now destruct (is_open s).
  - now rewrite (idb_addItem_absent _ _ _ _ _ _ E).
Qed.

Lemma idb_deleteItem_exec itemId s w :
  Prog.exec (IndexedDBService.deleteItem itemId) (s, w)
  = (IndexedDBService.set_items
       (List.filter (fun item => negb (String.eqb (Item.id item) itemId))
          (IndexedDBService.items s)) s,
     if is_open s
     then with_objectStore Store_items w (delete itemId (store_items w))
     else w).
Proof.
  unfold Prog.exec. rewrite idb_deleteItem_run, deleteFromStore_run.
  rewrite is_open_set_items. now destruct (is_open s).
Qed.

Lemma idb_add_delete uuid now boxId itemData s w :
  uuid ∉ List.map Item.id (IndexedDBService.items s) ->
  Prog.exec (IndexedDBService.deleteItem uuid)
    (Prog.exec (IndexedDBService.addItem uuid now boxId itemData) (s, w))
  = (s, if is_open s
        then with_objectStore Store_items w (delete uuid (store_items w))
        else w).
Proof.
  intros Hfresh. rewrite idb_addItem_exec.
  destruct (Views.find_box (IndexedDBService.boxes s) boxId) as [box|];
    cbv zeta; rewrite idb_deleteItem_exec.
  - rewrite is_open_set_items.
    cbn [IndexedDBService.db IndexedDBService.set_items
           IndexedDBService.items IndexedDBService.boxes
           IndexedDBService.currentBoxId List.filter Item.id Views.newItem].
    rewrite String.eqb_refl. cbn [negb].
    rewrite filter_other_ids by exact Hfresh.
    destruct s as [d bs its cur]. f_equal.
    destruct (is_open _); [|reflexivity].
    destruct w. cbn. now rewrite delete_insert_eq.
  - rewrite filter_other_ids by exact Hfresh. now destruct s.
Qed.

(** X8. Adding an item under an id that no item has and deleting it
    again leaves the boxes, the items and the pointer as they were, in
    both revisions, whether or not the box was there; with the database
    open the store of items is as before too, when it held nothing
    under that id. *)
Theorem X8_add_then_delete (uuid : string) (now : Z) (boxId : string)
    (itemData : PartialItem.t)
    (sl : LocalStorageService.t) (si : IndexedDBService.t) (w : World)
    (Hl : uuid ∉ List.map Item.id (LocalStorageService.items sl))
    (Hi : uuid ∉ List.map Item.id (IndexedDBService.items si)) :
  Prog.exec (LocalStorageService.deleteItem uuid)
    (Prog.exec (LocalStorageService.addItem uuid now boxId itemData) (sl, w))
  = (sl, w)
  /\
  let st := Prog.exec (IndexedDBService.deleteItem uuid)
              (Prog.exec (IndexedDBService.addItem uuid now boxId itemData)
                 (si, w)) in
  fst st = si
  /\ (store_items w !! uuid = None -> snd st = w).
Proof.
  split; [now apply legacy_add_delete|]. cbv zeta.
  rewrite idb_add_delete by exact Hi. cbn [fst snd].
  split; [reflexivity|]. intros Hnone.
  destruct (is_open si); [|reflexivity].
  rewrite delete_id by exact Hnone. now destruct w.
Qed.

(** ** Updating an item *)

Lemma merge_twice item updates :
  ItemUpdates.merge (ItemUpdates.merge item updates) updates
  = ItemUpdates.merge item updates.
Proof.
  destruct updates as [[?|] [?|] [?|] [?|] [?|] [?|] [?|]]; reflexivity.
Qed.

Lemma find_item_map itemId (u : Item.t) items item :
  Item.id u = itemId ->
  List.find (fun i => String.eqb (Item.id i) itemId) items = Some item ->
  List.find (fun i => String.eqb (Item.id i) itemId)
    (List.map (fun i => if String.eqb (Item.id i) itemId then u else i) items)
  = Some u.
Proof.
  intros Hu. induction items as [|i l IH]; simpl; [discriminate|].
  destruct (String.eqb_spec (Item.id i) itemId) as [Heq|Hne].
  - intros _. now rewrite Hu, String.eqb_refl.
  - destruct (String.eqb_spec (Item.id i) itemId); [contradiction|]. exact IH.
Qed.

Lemma map_replace_const_twice itemId (u : Item.t) items :
  Item.id u = itemId ->
  List.map (fun i => if String.eqb (Item.id i) itemId then u else i)
    (List.map (fun i => if String.eqb (Item.id i) itemId then u else i) items)
  = List.map (fun i => if String.eqb (Item.id i) itemId then u else i) items.
Proof.
  intros Hu. rewrite List.map_map. apply List.map_ext. intros i.
  destruct (String.eqb_spec (Item.id i) itemId) as [Heq|Hne].
  - now rewrite Hu, String.eqb_refl.
  - now destruct (String.eqb_spec (Item.id i) itemId).
Qed.

Lemma lookup_replace_other itemId (f : Item.t -> Item.t) items n i :
  items !! n = Some i -> Item.id i <> itemId ->
  List.map (fun i => if String.eqb (Item.id i) itemId then f i else i) items
    !! n = Some i.
Proof.
  intros Hn Hne. rewrite lookup_map, Hn. simpl.
  now destruct (String.eqb_spec (Item.id i) itemId).
Qed.

Lemma idb_updateItem_exec itemId updates s w :
  Prog.exec (IndexedDBService.updateItem itemId updates) (s, w)
  = match List.find (fun i => String.eqb (Item.id i) itemId)
            (IndexedDBService.items s) with
    | Some item =>
        let updatedItem := ItemUpdates.merge item updates in
        (IndexedDBService.set_items
           (List.map (fun i => if String.eqb (Item.id i) itemId
                               then updatedItem else i)
              (IndexedDBService.items s)) s,
         if is_open s
         then with_objectStore Store_items w
                (<[itemId := updatedItem]> (store_items w))
         else w)
    | None => (s, w)
    end.
Proof.
  unfold Prog.exec.
  destruct (List.find (fun i => String.eqb (Item.id i) itemId)
              (IndexedDBService.items s)) as [item|] eqn:E.
  - rewrite (idb_updateItem_run _ _ _ _ _ E), putToStore_run.
    rewrite is_open_set_items.
    apply find_item_Some in E as [_ Hid].
    destruct (is_open s); [|reflexivity]. cbn. now rewrite Hid.
  - now rewrite (idb_updateItem_absent _ _ _ _ E).
Qed.

(** X9. [updateItem] keeps every id in its place and every item under
    another id as it is, and a second call with the same updates
    changes nothing: not the signals, and not the stores either. Both
    revisions. *)
Theorem X9_updateItem_idempotent (itemId : string)
    (updates : ItemUpdates.t) (w : World) :
  (forall s,
      let st := Prog.exec (LocalStorageService.updateItem itemId updates)
                  (s, w) in
      List.map Item.id (LocalStorageService.items (fst st))
      = List.map Item.id (LocalStorageService.items s)
      /\ (forall n i,
             LocalStorageService.items s !! n = Some i ->
             Item.id i <> itemId ->
             LocalStorageService.items (fst st) !! n = Some i)
      /\ Prog.exec (LocalStorageService.updateItem itemId updates) st = st)
  /\
  (forall s,
      let st := Prog.exec (IndexedDBService.updateItem itemId updates)
                  (s, w) in
      List.map Item.id (IndexedDBService.items (fst st))
      = List.map Item.id (IndexedDBService.items s)
      /\ (forall n i,
             IndexedDBService.items s !! n = Some i ->
             Item.id i <> itemId ->
             IndexedDBService.items (fst st) !! n = Some i)
      /\ Prog.exec (IndexedDBService.updateItem itemId updates) st = st).
Proof.
  split; intros s; cbv zeta.
  - unfold Prog.exec, LocalStorageService.updateItem, Prog.update_fields.
    cbn [fst snd LocalStorageService.items LocalStorageService.set_items
           LocalStorageService.boxes LocalStorageService.currentBoxId].
    split; [|split].
    + apply (map_id_replace_items itemId
               (fun i => ItemUpdates.merge i updates)).
      intros i Hi. exact Hi.
    + intros n i.
      apply (lookup_replace_other itemId
               (fun i => ItemUpdates.merge i updates)).
    + f_equal. unfold LocalStorageService.set_items.
      cbn [LocalStorageService.items LocalStorageService.boxes
             LocalStorageService.currentBoxId].
      f_equal. rewrite List.map_map. apply List.map_ext. intros i.
      destruct (String.eqb_spec (Item.id i) itemId) as [Heq|Hne].
      * cbn [ItemUpdates.merge Item.id].
        destruct (String.eqb_spec (Item.id i) itemId); [|contradiction].
        apply merge_twice.
      * now destruct (String.eqb_spec (Item.id i) itemId).
  - rewrite idb_updateItem_exec.
    destruct (List.find (fun i => String.eqb (Item.id i) itemId)
                (IndexedDBService.items s)) as [item|] eqn:E; cbv zeta.
    + pose proof (find_item_Some _ _ _ E) as [_ Hid].
      assert (Hu : Item.id (ItemUpdates.merge item updates) = itemId)
        by exact Hid.
      cbn [fst snd IndexedDBService.items IndexedDBService.set_items].
      split; [|split].
      * apply (map_id_replace_items itemId
                 (fun _ => ItemUpdates.merge item updates)).
        intros i _. exact Hu.
      * intros n i.
        apply (lookup_replace_other itemId
                 (fun _ => ItemUpdates.merge item updates)).
      * rewrite idb_updateItem_exec.
        cbn [IndexedDBService.items IndexedDBService.set_items].
        rewrite (find_item_map _ _ _ _ Hu E). cbv zeta.
        rewrite merge_twice, is_open_set_items.
        f_equal.
        -- unfold IndexedDBService.set_items.
           cbn [IndexedDBService.items IndexedDBService.boxes
                  IndexedDBService.db IndexedDBService.currentBoxId].
           f_equal. now apply map_replace_const_twice.
        -- destruct (is_open s); [|reflexivity].
           destruct w. cbn. now rewrite insert_insert_eq.
    + cbn [fst snd]. split; [reflexivity|]. split; [auto|].
      rewrite idb_updateItem_exec. now rewrite E.
Qed.

(** ** What the views show after an addition *)

Lemma currentBox_newBox uuid now name boxes :
  Views.currentBox (Views.newBox uuid now name :: boxes) (Some uuid)
  = Some (Views.newBox uuid now name).
Proof.
  unfold Views.currentBox. cbn [List.find JS.strict_eq Views.newBox Box.id].
  now rewrite String.eqb_refl.
Qed.

Lemma view_of_unnamed_box items uuid :
  uuid ∉ List.map Item.boxId items ->
  Views.itemsInCurrentBox items (Some uuid) = [].
Proof.
  intros H. apply view_empty. intros i Hi [= ->]. apply H.
  apply list_elem_of_In, List.in_map, list_elem_of_In, Hi.
Qed.

(** X10. A new box opens empty: right after [addBox] the current box is
    the box just built, and when no item named its id before, the view
    of the current box shows no items. Both revisions, the transactional
    one whether or not its database has opened. *)
Theorem X10_new_box_opens_empty (uuid : string) (now : Z) (name : string)
    (sl : LocalStorageService.t) (si : IndexedDBService.t) (w : World)
    (Hl : uuid ∉ List.map Item.boxId (LocalStorageService.items sl))
    (Hi : uuid ∉ List.map Item.boxId (IndexedDBService.items si)) :
  (let s' := fst (Prog.exec (LocalStorageService.addBox uuid now name)
                    (sl, w)) in
   LocalStorageService.currentBox s' = Some (Views.newBox uuid now name)
   /\ LocalStorageService.itemsInCurrentBox s' = [])
  /\
  (let s' := fst (Prog.exec (IndexedDBService.addBox uuid now name)
                    (si, w)) in
   IndexedDBService.currentBox s' = Some (Views.newBox uuid now name)
   /\ IndexedDBService.itemsInCurrentBox s' = []).
Proof.
  split; cbv zeta.
  - unfold Prog.exec. rewrite legacy_addBox_run. cbn [fst snd].
    split; [apply currentBox_newBox|now apply view_of_unnamed_box].
  - rewrite idb_addBox_fields.
    split; [apply currentBox_newBox|now apply view_of_unnamed_box].
Qed.

Lemma sort_insert_top {A} (cmp : A -> A -> Z) (x : A) (l : list A) :
  (forall y, y ∈ l -> cmp x y <= 0) -> JS.sort_insert cmp x l = x :: l.
Proof.
  destruct l as [|y l]; simpl; intros H; [reflexivity|].
  destruct (Z.leb_spec (cmp x y) 0) as [_|Hgt]; [reflexivity|].
  specialize (H y (list_elem_of_here _ _)). lia.
Qed.

Lemma view_cons_newest items boxId (item : Item.t) :
  Item.boxId item = boxId ->
  (forall i, i ∈ items -> Item.timestamp i <= Item.timestamp item) ->
  Views.itemsInCurrentBox (item :: items) (Some boxId)
  = item :: Views.itemsInCurrentBox items (Some boxId).
Proof.
  intros Hbox Hnew. unfold Views.itemsInCurrentBox.
  cbn [List.filter JS.strict_eq]. rewrite Hbox, String.eqb_refl.
  unfold JS.Array_sort at 1. cbn [foldr].
  fold (JS.Array_sort (fun a b => Item.timestamp b - Item.timestamp a)
          (List.filter (fun i => String.eqb (Item.boxId i) boxId) items)).
  apply sort_insert_top. intros y Hy.
  rewrite Array_sort_Permutation in Hy.
  apply list_elem_of_In, List.filter_In in Hy as [Hy _].
  apply list_elem_of_In, Hnew in Hy. lia.
Qed.

(** X11. An item added to the box that is open, at a time no earlier
    than the timestamps of the items held, shows on top of the view of
    the current box, above what the view showed before. Both
    revisions. *)
Theorem X11_new_item_on_top (uuid : string) (now : Z) (boxId : string)
    (itemData : PartialItem.t) (box : Box.t)
    (sl : LocalStorageService.t) (si : IndexedDBService.t) (w : World)
    (Hbl : Views.find_box (LocalStorageService.boxes sl) boxId = Some box)
    (Hcl : LocalStorageService.currentBoxId sl = Some boxId)
    (Htl : forall i, i ∈ LocalStorageService.items sl ->
                     Item.timestamp i <= now)
    (Hbi : Views.find_box (IndexedDBService.boxes si) boxId = Some box)
    (Hci : IndexedDBService.currentBoxId si = Some boxId)
    (Hti : forall i, i ∈ IndexedDBService.items si ->
                     Item.timestamp i <= now) :
  LocalStorageService.itemsInCurrentBox
    (fst (Prog.exec (LocalStorageService.addItem uuid now boxId itemData)
            (sl, w)))
  = Views.newItem uuid now boxId box itemData
      :: LocalStorageService.itemsInCurrentBox sl
  /\
  IndexedDBService.itemsInCurrentBox
    (fst (Prog.exec (IndexedDBService.addItem uuid now boxId itemData)
            (si, w)))
  = Views.newItem uuid now boxId box itemData
      :: IndexedDBService.itemsInCurrentBox si.
Proof.
  split.
  - unfold Prog.exec. rewrite (legacy_addItem_present _ _ _ _ _ _ _ Hbl).
    cbn [fst snd]. unfold LocalStorageService.itemsInCurrentBox.
    cbn [LocalStorageService.items LocalStorageService.set_items
           LocalStorageService.currentBoxId].
    rewrite Hcl. now apply view_cons_newest.
  - rewrite idb_addItem_exec, Hbi. cbv zeta. cbn [fst].
    unfold IndexedDBService.itemsInCurrentBox.
    cbn [IndexedDBService.items IndexedDBService.set_items
           IndexedDBService.currentBoxId].
    rewrite Hci. now apply view_cons_newest.
Qed.

(** ** The order of the collections *)

Section LaterFirst.
Context (R : Z -> Z -> Prop) {A : Type} (key : A -> Z).

Lemma later_first_cons x l :
  later_first R key l -> (forall y, y ∈ l -> R (key y) (key x)) ->
  later_first R key (x :: l).
Proof.
  intros Hl Hx. constructor; [exact Hl|].
  apply Forall_forall. exact Hx.
Qed.

Lemma later_first_map (g : A -> A) l :
  (forall x, key (g x) = key x) ->
  later_first R key l -> later_first R key (List.map g l).
Proof.
  intros Hg. unfold later_first.
  induction 1 as [|x l Hl IH Hx]; simpl; constructor; [exact IH|].
  rewrite Forall_forall in Hx. apply Forall_forall. intros y Hy.
  apply list_elem_of_In, List.in_map_iff in Hy as (z & <- & Hz).
  rewrite !Hg. apply Hx. now apply list_elem_of_In.
Qed.

Lemma later_first_filter (p : A -> bool) l :
  later_first R key l -> later_first R key (List.filter p l).
Proof.
  unfold later_first.
  induction 1 as [|x l Hl IH Hx]; simpl; [constructor|].
  destruct (p x); [|exact IH]. constructor; [exact IH|].
  rewrite Forall_forall in Hx. apply Forall_forall. intros y Hy.
  apply list_elem_of_In, List.filter_In in Hy as [Hy _].
  apply Hx. now apply list_elem_of_In.
Qed.

End LaterFirst.

(** A sort of what is sorted already changes nothing. *)
Lemma Array_sort_sorted {A} (key : A -> Z) l :
  newest_first key l -> JS.Array_sort (descending key) l = l.
Proof.
  unfold newest_first.
  induction 1 as [|x l Hl IH Hx]; [reflexivity|].
  unfold JS.Array_sort. cbn [foldr].
  fold (JS.Array_sort (descending key) l). rewrite IH.
  apply sort_insert_top. intros y Hy. unfold descending.
  rewrite Forall_forall in Hx. specialize (Hx y Hy). lia.
Qed.

Section Chronological.
Context (R : Z -> Z -> Prop).

Lemma chronological_tail boxes items n clock :
  chronological R boxes items (n :: clock) ->
  chronological R boxes items clock.
Proof.
  intros (Hc & Hb & Hi & Hbound). repeat split; try assumption.
  - now apply StronglySorted_inv in Hc as [Hc _].
  - intros b Hb'. apply (Hbound n0); [now right|exact Hb'].
  - intros i Hi'. apply (Hbound n0); [now right|exact Hi'].
Qed.

Lemma legacy_step_chronological o ops s w :
  keeps_timestamp o ->
  chronological R (LocalStorageService.boxes s) (LocalStorageService.items s)
    (op_clock (o :: ops)) ->
  let s' := fst (Prog.exec (legacy_op o) (s, w)) in
  chronological R (LocalStorageService.boxes s')
    (LocalStorageService.items s') (op_clock ops).
Proof.
  intros Hkeep Hch. cbv zeta. destruct o; cbn [legacy_op op_clock omap] in *.
  - fold (op_clock ops) in *.
    pose proof (chronological_tail _ _ _ _ Hch) as (Hc' & _).
    destruct Hch as (Hc & Hb & Hi & Hbound).
    apply StronglySorted_inv in Hc as [_ Hnow].
    rewrite Forall_forall in Hnow.
    unfold Prog.exec. rewrite legacy_addBox_run. cbn [fst snd].
    cbn [LocalStorageService.boxes LocalStorageService.items].
    repeat split; try assumption.
    + apply later_first_cons; [exact Hb|].
      intros y Hy. apply (Hbound now); [left|exact Hy].
    + intros b Hb'. apply elem_of_cons in Hb' as [->|Hb'].
      * now apply Hnow.
      * apply (Hbound n); [now right|exact Hb'].
    + intros i Hi'. apply (Hbound n); [now right|exact Hi'].
  - fold (op_clock ops) in *.
    destruct (Views.find_box (LocalStorageService.boxes s) boxId) as [box|]
      eqn:E; unfold Prog.exec.
    + rewrite (legacy_addItem_present _ _ _ _ _ _ _ E). cbn [fst snd].
      pose proof (chronological_tail _ _ _ _ Hch) as (Hc' & _).
      destruct Hch as (Hc & Hb & Hi & Hbound).
      apply StronglySorted_inv in Hc as [_ Hnow].
      rewrite Forall_forall in Hnow.
      cbn [LocalStorageService.boxes LocalStorageService.items
             LocalStorageService.set_items].
      repeat split; try assumption.
      * apply later_first_cons; [exact Hi|].
        intros y Hy. apply (Hbound now); [left|exact Hy].
      * intros b Hb'. apply (Hbound n); [now right|exact Hb'].
      * intros i Hi'. apply elem_of_cons in Hi' as [->|Hi'].
        -- now apply Hnow.
        -- apply (Hbound n); [now right|exact Hi'].
    + rewrite (legacy_addItem_absent _ _ _ _ _ _ E). cbn [fst snd].
      eapply chronological_tail, Hch.
  - fold (op_clock ops) in *. destruct Hch as (Hc & Hb & Hi & Hbound).
    cbn.
    assert (Hg : forall b : Box.t,
               Box.createdAt (if String.eqb (Box.id b) boxId
                              then Box.with_isFull b isFull else b)
               = Box.createdAt b).
    { intros b. now destruct (String.eqb (Box.id b) boxId). }
    repeat split; try assumption.
    + now apply later_first_map.
    + intros b Hb'.
      apply list_elem_of_In, List.in_map_iff in Hb' as (z & <- & Hz).
      rewrite Hg. apply (Hbound n); [assumption|].
      now apply list_elem_of_In.
    + intros i Hi'. now apply (Hbound n).
  - exact Hch.
  - fold (op_clock ops) in *. destruct Hch as (Hc & Hb & Hi & Hbound).
    cbn.
    assert (Hg : forall i : Item.t,
               Item.timestamp (if String.eqb (Item.id i) itemId
                               then ItemUpdates.merge i updates else i)
               = Item.timestamp i).
    { intros i. destruct (String.eqb (Item.id i) itemId); [|reflexivity].
      cbn. now rewrite Hkeep. }
    repeat split; try assumption.
    + now apply later_first_map.
    + intros b Hb'. now apply (Hbound n).
    + intros i Hi'.
      apply list_elem_of_In, List.in_map_iff in Hi' as (z & <- & Hz).
      rewrite Hg. apply (Hbound n); [assumption|].
      now apply list_elem_of_In.
  - fold (op_clock ops) in *. destruct Hch as (Hc & Hb & Hi & Hbound).
    cbn. repeat split; try assumption.
    + now apply later_first_filter.
    + intros b Hb'. now apply (Hbound n).
    + intros i Hi'.
      apply list_elem_of_In, List.filter_In in Hi' as [Hi' _].
      apply (Hbound n); [assumption|]. now apply list_elem_of_In.
Qed.

Lemma legacy_run_chronological ops : forall s w,
  Forall keeps_timestamp ops ->
  chronological R (LocalStorageService.boxes s) (LocalStorageService.items s)
    (op_clock ops) ->
  let s' := fst (run_calls legacy_op ops (s, w)) in
  later_first R Box.createdAt (LocalStorageService.boxes s')
  /\ later_first R Item.timestamp (LocalStorageService.items s').
Proof.
  induction ops as [|o ops IH]; intros s w Hkeep Hch; cbv zeta.
  - destruct Hch as (_ & Hb & Hi & _). now split.
  - apply Forall_cons in Hkeep as [Ho Hkeep].
    rewrite run_calls_cons, legacy_exec_pair.
    apply IH; [assumption|]. now apply legacy_step_chronological.
Qed.

End Chronological.

(** X12. The collections stay newest first: from collections that are
    newest first, through a session whose clock does not run backwards
    and in which no [updateItem] rewrites a timestamp, the boxes and
    the items are newest first at the end, and the view of the current
    box is the items of that box in the order of the collection: its
    sort moves nothing. Both revisions (the transactional one under new
    ids that do not repeat an id). *)
Theorem X12_collections_stay_sorted (ops : list Op)
    (Hkeep : Forall keeps_timestamp ops) :
  (forall s w,
      chronological Z.le (LocalStorageService.boxes s)
        (LocalStorageService.items s) (op_clock ops) ->
      let s' := fst (run_calls legacy_op ops (s, w)) in
      newest_first Box.createdAt (LocalStorageService.boxes s')
      /\ newest_first Item.timestamp (LocalStorageService.items s')
      /\ LocalStorageService.itemsInCurrentBox s'
         = List.filter
             (fun i => JS.strict_eq (Item.boxId i)
                         (LocalStorageService.currentBoxId s'))
             (LocalStorageService.items s'))
  /\
  (forall s w,
      fresh_uuids (IndexedDBService.boxes s) (IndexedDBService.items s)
        ops ->
      chronological Z.le (IndexedDBService.boxes s)
        (IndexedDBService.items s) (op_clock ops) ->
      let s' := fst (run_calls idb_op ops (s, w)) in
      newest_first Box.createdAt (IndexedDBService.boxes s')
      /\ newest_first Item.timestamp (IndexedDBService.items s')
      /\ IndexedDBService.itemsInCurrentBox s'
         = List.filter
             (fun i => JS.strict_eq (Item.boxId i)
                         (IndexedDBService.currentBoxId s'))
             (IndexedDBService.items s')).
Proof.
  assert (Hview : forall items cur,
             newest_first Item.timestamp items ->
             Views.itemsInCurrentBox items cur
             = List.filter (fun i => JS.strict_eq (Item.boxId i) cur) items).
  { intros items cur Hs. unfold Views.itemsInCurrentBox.
    apply (Array_sort_sorted Item.timestamp).
    now apply (later_first_filter Z.le). }
  split.
  - intros s w Hch. cbv zeta.
    destruct (legacy_run_chronological Z.le ops s w Hkeep Hch) as [Hb Hi].
    split; [exact Hb|]. split; [exact Hi|]. now apply Hview.
  - intros s w Hfresh Hch. cbv zeta.
    destruct (idb_run_agree ops s w w Hfresh) as [Hs _].
    destruct (legacy_run_chronological Z.le ops (signals_of s) w Hkeep Hch)
      as [Hb Hi].
    rewrite <- Hs in Hb, Hi. simpl in Hb, Hi.
    split; [exact Hb|]. split; [exact Hi|]. now apply Hview.
Qed.

(** A sorted reading of records that are in strict order already is
    those records in their order. *)
Lemma sorted_reload {A} (key : A -> Z) (loaded held : list A) :
  loaded ≡ₚ held -> newest_first key loaded -> later_first Z.lt key held ->
  loaded = held.
Proof.
  unfold newest_first, later_first. intros Hperm Hl. revert held Hperm.
  induction Hl as [|x1 l1 Hl1 IH Hx1]; intros held Hperm Hh.
  - symmetry. now apply Permutation_nil.
  - destruct Hh as [|x2 l2 Hl2 Hx2].
    + now apply Permutation_nil_r in Hperm.
    + rewrite Forall_forall in Hx1, Hx2.
      assert (Hin2 : x2 ∈ x1 :: l1) by (rewrite Hperm; left).
      assert (Hin1 : x1 ∈ x2 :: l2) by (rewrite <- Hperm; left).
      assert (Heq : x1 = x2).
      { apply elem_of_cons in Hin2 as [->|Hin2]; [reflexivity|].
        apply elem_of_cons in Hin1 as [->|Hin1]; [reflexivity|].
        specialize (Hx1 x2 Hin2). specialize (Hx2 x1 Hin1). lia. }
      subst x2. f_equal. apply IH; [|exact Hl2].
      now apply Permutation_cons_inv in Hperm.
Qed.

(** X13. With a clock that never answers the same time twice, a
    restart restores the collections exactly: after a session as in X5
    whose times are in strict order and in which no [updateItem]
    rewrites a timestamp, the constructor of a fresh service holds the
    same list of boxes and the same list of items as the session's
    end. The pointer to the current box is not stored: it is null
    again. *)
Theorem X13_restart_restores_exactly (ops : list Op)
    (s : IndexedDBService.t) (w : World)
    (Hopen : is_open s = true) (Hmirrors : mirrors s w)
    (Hfresh : fresh_uuids (IndexedDBService.boxes s)
                (IndexedDBService.items s) ops)
    (Hkeep : Forall keeps_timestamp ops)
    (Hclock : chronological Z.lt (IndexedDBService.boxes s)
                (IndexedDBService.items s) (op_clock ops))
    (Hboxes : JS.truthy (localStorage w !! "clutter_boxes") = false)
    (Hitems : JS.truthy (localStorage w !! "clutter_items") = false) :
  let st := run_calls idb_op ops (s, w) in
  let st' := Prog.exec (IndexedDBService.constructor true)
               (IndexedDBService.initial, snd st) in
  IndexedDBService.boxes (fst st') = IndexedDBService.boxes (fst st)
  /\ IndexedDBService.items (fst st') = IndexedDBService.items (fst st)
  /\ IndexedDBService.currentBoxId (fst st') = None.
Proof.
  cbv zeta.
  rewrite (idb_restart_run ops s w Hopen Hmirrors Hboxes Hitems).
  destruct (idb_run_NoDup ops s w Hfresh) as [Hndb Hndi].
  destruct (idb_run_agree ops s w w Hfresh) as [Hs _].
  destruct (legacy_run_chronological Z.lt ops (signals_of s) w Hkeep Hclock)
    as [Hb Hi].
  rewrite <- Hs in Hb, Hi. simpl in Hb, Hi.
  cbn [fst snd IndexedDBService.boxes IndexedDBService.items
         IndexedDBService.currentBoxId].
  split; [|split; [|reflexivity]].
  - apply (sorted_reload Box.createdAt); [|apply Array_sort_newest_first|
                                           exact Hb].
    rewrite Array_sort_Permutation. now apply (getAll_table Box.id).
  - apply (sorted_reload Item.timestamp); [|apply Array_sort_newest_first|
                                             exact Hi].
    rewrite Array_sort_Permutation. now apply (getAll_table Item.id).
Qed.

(** * The component *)

(** ** [GeminiService] *)

Lemma searchInventory_run {S} response query items (st : S * World) :
  GeminiService.searchInventory response query items st
  = (Returned (matched_ids response),
     (fst st, gemini_logged "Search Error:" response (snd st))).
Proof. destruct st as [s w]. now destruct response. Qed.

Lemma analyzeItem_run {S} response imageBase64 userDescription
    (st : S * World) :
  GeminiService.analyzeItem response imageBase64 userDescription st
  = (Returned (analysis_of response userDescription),
     (fst st, gemini_logged "Gemini Analysis Error:" response (snd st))).
Proof. destruct st as [s w]. now destruct response. Qed.

(** ** Calls of the service from the component *)

Lemma not_awaited_run {A} (m : Prog IndexedDBService.t A) s w :
  App.not_awaited m (s, w)
  = (Returned tt,
     (App.set_inventory (fst (Prog.exec m (App.inventory s, w))) s,
      snd (Prog.exec m (App.inventory s, w)))).
Proof.
  unfold App.not_awaited, App.on_inventory, Prog.exec. prog_simpl.
  now destruct (m (App.inventory s, w)) as [r [inv w']].
Qed.

Lemma List_filter_sublist {A} (p : A -> bool) (l : list A) :
  sublist (List.filter p l) l.
Proof.
  induction l as [|x l IH]; simpl; [constructor|].
  destruct (p x); now constructor.
Qed.

Lemma Array_includes_elem_of l s : Array_includes l s = true <-> s ∈ l.
Proof.
  unfold Array_includes. rewrite List.existsb_exists. split.
  - intros (x & Hx & Heq). apply String.eqb_eq in Heq. subst x.
    now apply list_elem_of_In.
  - intros H. exists s. split; [now apply list_elem_of_In|].
    apply String.eqb_refl.
Qed.

(** ** Searching *)

Lemma performSearch_blank response query s w :
  JS.truthy (Some (JS.trim query)) = false ->
  App.performSearch response query (s, w) = (Returned tt, (s, w)).
Proof. intros H. unfold App.performSearch. now rewrite H. Qed.

Lemma performSearch_run response query s w :
  JS.truthy (Some (JS.trim query)) = true ->
  App.performSearch response query (s, w)
  = (Returned tt,
     (App.set_isSearching false
        (App.set_searchResults
           (List.filter
              (fun item =>
                 Array_includes (matched_ids response) (Item.id item))
              (IndexedDBService.items (App.inventory s)))
           (App.set_searchPerformed true (App.set_isSearching true s))),
      gemini_logged "Search Error:" response w)).
Proof.
  intros H. unfold App.performSearch. rewrite H. cbn [negb].
  unfold try_finally, mbind, Prog_bind, Prog.bind, Prog.update_fields,
    Prog.get_fields.
  cbn [fst snd]. rewrite searchInventory_run. reflexivity.
Qed.

(** X14. A search shows items of the inventory only. On a blank query
    [performSearch] changes nothing. On any other query it returns
    with the spinner off and [searchPerformed] set, leaves the
    inventory alone, and its results are exactly the items of the
    inventory whose id the model returned, in the order of the
    inventory (not of the model's ranking): an id that no item has is
    dropped. When the request or its parse fails the results are
    empty and the console has the line 'Search Error:'. *)
Theorem X14_search_results_in_inventory
    (response : GeminiService.Response GeminiService.Matches)
    (query : string) (s : App.t) (w : World) :
  let r := App.performSearch response query (s, w) in
  let s' := fst (snd r) in
  fst r = Returned tt
  /\ (JS.trim query = EmptyString -> snd r = (s, w))
  /\ (JS.trim query <> EmptyString ->
      App.isSearching s' = false
      /\ App.searchPerformed s' = true
      /\ App.inventory s' = App.inventory s
      /\ sublist (App.searchResults s')
           (IndexedDBService.items (App.inventory s))
      /\ (forall i, i ∈ App.searchResults s'
                    <-> i ∈ IndexedDBService.items (App.inventory s)
                        /\ Item.id i ∈ matched_ids response)
      /\ snd (snd r) = gemini_logged "Search Error:" response w)
  /\ (forall error, response = GeminiService.Failed error ->
      JS.trim query <> EmptyString ->
      App.searchResults s' = []
      /\ console (snd (snd r))
         = console w ++ [console_error "Search Error:" (Some error)]).
Proof.
  cbv zeta.
  destruct (JS.truthy (Some (JS.trim query))) eqn:Hq.
  - assert (Hne : JS.trim query <> EmptyString).
    { intros Heq. rewrite Heq in Hq. discriminate. }
    rewrite (performSearch_run _ _ _ _ Hq). cbn [fst snd].
    split; [reflexivity|]. split; [contradiction|]. split.
    + intros _.
      split; [reflexivity|]. split; [reflexivity|]. split; [reflexivity|].
      split; [apply List_filter_sublist|]. split; [|reflexivity].
      intros i. cbn. rewrite !list_elem_of_In, List.filter_In.
      now rewrite Array_includes_elem_of, list_elem_of_In.
    + intros error -> _. cbn. split; [|reflexivity].
      induction (IndexedDBService.items (App.inventory s)) as [|i l IH];
        [reflexivity|exact IH].
  - assert (Heq : JS.trim query = EmptyString).
    { simpl in Hq. now destruct (String.eqb_spec (JS.trim query) EmptyString). }
    rewrite (performSearch_blank _ _ _ _ Hq). cbn [fst snd].
    split; [reflexivity|]. split; [reflexivity|].
    split; [contradiction|]. intros error _ Hne. contradiction.
Qed.

(** ** Capturing an item *)

Lemma currentBox_find boxes boxId :
  Views.currentBox boxes (Some boxId) = Views.find_box boxes boxId.
Proof. reflexivity. Qed.

Lemma try_finally_returned {S A} (m : Prog S A) (f : S -> S) st :
  try_finally m (Prog.update_fields f) st
  = (fst (m st), (f (fst (snd (m st))), snd (snd (m st)))).
Proof.
  unfold try_finally, Prog.update_fields.
  now destruct (m st) as [r [s' w']].
Qed.

(** [onImageCaptured] up to its [await]. *)
Lemma onImageCaptured_request_no_box s w :
  JS.truthy (IndexedDBService.currentBoxId (App.inventory s)) = false ->
  App.onImageCaptured_request (s, w) = (Returned None, (s, w)).
Proof.
  intros H. unfold App.onImageCaptured_request.
  unfold mbind at 1. unfold Prog_bind, Prog.bind at 1.
  unfold Prog.get_fields at 1. cbn [fst snd]. now rewrite H.
Qed.

Lemma onImageCaptured_request_sealed s w currentBox :
  JS.truthy (IndexedDBService.currentBoxId (App.inventory s)) = true ->
  IndexedDBService.currentBox (App.inventory s) = Some currentBox ->
  Box.isFull currentBox = true ->
  App.onImageCaptured_request (s, w)
  = (Returned None,
     (App.set_alerts
        (App.alerts s
           ++ ["This box is sealed. Please re-open it to add items."]) s,
      w)).
Proof.
  intros Ht Hbox Hfull. unfold App.onImageCaptured_request.
  unfold mbind at 1. unfold Prog_bind, Prog.bind at 1.
  unfold Prog.get_fields at 1. cbn [fst snd].
  now rewrite Ht, Hbox, Hfull.
Qed.

Lemma onImageCaptured_request_open s w :
  JS.truthy (IndexedDBService.currentBoxId (App.inventory s)) = true ->
  match IndexedDBService.currentBox (App.inventory s) with
  | Some currentBox => Box.isFull currentBox = false
  | None => True
  end ->
  App.onImageCaptured_request (s, w)
  = (Returned (Some (description_sent s)), (App.set_isProcessing true s, w)).
Proof.
  intros Ht Hopen. unfold App.onImageCaptured_request.
  unfold mbind at 1. unfold Prog_bind, Prog.bind at 1.
  unfold Prog.get_fields at 1. cbn [fst snd]. rewrite Ht. cbn [negb].
  assert (Hseal : match IndexedDBService.currentBox (App.inventory s) with
                  | Some currentBox => Box.isFull currentBox
                  | None => false
                  end = false).
  { destruct (IndexedDBService.currentBox _); [exact Hopen|reflexivity]. }
  now rewrite Hseal.
Qed.

(** [onImageCaptured] from its [await] on, on any component. *)
Lemma onImageCaptured_resume_run response uuid now base64Image desc s w :
  App.onImageCaptured_resume response uuid now base64Image desc (s, w)
  = let w1 := gemini_logged "Gemini Analysis Error:" response w in
    match analysis_of response desc with
    | None =>
        (Returned tt,
         (App.set_isProcessing false
            (App.set_alerts
               (App.alerts s
                  ++ ["Failed to analyze item. Please try again."]) s),
          with_console w1
            (console w1 ++ [console_error EmptyString (Some TypeError)])))
    | Some analysis =>
        match IndexedDBService.currentBoxId (App.inventory s) with
        | Some boxId =>
            let st := Prog.exec
                        (IndexedDBService.addItem uuid now boxId
                           (captured base64Image analysis))
                        (App.inventory s, w1) in
            (Returned tt,
             (App.set_isProcessing false
                (App.set_itemDescriptionControl (Some EmptyString)
                   (App.set_inventory (fst st) s)),
              snd st))
        | None =>
            (Returned tt,
             (App.set_isProcessing false
                (App.set_itemDescriptionControl (Some EmptyString) s),
              w1))
        end
    end.
Proof.
  unfold App.onImageCaptured_resume. rewrite try_finally_returned.
  unfold Prog.try_catch, mbind, Prog_bind, Prog.bind.
  rewrite analyzeItem_run. cbn [fst snd].
  unfold Prog.get_fields. cbn [fst snd]. cbv zeta.
  destruct (analysis_of response desc) as [analysis|].
  - destruct (IndexedDBService.currentBoxId (App.inventory s)) as [boxId|].
    + rewrite not_awaited_run. unfold Prog.update_fields. reflexivity.
    + reflexivity.
  - reflexivity.
Qed.

(** The capture that gets past the two guards, when nothing else runs
    while it waits. *)
Lemma onImageCaptured_open response uuid now base64Image s w :
  JS.truthy (IndexedDBService.currentBoxId (App.inventory s)) = true ->
  match IndexedDBService.currentBox (App.inventory s) with
  | Some currentBox => Box.isFull currentBox = false
  | None => True
  end ->
  App.onImageCaptured response uuid now base64Image (s, w)
  = App.onImageCaptured_resume response uuid now base64Image
      (description_sent s) (App.set_isProcessing true s, w).
Proof.
  intros Ht Hopen. unfold App.onImageCaptured.
  unfold mbind at 1. unfold Prog_bind, Prog.bind at 1.
  now rewrite (onImageCaptured_request_open _ _ Ht Hopen).
Qed.

Lemma onImageCaptured_run response uuid now base64Image s w boxId :
  IndexedDBService.currentBoxId (App.inventory s) = Some boxId ->
  boxId <> EmptyString ->
  match Views.find_box (IndexedDBService.boxes (App.inventory s)) boxId with
  | Some currentBox => Box.isFull currentBox = false
  | None => True
  end ->
  App.onImageCaptured response uuid now base64Image (s, w)
  = let w1 := gemini_logged "Gemini Analysis Error:" response w in
    match analysis_of response (description_sent s) with
    | Some analysis =>
        let st := Prog.exec
                    (IndexedDBService.addItem uuid now boxId
                       (captured base64Image analysis))
                    (App.inventory s, w1) in
        (Returned tt,
         (App.set_isProcessing false
            (App.set_itemDescriptionControl (Some EmptyString)
               (App.set_inventory (fst st) (App.set_isProcessing true s))),
          snd st))
    | None =>
        (Returned tt,
         (App.set_isProcessing false
            (App.set_alerts
               (App.alerts s
                  ++ ["Failed to analyze item. Please try again."])
               (App.set_isProcessing true s)),
          with_console w1
            (console w1 ++ [console_error EmptyString (Some TypeError)])))
    end.
Proof.
  intros Hcur Hne Hopen.
  rewrite onImageCaptured_open.
  - rewrite onImageCaptured_resume_run. cbv zeta.
    cbn [App.inventory App.set_isProcessing App.alerts].
    now rewrite Hcur.
  - rewrite Hcur. cbn [JS.truthy].
    now destruct (String.eqb_spec boxId EmptyString).
  - unfold IndexedDBService.currentBox. rewrite Hcur.
    now rewrite currentBox_find.
Qed.

Lemma onImageCaptured_no_box response uuid now base64Image s w :
  JS.truthy (IndexedDBService.currentBoxId (App.inventory s)) = false ->
  App.onImageCaptured response uuid now base64Image (s, w)
  = (Returned tt, (s, w)).
Proof.
  intros H. unfold App.onImageCaptured.
  unfold mbind at 1. unfold Prog_bind, Prog.bind at 1.
  now rewrite (onImageCaptured_request_no_box _ _ H).
Qed.

Lemma onImageCaptured_sealed response uuid now base64Image s w currentBox :
  JS.truthy (IndexedDBService.currentBoxId (App.inventory s)) = true ->
  IndexedDBService.currentBox (App.inventory s) = Some currentBox ->
  Box.isFull currentBox = true ->
  App.onImageCaptured response uuid now base64Image (s, w)
  = (Returned tt,
     (App.set_alerts
        (App.alerts s
           ++ ["This box is sealed. Please re-open it to add items."]) s,
      w)).
Proof.
  intros Ht Hbox Hfull. unfold App.onImageCaptured.
  unfold mbind at 1. unfold Prog_bind, Prog.bind at 1.
  now rewrite (onImageCaptured_request_sealed _ _ _ Ht Hbox Hfull).
Qed.

Lemma truthy_Some (o : option string) :
  JS.truthy o = true -> exists s, o = Some s /\ s <> EmptyString.
Proof.
  destruct o as [s|]; simpl; [|discriminate].
  destruct (String.eqb_spec s EmptyString); [discriminate|].
  intros _. now exists s.
Qed.

(** X15. A capture, before and after its wait for the model. Up to
    the [await], [onImageCaptured] returns at once when no box is
    selected (pointer null or empty), changing nothing, and when the
    selected box is sealed, after the alert and nothing else; otherwise
    it only sets the spinner and sends the description of the form, or
    'No description provided.', with the picture. From the [await] on
    the handler runs on the component as the answer finds it, and the
    guards are not taken again: it returns with the spinner off, and
    boxes and pointer as they are. When the answer is [null], and only
    then, nothing is added: the component logs the [TypeError], shows
    'Failed to analyze item. Please try again.' and keeps the
    description. On every other answer, and on the stand-in
    'Unidentified Item' that [analyzeItem] makes of a failed request,
    the description is cleared, no alert is shown, and exactly one new
    item goes on top of the items, into the box that the pointer names
    at that moment and under that box's name, be the box sealed or
    not; when the pointer is null by then, or names no box, the capture
    is dropped without a word. When nothing else runs during the wait,
    the handler is the first half followed by the second. *)
Theorem X15_capture_in_two_halves
    (response : GeminiService.Response (option GeminiService.Analysis))
    (uuid : string) (now : Z) (base64Image : string)
    (s : App.t) (w : World) :
  let pointer := IndexedDBService.currentBoxId (App.inventory s) in
  (let r := App.onImageCaptured_request (s, w) in
   (JS.truthy pointer = false -> r = (Returned None, (s, w)))
   /\ (forall currentBox,
          JS.truthy pointer = true ->
          IndexedDBService.currentBox (App.inventory s) = Some currentBox ->
          Box.isFull currentBox = true ->
          r = (Returned None,
               (App.set_alerts
                  (App.alerts s
                     ++ ["This box is sealed. Please re-open it to add items."])
                  s, w)))
   /\ (JS.truthy pointer = true ->
       (forall currentBox,
           IndexedDBService.currentBox (App.inventory s) = Some currentBox ->
           Box.isFull currentBox = false) ->
       r = (Returned (Some (description_sent s)),
            (App.set_isProcessing true s, w))))
  /\ (forall desc,
         let r := App.onImageCaptured_resume response uuid now base64Image
                    desc (s, w) in
         let s' := fst (snd r) in
         let w' := snd (snd r) in
         fst r = Returned tt
         /\ App.isProcessing s' = false
         /\ IndexedDBService.boxes (App.inventory s')
            = IndexedDBService.boxes (App.inventory s)
         /\ IndexedDBService.currentBoxId (App.inventory s') = pointer
         /\ (analysis_of response desc = None
             <-> response = GeminiService.Replied None)
         /\ (response = GeminiService.Replied None ->
             App.inventory s' = App.inventory s
             /\ App.itemDescriptionControl s' = App.itemDescriptionControl s
             /\ App.alerts s'
                = App.alerts s
                    ++ ["Failed to analyze item. Please try again."]
             /\ w' = with_console w
                       (console w
                          ++ [console_error EmptyString (Some TypeError)]))
         /\ (forall analysis,
                analysis_of response desc = Some analysis ->
                App.itemDescriptionControl s' = Some EmptyString
                /\ App.alerts s' = App.alerts s
                /\ (forall boxId box,
                       pointer = Some boxId ->
                       Views.find_box
                         (IndexedDBService.boxes (App.inventory s)) boxId
                       = Some box ->
                       IndexedDBService.items (App.inventory s')
                       = Views.newItem uuid now boxId box
                           (captured base64Image analysis)
                           :: IndexedDBService.items (App.inventory s))
                /\ ((forall boxId,
                        pointer = Some boxId ->
                        Views.find_box
                          (IndexedDBService.boxes (App.inventory s)) boxId
                        = None) ->
                    App.inventory s' = App.inventory s
                    /\ w' = gemini_logged "Gemini Analysis Error:"
                              response w))
         /\ (forall error,
                response = GeminiService.Failed error ->
                analysis_of response desc
                = Some (GeminiService.mkAnalysis (Some "Unidentified Item")
                          (Some (String.append "Could not analyze item. "
                                   desc))
                          (Some ["unknown"]))))
  /\ App.onImageCaptured response uuid now base64Image (s, w)
     = match App.onImageCaptured_request (s, w) with
       | (Returned (Some desc), st) =>
           App.onImageCaptured_resume response uuid now base64Image desc st
       | (Returned None, st) => (Returned tt, st)
       | (Threw e, st) => (Threw e, st)
       end.
Proof.
  cbv zeta. split; [|split].
  - split; [|split].
    + apply onImageCaptured_request_no_box.
    + intros b. apply onImageCaptured_request_sealed.
    + intros Ht Hopen. apply onImageCaptured_request_open; [exact Ht|].
      destruct (IndexedDBService.currentBox (App.inventory s)) as [b|];
        [now apply Hopen|exact I].
  - intros desc. rewrite onImageCaptured_resume_run. cbv zeta.
    assert (Hnull : analysis_of response desc = None
                    <-> response = GeminiService.Replied None).
    { destruct response as [[a|]|e]; cbn; split; intros H;
        try discriminate; reflexivity. }
    destruct (analysis_of response desc) as [analysis|] eqn:Ha.
    + assert (Hne : response <> GeminiService.Replied None).
      { intros H. apply Hnull in H. discriminate. }
      destruct (IndexedDBService.currentBoxId (App.inventory s))
        as [boxId|] eqn:Hcur.
      * rewrite idb_addItem_exec.
        destruct (Views.find_box (IndexedDBService.boxes (App.inventory s))
                    boxId) as [box|] eqn:Hf; cbv zeta; cbn [fst snd].
        -- split; [reflexivity|]. split; [reflexivity|].
           split; [reflexivity|]. split; [exact Hcur|].
           split; [exact Hnull|]. split; [intros H; contradiction|].
           split.
           ++ intros a [= <-]. split; [reflexivity|].
              split; [reflexivity|]. split.
              ** intros k b [= <-]. rewrite Hf. intros [= <-]. reflexivity.
              ** intros Hnone. specialize (Hnone boxId eq_refl).
                 rewrite Hf in Hnone. discriminate.
           ++ intros error ->. cbn in Ha. now rewrite Ha.
        -- split; [reflexivity|]. split; [reflexivity|].
           split; [reflexivity|]. split; [exact Hcur|].
           split; [exact Hnull|]. split; [intros H; contradiction|].
           split.
           ++ intros a [= <-]. split; [reflexivity|].
              split; [reflexivity|]. split.
              ** intros k b [= <-]. rewrite Hf. discriminate.
              ** intros _. split; reflexivity.
           ++ intros error ->. cbn in Ha. now rewrite Ha.
      * cbn [fst snd].
        split; [reflexivity|]. split; [reflexivity|].
        split; [reflexivity|]. split; [exact Hcur|].
        split; [exact Hnull|]. split; [intros H; contradiction|].
        split.
        -- intros a [= <-]. split; [reflexivity|].
           split; [reflexivity|]. split.
           ++ intros k b. discriminate.
           ++ intros _. split; reflexivity.
        -- intros error ->. cbn in Ha. now rewrite Ha.
    + assert (Hr : response = GeminiService.Replied None) by now apply Hnull.
      cbn [fst snd].
      split; [reflexivity|]. split; [reflexivity|].
      split; [reflexivity|]. split; [reflexivity|].
      split; [exact Hnull|]. split.
      * intros _. subst response. repeat split.
      * split; [intros a; discriminate|].
        intros error ->. discriminate.
  - unfold App.onImageCaptured, mbind, Prog_bind, Prog.bind.
    now destruct (App.onImageCaptured_request (s, w)) as [[[d|]|e] st].
Qed.

(** ** Sealing and re-opening from the detail view *)

Lemma finishOrOpenBox_run s w currentBox :
  IndexedDBService.currentBox (App.inventory s) = Some currentBox ->
  App.finishOrOpenBox (s, w)
  = let st := Prog.exec
                (IndexedDBService.updateBoxStatus (Box.id currentBox)
                   (negb (Box.isFull currentBox)))
                (App.inventory s, w) in
    (Returned tt,
     (App.set_inventory
        (if Box.isFull currentBox then fst st
         else IndexedDBService.set_currentBoxId None (fst st)) s,
      snd st)).
Proof.
  intros Hbox. unfold App.finishOrOpenBox.
  unfold mbind at 1. unfold Prog_bind, Prog.bind at 1.
  unfold Prog.get_fields at 1. cbn [fst snd]. rewrite Hbox.
  destruct (Box.isFull currentBox); cbn [negb].
  - now rewrite not_awaited_run.
  - unfold mbind, Prog_bind, Prog.bind. rewrite not_awaited_run.
    reflexivity.
Qed.

Lemma finishOrOpenBox_none s w :
  IndexedDBService.currentBox (App.inventory s) = None ->
  App.finishOrOpenBox (s, w) = (Returned tt, (s, w)).
Proof.
  intros Hbox. unfold App.finishOrOpenBox.
  unfold mbind at 1. unfold Prog_bind, Prog.bind at 1.
  unfold Prog.get_fields at 1. cbn [fst snd]. now rewrite Hbox.
Qed.

(** X16. [finishOrOpenBox] flips the seal of the current box and of no
    other: without a current box it changes nothing; otherwise the
    service then finds the current box under its id with [isFull]
    negated, every box under another id keeps its place and value, and
    the items are as before. Re-opening stays in the box; sealing goes
    back to the list: the pointer is null, there is no current box and
    the view of its items is empty. *)
Theorem X16_finish_or_open_box (s : App.t) (w : World) :
  let r := App.finishOrOpenBox (s, w) in
  let inv := App.inventory s in
  let inv' := App.inventory (fst (snd r)) in
  fst r = Returned tt
  /\ (IndexedDBService.currentBox inv = None -> snd r = (s, w))
  /\ (forall currentBox,
         IndexedDBService.currentBox inv = Some currentBox ->
         Views.find_box (IndexedDBService.boxes inv') (Box.id currentBox)
         = Some (Box.with_isFull currentBox (negb (Box.isFull currentBox)))
         /\ (forall n b,
                IndexedDBService.boxes inv !! n = Some b ->
                Box.id b <> Box.id currentBox ->
                IndexedDBService.boxes inv' !! n = Some b)
         /\ IndexedDBService.items inv' = IndexedDBService.items inv
         /\ (Box.isFull currentBox = true ->
             IndexedDBService.currentBoxId inv'
             = IndexedDBService.currentBoxId inv)
         /\ (Box.isFull currentBox = false ->
             IndexedDBService.currentBoxId inv' = None
             /\ IndexedDBService.currentBox inv' = None
             /\ IndexedDBService.itemsInCurrentBox inv' = [])).
Proof.
  cbv zeta.
  destruct (IndexedDBService.currentBox (App.inventory s)) as [b|] eqn:Hbox.
  - rewrite (finishOrOpenBox_run _ _ _ Hbox). cbv zeta. cbn [fst snd].
    split; [reflexivity|]. split; [discriminate|].
    intros currentBox [= <-].
    assert (Hfind : Views.find_box
                      (IndexedDBService.boxes (App.inventory s)) (Box.id b)
                    = Some b).
    { unfold IndexedDBService.currentBox, Views.currentBox in Hbox.
      pose proof (List.find_some _ _ Hbox) as [_ Heq].
      apply strict_eq_true in Heq. rewrite Heq in Hbox. exact Hbox. }
    rewrite (idb_updateBoxStatus_fields _ _ _ _ _ Hfind).
    assert (Hboxes : forall inv0,
               inv0 = IndexedDBService.set_boxes
                        (List.map
                           (fun b0 => if String.eqb (Box.id b0) (Box.id b)
                                      then Box.with_isFull b
                                             (negb (Box.isFull b))
                                      else b0)
                           (IndexedDBService.boxes (App.inventory s)))
                        (App.inventory s) ->
               Views.find_box (IndexedDBService.boxes inv0) (Box.id b)
               = Some (Box.with_isFull b (negb (Box.isFull b)))
               /\ (forall n b0,
                      IndexedDBService.boxes (App.inventory s) !! n = Some b0 ->
                      Box.id b0 <> Box.id b ->
                      IndexedDBService.boxes inv0 !! n = Some b0)).
    { intros inv0 ->. cbn [IndexedDBService.boxes IndexedDBService.set_boxes].
      split.
      - apply (find_box_map (Box.id b)
                 (fun _ => Box.with_isFull b (negb (Box.isFull b))) _ b);
          [reflexivity|exact Hfind].
      - intros n b0. apply lookup_map_other. }
    destruct (Hboxes _ eq_refl) as [H1 H2].
    destruct (Box.isFull b) eqn:Hfull; cbn [App.inventory App.set_inventory].
    + split; [exact H1|]. split; [exact H2|]. split; [reflexivity|].
      split; [reflexivity|discriminate].
    + split; [exact H1|]. split; [exact H2|]. split; [reflexivity|].
      split; [discriminate|]. intros _. split; [reflexivity|].
      split.
      * unfold IndexedDBService.currentBox, Views.currentBox.
        cbn [IndexedDBService.currentBoxId IndexedDBService.set_currentBoxId
               JS.strict_eq].
        match goal with
        | |- List.find _ ?l = None => induction l; [reflexivity|assumption]
        end.
      * apply view_empty. intros i _. discriminate.
  - rewrite (finishOrOpenBox_none _ _ Hbox).
    split; [reflexivity|]. split; [reflexivity|]. discriminate.
Qed.

(** ** The microphones and the spinners *)

Lemma createNewBox_run uuid now name s w :
  App.createNewBox uuid now name (s, w)
  = if JS.truthy (Some (JS.trim name))
    then App.not_awaited (IndexedDBService.addBox uuid now (JS.trim name))
           (s, w)
    else (Returned tt, (s, w)).
Proof.
  unfold App.createNewBox, AppComponent.createNewBox.
  now destruct (JS.truthy (Some (JS.trim name))).
Qed.

Lemma stopListeningAll_run s w :
  App.stopListeningAll (s, w)
  = (Returned tt,
     (App.set_isListeningForSearch false
        (App.set_isListeningForItem false
           (App.set_isListeningForBox false s)), w)).
Proof. reflexivity. Qed.

Lemma stopListeningAll_settled s :
  App.isProcessing s = false -> App.isSearching s = false ->
  settled (App.set_isListeningForSearch false
             (App.set_isListeningForItem false
                (App.set_isListeningForBox false s))).
Proof. intros Hp Hs. repeat split; assumption. Qed.

Lemma startListening_settled started mode s w :
  settled s ->
  settled (fst (Prog.exec (App.startListening started mode) (s, w))).
Proof.
  intros (Hone & Hp & Hs & Hrec).
  unfold Prog.exec, App.startListening.
  unfold mbind at 1. unfold Prog_bind, Prog.bind at 1.
  unfold Prog.get_fields at 1. cbn [fst snd].
  destruct (App.recognition s) eqn:Hr; cbn [negb].
  - destruct mode, started; unfold App.stopListeningAll; prog_unfold; cbn;
      (split; [repeat split|]); (split; [exact Hp|]);
      (split; [exact Hs|]); intros Hf; cbn in Hf; congruence.
  - cbn. split; [exact Hone|]. split; [exact Hp|]. split; [exact Hs|].
    intros _. now apply Hrec.
Qed.

Lemma toggle_settled started mode (listening : App.t -> bool) s w :
  settled s ->
  settled (fst (Prog.exec
                  (s0 ← Prog.get_fields;
                   if listening s0 then App.stopListeningAll
                   else App.startListening started mode) (s, w))).
Proof.
  intros H. unfold Prog.exec.
  unfold mbind at 1. unfold Prog_bind, Prog.bind at 1.
  unfold Prog.get_fields at 1. cbn [fst snd].
  destruct (listening s).
  - rewrite stopListeningAll_run. cbn [fst snd].
    destruct H as (_ & Hp & Hs & _). now apply stopListeningAll_settled.
  - now apply startListening_settled.
Qed.

Lemma performSearch_settled response query s w :
  App.isProcessing s = false ->
  let s' := fst (Prog.exec (App.performSearch response query) (s, w)) in
  App.isListeningForBox s' = App.isListeningForBox s
  /\ App.isListeningForItem s' = App.isListeningForItem s
  /\ App.isListeningForSearch s' = App.isListeningForSearch s
  /\ App.recognition s' = App.recognition s
  /\ App.isProcessing s' = false
  /\ (App.isSearching s = false -> App.isSearching s' = false)
  /\ App.inventory s' = App.inventory s.
Proof.
  intros Hp. cbv zeta. unfold Prog.exec.
  destruct (JS.truthy (Some (JS.trim query))) eqn:Hq.
  - rewrite (performSearch_run _ _ _ _ Hq). cbn. now repeat split.
  - rewrite (performSearch_blank _ _ _ _ Hq). cbn. now repeat split.
Qed.

Lemma handleVoiceResult_stops response uuid now text s w :
  App.isProcessing s = false -> App.isSearching s = false ->
  exists s1 w1,
    App.isProcessing s1 = false /\ App.isSearching s1 = false
    /\ IndexedDBService.items (App.inventory s1)
       = IndexedDBService.items (App.inventory s)
    /\ Prog.exec (App.handleVoiceResult response uuid now text) (s, w)
       = (App.set_isListeningForSearch false
            (App.set_isListeningForItem false
               (App.set_isListeningForBox false s1)), w1).
Proof.
  intros Hp Hs.
  unfold Prog.exec, App.handleVoiceResult.
  unfold mbind at 1. unfold Prog_bind, Prog.bind at 1.
  unfold Prog.get_fields at 1. cbn [fst snd].
  unfold mbind, Prog_bind, Prog.bind.
  destruct (App.isListeningForBox s).
  - rewrite createNewBox_run.
    destruct (JS.truthy (Some (JS.trim text))).
    + rewrite not_awaited_run, stopListeningAll_run. cbn [fst snd].
      do 2 eexists. split; [|split; [|split; [|reflexivity]]];
        try assumption.
      cbn [App.inventory App.set_inventory].
      now rewrite idb_addBox_fields.
    + rewrite stopListeningAll_run. cbn [fst snd].
      do 2 eexists. split; [|split; [|split; [|reflexivity]]];
        try assumption; try reflexivity.
  - destruct (App.isListeningForItem s).
    + unfold Prog.update_fields at 1. cbn [fst snd].
      rewrite stopListeningAll_run. cbn [fst snd].
      do 2 eexists. split; [|split; [|split; [|reflexivity]]];
        try assumption; try reflexivity.
    + destruct (App.isListeningForSearch s).
      * unfold App.floating.
        pose proof (performSearch_settled response text s w Hp) as H.
        cbv zeta in H. unfold Prog.exec in H.
        destruct (App.performSearch response text (s, w)) as [r [s1 w1]].
        cbn [fst snd] in H.
        destruct H as (_ & _ & _ & _ & Hp1 & Hs1 & Hinv).
        rewrite stopListeningAll_run. cbn [fst snd].
        do 2 eexists. split; [|split; [|split; [|reflexivity]]]; auto.
        now rewrite Hinv.
      * unfold mret, Prog_ret, Prog.ret.
        rewrite stopListeningAll_run. cbn [fst snd].
        do 2 eexists. split; [|split; [|split; [|reflexivity]]];
        try assumption; try reflexivity.
Qed.

Lemma handleVoiceResult_settled response uuid now text s w :
  settled s ->
  let s' := fst (Prog.exec (App.handleVoiceResult response uuid now text)
                   (s, w)) in
  settled s' /\ quiet s'.
Proof.
  intros (_ & Hp & Hs & _). cbv zeta.
  destruct (handleVoiceResult_stops response uuid now text s w Hp Hs)
    as (s1 & w1 & Hp1 & Hs1 & _ & ->).
  cbn [fst]. split; [now apply stopListeningAll_settled|].
  repeat split.
Qed.

Lemma onImageCaptured_settled response uuid now base64Image s w :
  settled s ->
  settled (fst (Prog.exec
                  (App.onImageCaptured response uuid now base64Image)
                  (s, w))).
Proof.
  intros H. unfold Prog.exec.
  destruct (JS.truthy (IndexedDBService.currentBoxId (App.inventory s)))
    eqn:Ht.
  - destruct (truthy_Some _ Ht) as (k & Hcur & Hne).
    assert (Hrun : forall st,
               settled
                 (App.set_isProcessing false
                    (App.set_itemDescriptionControl (Some EmptyString)
                       (App.set_inventory st (App.set_isProcessing true s))))).
    { intros st. destruct H as (Hone & Hp & Hs & Hrec).
      split; [exact Hone|]. split; [reflexivity|]. split; [exact Hs|].
      exact Hrec. }
    assert (Hnull : forall l,
               settled
                 (App.set_isProcessing false
                    (App.set_alerts l (App.set_isProcessing true s)))).
    { intros l. destruct H as (Hone & Hp & Hs & Hrec).
      split; [exact Hone|]. split; [reflexivity|]. split; [exact Hs|].
      exact Hrec. }
    destruct (Views.find_box (IndexedDBService.boxes (App.inventory s)) k)
      as [b|] eqn:Hf.
    + destruct (Box.isFull b) eqn:Hfull.
      * rewrite (onImageCaptured_sealed _ _ _ _ _ _ b Ht);
          [exact H| |exact Hfull].
        unfold IndexedDBService.currentBox. now rewrite Hcur.
      * rewrite (onImageCaptured_run _ _ _ _ _ _ k Hcur Hne);
          [|now rewrite Hf].
        cbv zeta. destruct (analysis_of response (description_sent s));
          [apply Hrun|apply Hnull].
    + rewrite (onImageCaptured_run _ _ _ _ _ _ k Hcur Hne);
        [|now rewrite Hf].
      cbv zeta. destruct (analysis_of response (description_sent s));
        [apply Hrun|apply Hnull].
  - now rewrite onImageCaptured_no_box.
Qed.

Lemma handle_settled e s w :
  settled s -> settled (fst (Prog.exec (App.handle e) (s, w))).
Proof.
  intros H. destruct e; cbn [App.handle].
  - exact H.
  - exact H.
  - unfold Prog.exec. rewrite createNewBox_run.
    destruct (JS.truthy (Some (JS.trim name))); [|exact H].
    now rewrite not_awaited_run.
  - unfold Prog.exec, App.toggleBoxStatus. now rewrite not_awaited_run.
  - unfold Prog.exec.
    destruct (IndexedDBService.currentBox (App.inventory s)) as [b|] eqn:Hb.
    + rewrite (finishOrOpenBox_run _ _ _ Hb). exact H.
    + now rewrite (finishOrOpenBox_none _ _ Hb).
  - now apply onImageCaptured_settled.
  - destruct H as (Hone & Hp & Hs & Hrec).
    pose proof (performSearch_settled response query s w Hp) as H.
    cbv zeta in H. destruct H as (Hb & Hi & Hse & Hr & Hp' & Hs' & _).
    unfold settled, one_microphone. rewrite Hb, Hi, Hse, Hr.
    split; [exact Hone|]. split; [exact Hp'|]. split; [now apply Hs'|].
    exact Hrec.
  - now apply (toggle_settled started App.for_box App.isListeningForBox).
  - now apply (toggle_settled started App.for_item App.isListeningForItem).
  - now apply (toggle_settled started App.for_search
                 App.isListeningForSearch).
  - now apply handleVoiceResult_settled.
  - destruct H as (_ & Hp & Hs & _).
    now apply (stopListeningAll_settled s).
  - destruct H as (_ & Hp & Hs & _).
    now apply (stopListeningAll_settled s).
Qed.

(** X17. One microphone at most, and no spinner left on. From the
    component as its constructor leaves it, after any sequence of
    events (the user's clicks, captures and searches, whatever the
    model answers, and the recogniser's results, errors and ends,
    whether or not [recognition.start()] throws): at most one of the
    three listening flags is set, none is set in a browser without
    speech recognition, and [isProcessing] and [isSearching] are
    false. A voice result leaves no microphone on. *)
Theorem X17_one_microphone (supported : bool)
    (inventory : IndexedDBService.t) (events : list App.Event) (w : World) :
  let st0 := Prog.exec (App.constructor supported)
               (App.initial inventory, w) in
  let s' := fst (run_calls App.handle events st0) in
  settled s'
  /\ (forall response uuid now transcript w',
         quiet (fst (Prog.exec
                       (App.handle (App.OnResult response uuid now transcript))
                       (s', w')))).
Proof.
  cbv zeta.
  assert (H0 : settled (fst (Prog.exec (App.constructor supported)
                               (App.initial inventory, w)))).
  { destruct supported; cbn; repeat split; discriminate. }
  assert (Hrun : forall events st,
             settled (fst st) ->
             settled (fst (run_calls App.handle events st))).
  { clear. induction events as [|e events IH]; intros [s w] H; [exact H|].
    rewrite run_calls_cons. apply IH.
    now apply handle_settled. }
  split; [now apply Hrun|].
  intros response uuid now transcript w'.
  now apply handleVoiceResult_settled, Hrun.
Qed.

(** ** Speaking instead of typing *)

Lemma toggle_on_run (mode : App.ListeningMode) s w :
  App.recognition s = true -> quiet s ->
  Prog.exec
    (match mode with
     | App.for_box => App.toggleListeningForBox (Returned tt)
     | App.for_item => App.toggleListeningForItem (Returned tt)
     | App.for_search => App.toggleListeningForSearch (Returned tt)
     end) (s, w)
  = (match mode with
     | App.for_box => App.set_isListeningForBox true s
     | App.for_item => App.set_isListeningForItem true s
     | App.for_search => App.set_isListeningForSearch true s
     end, w).
Proof.
  intros Hrec (Hb & Hi & Hs).
  destruct s as [inv cm desc proc li lb res srch perf ls rec al].
  cbn in Hrec, Hb, Hi, Hs. subst.
  destruct mode; reflexivity.
Qed.

Lemma dictate_run response uuid now text s w :
  App.isListeningForBox s = false -> App.isListeningForItem s = true ->
  Prog.exec (App.handle (App.OnResult response uuid now text)) (s, w)
  = (let current :=
       JS.or_string (App.itemDescriptionControl s) EmptyString in
     App.set_isListeningForSearch false
       (App.set_isListeningForItem false
          (App.set_isListeningForBox false
             (App.set_itemDescriptionControl
                (Some (String.append current
                         (String.append
                            (if JS.truthy (Some current)
                             then " " else EmptyString) text))) s))),
     w).
Proof.
  intros Hb Hi.
  unfold Prog.exec, App.handle, App.recognition_onresult,
    App.handleVoiceResult.
  unfold mbind at 1. unfold Prog_bind, Prog.bind at 1.
  unfold Prog.get_fields at 1. cbn [fst snd]. rewrite Hb, Hi.
  unfold mbind, Prog_bind, Prog.bind, Prog.update_fields. cbn [fst snd].
  now rewrite stopListeningAll_run.
Qed.

(** X18. Speaking does what typing does. With a recogniser and no
    microphone on: switching the box microphone on and saying a name
    leaves the component as [createNewBox] of that name does; the
    search microphone and a query, as [performSearch] of that query
    does; and with the description empty, the item microphone and two
    phrases one after the other leave the two phrases in the
    description, one space between them, and everything else as it
    was. *)
Theorem X18_speaking_is_typing
    (response : GeminiService.Response GeminiService.Matches)
    (uuid : string) (now : Z) (text more : string)
    (s : App.t) (w : World)
    (Hrec : App.recognition s = true) (Hquiet : quiet s) :
  run_calls App.handle
    [App.ToggleListeningForBox (Returned tt);
     App.OnResult response uuid now text] (s, w)
  = Prog.exec (App.createNewBox uuid now text) (s, w)
  /\ run_calls App.handle
       [App.ToggleListeningForSearch (Returned tt);
        App.OnResult response uuid now text] (s, w)
     = Prog.exec (App.performSearch response text) (s, w)
  /\ (JS.truthy (App.itemDescriptionControl s) = false ->
      text <> EmptyString ->
      run_calls App.handle
        [App.ToggleListeningForItem (Returned tt);
         App.OnResult response uuid now text;
         App.ToggleListeningForItem (Returned tt);
         App.OnResult response uuid now more] (s, w)
      = (App.set_itemDescriptionControl
           (Some (String.append text (String.append " " more))) s, w)).
Proof.
  split; [|split].
  - unfold run_calls. cbn [fold_left App.handle].
    rewrite (toggle_on_run App.for_box s w Hrec Hquiet).
    unfold Prog.exec, App.recognition_onresult, App.handleVoiceResult.
    unfold mbind at 1. unfold Prog_bind, Prog.bind at 1.
    unfold Prog.get_fields at 1. cbn [fst snd].
    unfold mbind, Prog_bind, Prog.bind.
    cbn [App.isListeningForBox App.set_isListeningForBox].
    rewrite !createNewBox_run.
    destruct Hquiet as (Hb & Hi & Hs).
    destruct s as [inv cm desc proc li lb res srch perf ls rec al].
    cbn in Hb, Hi, Hs. subst.
    destruct (JS.truthy (Some (JS.trim text))).
    + rewrite !not_awaited_run. reflexivity.
    + reflexivity.
  - unfold run_calls. cbn [fold_left App.handle].
    rewrite (toggle_on_run App.for_search s w Hrec Hquiet).
    unfold Prog.exec, App.recognition_onresult, App.handleVoiceResult.
    unfold mbind at 1. unfold Prog_bind, Prog.bind at 1.
    unfold Prog.get_fields at 1. cbn [fst snd].
    unfold mbind, Prog_bind, Prog.bind.
    destruct Hquiet as (Hb & Hi & Hs).
    destruct s as [inv cm desc proc li lb res srch perf ls rec al].
    cbn in Hb, Hi, Hs. subst. cbn [App.isListeningForBox
      App.isListeningForItem App.isListeningForSearch
      App.set_isListeningForSearch].
    unfold App.floating.
    destruct (JS.truthy (Some (JS.trim text))) eqn:Hq.
    + rewrite !(performSearch_run _ _ _ _ Hq). reflexivity.
    + rewrite !(performSearch_blank _ _ _ _ Hq). reflexivity.
  - intros Hempty Htext.
    assert (Hcur : JS.or_string (App.itemDescriptionControl s) EmptyString
                   = EmptyString).
    { destruct (App.itemDescriptionControl s) as [d|]; [|reflexivity].
      simpl in *. destruct (String.eqb_spec d EmptyString); [reflexivity|].
      discriminate. }
    unfold run_calls. cbn [fold_left].
    change (App.handle (App.ToggleListeningForItem (Returned tt)))
      with (App.toggleListeningForItem (Returned tt)).
    rewrite (toggle_on_run App.for_item s w Hrec Hquiet).
    destruct Hquiet as (Hb & Hi & Hs).
    destruct s as [inv cm desc proc li lb res srch perf ls rec al].
    cbn in Hb, Hi, Hs, Hrec, Hcur. subst.
    assert (Happ : forall x, String.append EmptyString x = x)
      by reflexivity.
    rewrite dictate_run by reflexivity. cbv zeta.
    cbn [App.itemDescriptionControl App.set_isListeningForItem].
    rewrite Hcur. cbn [JS.truthy String.eqb negb]. rewrite !Happ.
    match goal with
    | |- context [Prog.exec (App.toggleListeningForItem _) (?s1, w)] =>
        rewrite (toggle_on_run App.for_item s1 w eq_refl);
          [|repeat split]
    end.
    rewrite dictate_run by reflexivity. cbv zeta.
    cbn [App.itemDescriptionControl App.set_isListeningForItem
           App.set_isListeningForBox App.set_isListeningForSearch
           App.set_itemDescriptionControl JS.or_string JS.truthy
           String.append].
    destruct (String.eqb_spec text EmptyString) as [|_]; [contradiction|].
    cbn [negb]. destruct (String.eqb_spec text EmptyString) as [|_];
      [contradiction|].
    reflexivity.
Qed.

(** ** The seal switch of a row *)

Lemma idb_updateBoxStatus_exec boxId isFull s w :
  Prog.exec (IndexedDBService.updateBoxStatus boxId isFull) (s, w)
  = match Views.find_box (IndexedDBService.boxes s) boxId with
    | Some box =>
        let updatedBox := Box.with_isFull box isFull in
        (IndexedDBService.set_boxes
           (List.map (fun b => if String.eqb (Box.id b) boxId
                               then updatedBox else b)
              (IndexedDBService.boxes s)) s,
         if is_open s
         then with_objectStore Store_boxes w
                (<[boxId := updatedBox]> (store_boxes w))
         else w)
    | None => (s, w)
    end.
Proof.
  unfold Prog.exec.
  destruct (Views.find_box (IndexedDBService.boxes s) boxId) as [box|] eqn:E.
  - rewrite (idb_updateBoxStatus_run _ _ _ _ _ E), putToStore_run.
    rewrite is_open_set_boxes.
    apply find_box_Some in E as [_ Hid].
    destruct (is_open s); [|reflexivity]. cbn. now rewrite Hid.
  - now rewrite (idb_updateBoxStatus_absent _ _ _ _ E).
Qed.

Lemma find_box_unique boxes box :
  NoDup (List.map Box.id boxes) -> box ∈ boxes ->
  Views.find_box boxes (Box.id box) = Some box.
Proof.
  intros Hnd Hin.
  destruct (Views.find_box boxes (Box.id box)) as [b|] eqn:E.
  - apply find_box_Some in E as [Hb Hid].
    f_equal. now apply (NoDup_map_eq Box.id boxes).
  - exfalso. unfold Views.find_box in E.
    apply list_elem_of_In in Hin.
    apply (List.find_none _ _ E) in Hin.
    now rewrite String.eqb_refl in Hin.
Qed.

Lemma map_replace_back (boxes : list Box.t) (box u : Box.t) :
  (forall b, b ∈ boxes -> Box.id b = Box.id box -> b = box) ->
  Box.id u = Box.id box ->
  List.map (fun b => if String.eqb (Box.id b) (Box.id box) then box else b)
    (List.map (fun b => if String.eqb (Box.id b) (Box.id box) then u else b)
       boxes)
  = boxes.
Proof.
  intros Huniq Hu. induction boxes as [|b l IH]; [reflexivity|].
  cbn [List.map]. f_equal.
  - destruct (String.eqb_spec (Box.id b) (Box.id box)) as [Heq|Hne].
    + rewrite Hu, String.eqb_refl. symmetry.
      apply Huniq; [left|exact Heq].
    + now destruct (String.eqb_spec (Box.id b) (Box.id box)).
  - apply IH. intros b0 Hb0. apply Huniq. now right.
Qed.

Lemma map_replace_box_twice boxId (u : Box.t) boxes :
  Box.id u = boxId ->
  List.map (fun b => if String.eqb (Box.id b) boxId then u else b)
    (List.map (fun b => if String.eqb (Box.id b) boxId then u else b) boxes)
  = List.map (fun b => if String.eqb (Box.id b) boxId then u else b) boxes.
Proof.
  intros Hu. rewrite List.map_map. apply List.map_ext. intros b.
  destruct (String.eqb_spec (Box.id b) boxId) as [Heq|Hne].
  - now rewrite Hu, String.eqb_refl.
  - now destruct (String.eqb_spec (Box.id b) boxId).
Qed.

Lemma toggleBoxStatus_exec box s w :
  Prog.exec (App.toggleBoxStatus box) (s, w)
  = (App.set_inventory
       (fst (Prog.exec
               (IndexedDBService.updateBoxStatus (Box.id box)
                  (negb (Box.isFull box))) (App.inventory s, w))) s,
     snd (Prog.exec
            (IndexedDBService.updateBoxStatus (Box.id box)
               (negb (Box.isFull box))) (App.inventory s, w))).
Proof.
  unfold Prog.exec at 1, App.toggleBoxStatus. now rewrite not_awaited_run.
Qed.

(** X19. The seal switch of a row. Clicked on a row, [toggleBoxStatus]
    writes the opposite of the seal that the row shows: clicked again
    on the same row as first shown, it changes nothing more. Clicked
    on a row of the list (no two boxes under one id) and then on that
    row as shown afterwards, it restores the component exactly, and
    the world too when the store held the box as the list showed
    it. *)
Theorem X19_seal_switch (box : Box.t) (s : App.t) (w : World) :
  let st1 := Prog.exec (App.toggleBoxStatus box) (s, w) in
  Prog.exec (App.toggleBoxStatus box) st1 = st1
  /\ (NoDup (List.map Box.id (IndexedDBService.boxes (App.inventory s))) ->
      box ∈ IndexedDBService.boxes (App.inventory s) ->
      let shown := Box.with_isFull box (negb (Box.isFull box)) in
      let st2 := Prog.exec (App.toggleBoxStatus shown) st1 in
      fst st2 = s
      /\ (store_boxes w !! Box.id box = Some box -> snd st2 = w)).
Proof.
  cbv zeta. split.
  - rewrite toggleBoxStatus_exec, idb_updateBoxStatus_exec.
    destruct (Views.find_box (IndexedDBService.boxes (App.inventory s))
                (Box.id box)) as [b|] eqn:E; cbv zeta; cbn [fst snd].
    + rewrite toggleBoxStatus_exec, idb_updateBoxStatus_exec.
      cbn [App.inventory App.set_inventory IndexedDBService.boxes
             IndexedDBService.set_boxes].
      destruct (find_box_Some _ _ _ E) as [_ Hid].
      rewrite (find_box_map (Box.id box)
                 (fun _ => Box.with_isFull b (negb (Box.isFull box))) _ b);
        [|intros; exact Hid|exact E].
      cbv zeta. rewrite is_open_set_boxes. cbn [fst snd].
      change (Box.with_isFull (Box.with_isFull b (negb (Box.isFull box)))
                (negb (Box.isFull box)))
        with (Box.with_isFull b (negb (Box.isFull box))).
      rewrite map_replace_box_twice by exact Hid.
      apply pair_equal_spec. split; [reflexivity|].
      destruct (is_open (App.inventory s)); [|reflexivity].
      destruct w. cbn. now rewrite insert_insert_eq.
    + rewrite toggleBoxStatus_exec, idb_updateBoxStatus_exec.
      cbn [App.inventory App.set_inventory]. rewrite E. cbn [fst snd].
      now destruct s.
  - intros Hnd Hin.
    pose proof (find_box_unique _ _ Hnd Hin) as E.
    rewrite toggleBoxStatus_exec, idb_updateBoxStatus_exec, E.
    cbv zeta. cbn [fst snd].
    rewrite toggleBoxStatus_exec, idb_updateBoxStatus_exec.
    cbn [App.inventory App.set_inventory IndexedDBService.boxes
           IndexedDBService.set_boxes].
    change (Box.id (Box.with_isFull box (negb (Box.isFull box))))
      with (Box.id box).
    rewrite (find_box_map (Box.id box)
               (fun _ => Box.with_isFull box (negb (Box.isFull box))) _ box);
      [|reflexivity|exact E].
    cbv zeta. rewrite is_open_set_boxes. cbn [fst snd].
    assert (Hback : Box.with_isFull
                      (Box.with_isFull box (negb (Box.isFull box)))
                      (negb (Box.isFull
                               (Box.with_isFull box (negb (Box.isFull box)))))
                    = box).
    { destruct box as [i n [|] c]; reflexivity. }
    rewrite Hback.
    rewrite (map_replace_back _ box
               (Box.with_isFull box (negb (Box.isFull box))));
      [|intros b Hb Hid;
        now apply (NoDup_map_eq Box.id
                     (IndexedDBService.boxes (App.inventory s)))
       |reflexivity].
    split.
    + destruct s as [inv cm desc proc li lb res srch perf ls rec al].
      now destruct inv.
    + intros Hstore. destruct (is_open (App.inventory s)); [|reflexivity].
      destruct w. cbn in *. rewrite insert_insert_eq.
      now rewrite insert_id.
Qed.

(** ** What the component does to the items *)

Lemma startListening_inventory started mode s w :
  App.inventory (fst (Prog.exec (App.startListening started mode) (s, w)))
  = App.inventory s.
Proof.
  unfold Prog.exec, App.startListening.
  unfold mbind at 1. unfold Prog_bind, Prog.bind at 1.
  unfold Prog.get_fields at 1. cbn [fst snd].
  destruct (App.recognition s); cbn [negb]; [|reflexivity].
  destruct mode, started; unfold App.stopListeningAll; prog_unfold;
    reflexivity.
Qed.

Lemma toggle_inventory started mode (listening : App.t -> bool) s w :
  App.inventory
    (fst (Prog.exec
            (s0 ← Prog.get_fields;
             if listening s0 then App.stopListeningAll
             else App.startListening started mode) (s, w)))
  = App.inventory s.
Proof.
  unfold Prog.exec.
  unfold mbind at 1. unfold Prog_bind, Prog.bind at 1.
  unfold Prog.get_fields at 1. cbn [fst snd].
  destruct (listening s); [reflexivity|].
  apply startListening_inventory.
Qed.

(** What the first half of a handler does to the items: nothing. *)
Lemma start_simple (m : App.t -> Prog App.t unit) s w :
  snd ((m s;; mret ([] : list App.Waiting)) (s, w)) = Prog.exec (m s) (s, w).
Proof.
  unfold Prog.exec, mbind, Prog_bind, Prog.bind.
  now destruct (m s (s, w)) as [[[]|e] st].
Qed.

Lemma onImageCaptured_request_inventory s w :
  App.inventory (fst (snd (App.onImageCaptured_request (s, w))))
  = App.inventory s.
Proof.
  unfold App.onImageCaptured_request.
  unfold mbind at 1. unfold Prog_bind, Prog.bind at 1.
  unfold Prog.get_fields at 1. cbn [fst snd].
  destruct (negb _); [reflexivity|].
  now destruct (match IndexedDBService.currentBox _ with
                | Some b => Box.isFull b | None => false end).
Qed.

Lemma performSearch_request_run query s w :
  App.performSearch_request query (s, w)
  = if JS.truthy (Some (JS.trim query))
    then (Returned (Some (IndexedDBService.items (App.inventory s))),
          (App.set_searchPerformed true (App.set_isSearching true s), w))
    else (Returned None, (s, w)).
Proof.
  unfold App.performSearch_request.
  now destruct (JS.truthy (Some (JS.trim query))).
Qed.

Lemma performSearch_resume_run response query allItems s w :
  App.performSearch_resume response query allItems (s, w)
  = (Returned tt,
     (App.set_isSearching false
        (App.set_searchResults
           (List.filter
              (fun item =>
                 Array_includes (matched_ids response) (Item.id item))
              allItems) s),
      gemini_logged "Search Error:" response w)).
Proof.
  unfold App.performSearch_resume.
  unfold try_finally, mbind, Prog_bind, Prog.bind, Prog.update_fields.
  rewrite searchInventory_run. reflexivity.
Qed.

Lemma handleVoiceResult_request_run uuid now text s w :
  App.handleVoiceResult_request uuid now text (s, w)
  = let stop s :=
      App.set_isListeningForSearch false
        (App.set_isListeningForItem false
           (App.set_isListeningForBox false s)) in
    if App.isListeningForBox s then
      let st := Prog.exec (App.createNewBox uuid now text) (s, w) in
      (Returned None, (stop (fst st), snd st))
    else if App.isListeningForItem s then
      let current :=
        JS.or_string (App.itemDescriptionControl s) EmptyString in
      (Returned None,
       (stop (App.set_itemDescriptionControl
                (Some (String.append current
                         (String.append
                            (if JS.truthy (Some current) then " "
                             else EmptyString) text))) s), w))
    else if App.isListeningForSearch s then
      if JS.truthy (Some (JS.trim text))
      then (Returned (Some (IndexedDBService.items (App.inventory s))),
            (stop (App.set_searchPerformed true
                     (App.set_isSearching true s)), w))
      else (Returned None, (stop s, w))
    else (Returned None, (stop s, w)).
Proof.
  cbv zeta. unfold App.handleVoiceResult_request.
  unfold mbind at 1. unfold Prog_bind, Prog.bind at 1.
  unfold Prog.get_fields at 1. cbn [fst snd].
  unfold mbind, Prog_bind, Prog.bind.
  destruct (App.isListeningForBox s).
  - unfold Prog.exec. rewrite createNewBox_run.
    destruct (JS.truthy (Some (JS.trim text))).
    + now rewrite not_awaited_run.
    + reflexivity.
  - destruct (App.isListeningForItem s); [reflexivity|].
    destruct (App.isListeningForSearch s); [|reflexivity].
    rewrite performSearch_request_run.
    now destruct (JS.truthy (Some (JS.trim text))).
Qed.

Lemma start_items e s w :
  IndexedDBService.items (App.inventory (fst (snd (App.start e (s, w)))))
  = IndexedDBService.items (App.inventory s).
Proof.
  destruct e; cbn [App.start];
    try (rewrite (start_simple (fun _ => App.handle _)); cbn [App.handle]).
  - reflexivity.
  - reflexivity.
  - unfold Prog.exec. rewrite createNewBox_run.
    destruct (JS.truthy (Some (JS.trim name))); [|reflexivity].
    rewrite not_awaited_run. cbn [fst snd App.inventory App.set_inventory].
    now rewrite idb_addBox_fields.
  - rewrite toggleBoxStatus_exec, idb_updateBoxStatus_exec.
    cbn [fst App.inventory App.set_inventory].
    now destruct (Views.find_box _ _).
  - unfold Prog.exec.
    destruct (IndexedDBService.currentBox (App.inventory s)) as [b|] eqn:Hb.
    + rewrite (finishOrOpenBox_run _ _ _ Hb). cbv zeta.
      rewrite idb_updateBoxStatus_exec.
      cbn [fst snd App.inventory App.set_inventory].
      destruct (Views.find_box _ _), (Box.isFull b); reflexivity.
    + now rewrite (finishOrOpenBox_none _ _ Hb).
  - unfold mbind, Prog_bind, Prog.bind.
    pose proof (onImageCaptured_request_inventory s w) as H.
    destruct (App.onImageCaptured_request (s, w)) as [[[d|]|e] [s1 w1]];
      cbn [fst snd] in H; unfold mret, Prog_ret, Prog.ret; cbn [fst snd];
      now rewrite H.
  - unfold mbind, Prog_bind, Prog.bind.
    rewrite performSearch_request_run.
    now destruct (JS.truthy (Some (JS.trim query))).
  - now rewrite (toggle_inventory started App.for_box App.isListeningForBox).
  - now rewrite (toggle_inventory started App.for_item
                   App.isListeningForItem).
  - now rewrite (toggle_inventory started App.for_search
                   App.isListeningForSearch).
  - unfold mbind, Prog_bind, Prog.bind.
    rewrite handleVoiceResult_request_run. cbv zeta.
    destruct (App.isListeningForBox s).
    + unfold Prog.exec. rewrite createNewBox_run.
      destruct (JS.truthy (Some (JS.trim transcript))); [|reflexivity].
      rewrite not_awaited_run. cbn [fst snd App.inventory App.set_inventory
               App.set_isListeningForBox App.set_isListeningForItem
               App.set_isListeningForSearch].
      now rewrite idb_addBox_fields.
    + destruct (App.isListeningForItem s); [reflexivity|].
      destruct (App.isListeningForSearch s); [|reflexivity].
      now destruct (JS.truthy (Some (JS.trim transcript))).
  - reflexivity.
  - reflexivity.
Qed.

(** What the second half of a handler does to the items: nothing, or
    one item more in the box that the pointer names by then. *)
Lemma resume_items p s w :
  let inv := App.inventory s in
  let inv' := App.inventory (fst (Prog.exec (App.resume p) (s, w))) in
  IndexedDBService.items inv' = IndexedDBService.items inv
  \/ exists response uuid now base64Image desc analysis boxId box,
       p = App.ForAnalysis response uuid now base64Image desc
       /\ analysis_of response desc = Some analysis
       /\ IndexedDBService.currentBoxId inv = Some boxId
       /\ Views.find_box (IndexedDBService.boxes inv) boxId = Some box
       /\ IndexedDBService.items inv'
          = Views.newItem uuid now boxId box (captured base64Image analysis)
              :: IndexedDBService.items inv.
Proof.
  cbv zeta. unfold Prog.exec. destruct p as [response uuid now img desc|];
    cbn [App.resume].
  - rewrite onImageCaptured_resume_run. cbv zeta.
    destruct (analysis_of response desc) as [analysis|] eqn:Ha;
      [|left; reflexivity].
    destruct (IndexedDBService.currentBoxId (App.inventory s))
      as [boxId|] eqn:Hcur; [|left; reflexivity].
    rewrite idb_addItem_exec.
    destruct (Views.find_box (IndexedDBService.boxes (App.inventory s)) boxId)
      as [box|] eqn:Hf; [|left; reflexivity].
    right. exists response, uuid, now, img, desc, analysis, boxId, box.
    repeat split; assumption.
  - left. now rewrite performSearch_resume_run.
Qed.
(** ** Turns *)

Lemma answered_none st (waiting : list App.Waiting) :
  App.turn (App.Answered (length waiting)) (st, waiting) = (st, waiting).
Proof.
  unfold App.turn. cbn [fst snd].
  now rewrite (lookup_ge_None_2 waiting (length waiting)) by lia.
Qed.

Lemma answered_last st (waiting : list App.Waiting) p :
  App.turn (App.Answered (length waiting)) (st, waiting ++ [p])
  = (Prog.exec (App.resume p) st, waiting).
Proof.
  unfold App.turn. cbn [fst snd].
  rewrite (list_lookup_middle waiting [] p (length waiting) eq_refl).
  now rewrite delete_middle, app_nil_r.
Qed.

Lemma starts_simple (m : Prog App.t unit) st (waiting : list App.Waiting) :
  match (m;; mret ([] : list App.Waiting)) st with
  | (Returned pending, st') => (st', waiting ++ pending)
  | (Threw _, st') => (st', waiting)
  end = (Prog.exec m st, waiting).
Proof.
  unfold Prog.exec, mbind, Prog_bind, Prog.bind.
  destruct (m st) as [[[]|e] st']; cbn [fst snd]; [|reflexivity].
  unfold mret, Prog_ret, Prog.ret. now rewrite app_nil_r.
Qed.

(** An event taken whole is its two halves with nothing in between. *)
Lemma whole_is_two_turns e st (waiting : list App.Waiting) :
  App.run_turns [App.Starts e; App.Answered (length waiting)] (st, waiting)
  = (Prog.exec (App.handle e) st, waiting).
Proof.
  unfold App.run_turns. cbn [fold_left].
  assert (Hsimple : forall m : Prog App.t unit,
             App.handle e = m ->
             App.start e = (m;; mret []) ->
             App.turn (App.Answered (length waiting))
               (App.turn (App.Starts e) (st, waiting))
             = (Prog.exec (App.handle e) st, waiting)).
  { intros m Hh Hs. unfold App.turn at 2. cbn [fst snd].
    rewrite Hs, starts_simple, Hh. apply answered_none. }
  destruct e; try (apply (Hsimple _ eq_refl eq_refl)); clear Hsimple.
  - unfold App.turn at 2. cbn [fst snd App.start App.handle].
    unfold Prog.exec, App.onImageCaptured, mbind, Prog_bind, Prog.bind.
    destruct (App.onImageCaptured_request st) as [[[d|]|e] st1].
    + unfold mret, Prog_ret, Prog.ret. now rewrite answered_last.
    + unfold mret, Prog_ret, Prog.ret.
      now rewrite app_nil_r, answered_none.
    + now rewrite answered_none.
  - destruct st as [s w].
    unfold App.turn at 2. cbn [fst snd App.start App.handle].
    unfold Prog.exec.
    unfold mbind, Prog_bind, Prog.bind.
    rewrite performSearch_request_run.
    destruct (JS.truthy (Some (JS.trim query))) eqn:Hq.
    + unfold mret, Prog_ret, Prog.ret. rewrite answered_last.
      cbn [App.resume]. unfold Prog.exec.
      rewrite performSearch_resume_run, (performSearch_run _ _ _ _ Hq).
      reflexivity.
    + unfold mret, Prog_ret, Prog.ret.
      rewrite app_nil_r, answered_none.
      now rewrite (performSearch_blank _ _ _ _ Hq).
  - destruct st as [s w].
    unfold App.turn at 2.
    cbn [fst snd App.start App.handle]. unfold App.recognition_onresult.
    unfold mbind at 1. unfold Prog_bind, Prog.bind at 1.
    rewrite handleVoiceResult_request_run. cbv zeta.
    unfold Prog.exec at 3. unfold App.handleVoiceResult.
    unfold mbind at 1. unfold Prog_bind, Prog.bind at 1.
    unfold Prog.get_fields at 1. cbn [fst snd].
    unfold mbind, Prog_bind, Prog.bind, mret, Prog_ret, Prog.ret.
    destruct (App.isListeningForBox s).
    + rewrite app_nil_r, answered_none. unfold Prog.exec.
      rewrite createNewBox_run.
      destruct (JS.truthy (Some (JS.trim transcript))); [|reflexivity].
      now rewrite not_awaited_run.
    + destruct (App.isListeningForItem s).
      { now rewrite app_nil_r, answered_none. }
      destruct (App.isListeningForSearch s).
      * unfold App.floating.
        destruct (JS.truthy (Some (JS.trim transcript))) eqn:Hq.
        -- rewrite answered_last. cbn [App.resume]. unfold Prog.exec.
           rewrite performSearch_resume_run, (performSearch_run _ _ _ _ Hq).
           rewrite stopListeningAll_run. cbn [fst snd].
           destruct s; reflexivity.
        -- rewrite app_nil_r, answered_none.
           now rewrite (performSearch_blank _ _ _ _ Hq).
      * now rewrite app_nil_r, answered_none.
Qed.

Lemma turn_items x (live : App.Live) :
  let inv := App.inventory (fst (fst live)) in
  let inv' := App.inventory (fst (fst (App.turn x live))) in
  IndexedDBService.items inv' = IndexedDBService.items inv
  \/ exists k response uuid now base64Image desc analysis boxId box,
       x = App.Answered k
       /\ snd live !! k
          = Some (App.ForAnalysis response uuid now base64Image desc)
       /\ analysis_of response desc = Some analysis
       /\ IndexedDBService.currentBoxId inv = Some boxId
       /\ Views.find_box (IndexedDBService.boxes inv) boxId = Some box
       /\ IndexedDBService.items inv'
          = Views.newItem uuid now boxId box (captured base64Image analysis)
              :: IndexedDBService.items inv.
Proof.
  cbv zeta. destruct live as [[s w] waiting]. destruct x as [e|k].
  - left. unfold App.turn. cbn [fst snd].
    pose proof (start_items e s w) as H.
    destruct (App.start e (s, w)) as [[pending|err] st]; exact H.
  - unfold App.turn. cbn [fst snd].
    destruct (waiting !! k) as [p|] eqn:Hk; [|left; reflexivity].
    cbn [fst snd].
    destruct (resume_items p s w)
      as [H|(response & uuid & now & img & desc & analysis & boxId & box
             & -> & H)].
    + left. exact H.
    + right. exists k, response, uuid, now, img, desc, analysis, boxId, box.
      split; [reflexivity|]. split; [exact Hk|]. exact H.
Qed.

(** X20. The component only ever adds items, and only when an analysis
    comes back. A step of the component is an event that comes in,
    taken up to the [await] of the model, or the answer of the model
    to one of the handlers that wait for it; the steps come in any
    order. A step leaves the items of the inventory as they are, or it
    is the answer to a capture that waits, the answer is not [null],
    and one new item goes on top of the items, into the box that the
    pointer names when the answer arrives and under that box's name:
    the box that was open when the picture was taken may have been
    left, or sealed, in the meantime. So through any sequence of steps
    the items held at the start stay, unchanged and in their order, at
    the end of the list: the component never deletes or rewrites an
    item. An event taken whole, as [App.handle] takes it, is the event
    followed at once by the answer to the handler that it has left
    waiting. *)
Theorem X20_items_only_grow (xs : list App.Turn) (live : App.Live) :
  (forall x,
      let inv := App.inventory (fst (fst live)) in
      let inv' := App.inventory (fst (fst (App.turn x live))) in
      IndexedDBService.items inv' = IndexedDBService.items inv
      \/ exists k response uuid now base64Image desc analysis boxId box,
           x = App.Answered k
           /\ snd live !! k
              = Some (App.ForAnalysis response uuid now base64Image desc)
           /\ analysis_of response desc = Some analysis
           /\ IndexedDBService.currentBoxId inv = Some boxId
           /\ Views.find_box (IndexedDBService.boxes inv) boxId = Some box
           /\ IndexedDBService.items inv'
              = Views.newItem uuid now boxId box
                  (captured base64Image analysis)
                  :: IndexedDBService.items inv)
  /\ IndexedDBService.items (App.inventory (fst (fst live)))
       `suffix_of`
     IndexedDBService.items
       (App.inventory (fst (fst (App.run_turns xs live))))
  /\ (forall e,
         App.run_turns [App.Starts e; App.Answered (length (snd live))] live
         = (Prog.exec (App.handle e) (fst live), snd live)).
Proof.
  split; [intros x; apply turn_items|]. split.
  - revert live. induction xs as [|x xs IH]; intros live.
    + reflexivity.
    + unfold App.run_turns. cbn [fold_left].
      etransitivity; [|apply IH].
      destruct (turn_items x live)
        as [H|(k & response & uuid & now & img & desc & analysis & boxId
               & box & _ & _ & _ & _ & _ & H)]; rewrite H.
      * reflexivity.
      * now apply suffix_cons_r.
  - intros e. destruct live as [st waiting]. apply whole_is_two_turns.
Qed.

(** ** The events of the component as calls of the service *)

Lemma idb_addBox_exec uuid now name s w :
  Prog.exec (IndexedDBService.addBox uuid now name) (s, w)
  = (IndexedDBService.mk (IndexedDBService.db s)
       (Views.newBox uuid now name :: IndexedDBService.boxes s)
       (IndexedDBService.items s) (Some uuid),
     if is_open s
     then with_objectStore Store_boxes w
            (<[uuid := Views.newBox uuid now name]> (store_boxes w))
     else w).
Proof.
  unfold Prog.exec. rewrite idb_addBox_run, putToStore_run.
  unfold is_open. cbn [IndexedDBService.db].
  now destruct (IndexedDBService.db s).
Qed.

Lemma same_data_refl st : same_data st st.
Proof. repeat split. Qed.

Lemma same_data_trans st1 st2 st3 :
  same_data st1 st2 -> same_data st2 st3 -> same_data st1 st3.
Proof.
  intros (H1 & H2 & H3 & H4 & H5 & H6) (G1 & G2 & G3 & G4 & G5 & G6).
  repeat split; congruence.
Qed.

(** A call does the same to the same data. *)
Lemma idb_step_same_data o st st0 :
  same_data st st0 ->
  same_data (Prog.exec (idb_op o) st) (Prog.exec (idb_op o) st0).
Proof.
  destruct st as [s w], st0 as [s0 w0].
  intros (Hdb & Hb & Hi & Hsb & Hsi & Hls). cbn [fst snd] in *.
  assert (Hopen : is_open s = is_open s0) by (unfold is_open; now rewrite Hdb).
  destruct o; cbn [idb_op].
  - rewrite !idb_addBox_exec, Hopen.
    destruct (is_open s0); repeat split; cbn; congruence.
  - rewrite !idb_addItem_exec, Hb, Hopen.
    destruct (Views.find_box (IndexedDBService.boxes s0) boxId);
      [|repeat split; assumption].
    cbv zeta. destruct (is_open s0); repeat split; cbn; congruence.
  - rewrite !idb_updateBoxStatus_exec, Hb, Hopen.
    destruct (Views.find_box (IndexedDBService.boxes s0) boxId);
      [|repeat split; assumption].
    cbv zeta. destruct (is_open s0); repeat split; cbn; congruence.
  - repeat split; assumption.
  - rewrite !idb_updateItem_exec, Hi, Hopen.
    destruct (List.find _ (IndexedDBService.items s0));
      [|repeat split; assumption].
    cbv zeta. destruct (is_open s0); repeat split; cbn; congruence.
  - rewrite !idb_deleteItem_exec, Hi, Hopen.
    destruct (is_open s0); repeat split; cbn; congruence.
Qed.

Lemma idb_run_same_data ops : forall st st0,
  same_data st st0 ->
  same_data (run_calls idb_op ops st) (run_calls idb_op ops st0).
Proof.
  induction ops as [|o ops IH]; intros st st0 H; [exact H|].
  rewrite !run_calls_cons. now apply IH, idb_step_same_data.
Qed.

Lemma run_calls_app {S C} (method : C -> Prog S unit) l1 l2 st :
  run_calls method (l1 ++ l2) st
  = run_calls method l2 (run_calls method l1 st).
Proof. unfold run_calls. apply fold_left_app. Qed.

Lemma startListening_world started mode s w :
  snd (Prog.exec (App.startListening started mode) (s, w)) = w.
Proof.
  unfold Prog.exec, App.startListening.
  unfold mbind at 1. unfold Prog_bind, Prog.bind at 1.
  unfold Prog.get_fields at 1. cbn [fst snd].
  destruct (App.recognition s); cbn [negb]; [|reflexivity].
  destruct mode, started; unfold App.stopListeningAll; prog_unfold;
    reflexivity.
Qed.

Lemma toggle_service started mode (listening : App.t -> bool) s w :
  same_data
    (service_of
       (Prog.exec
          (s0 ← Prog.get_fields;
           if listening s0 then App.stopListeningAll
           else App.startListening started mode) (s, w)))
    (App.inventory s, w).
Proof.
  unfold service_of.
  rewrite (toggle_inventory started mode listening).
  unfold Prog.exec.
  unfold mbind at 1. unfold Prog_bind, Prog.bind at 1.
  unfold Prog.get_fields at 1. cbn [fst snd].
  destruct (listening s); [apply same_data_refl|].
  pose proof (startListening_world started mode s w) as H.
  unfold Prog.exec in H. rewrite H. apply same_data_refl.
Qed.

Lemma same_data_logged {A} msg (response : GeminiService.Response A) s w :
  same_data (s, gemini_logged msg response w) (s, w).
Proof. destruct response; repeat split. Qed.

(** One event: the data it leaves are the data that its calls leave. *)
Lemma handle_calls e s w :
  same_data (service_of (Prog.exec (App.handle e) (s, w)))
    (run_calls idb_op (calls_of s e) (App.inventory s, w)).
Proof.
  destruct e; cbn [App.handle calls_of].
  - apply same_data_refl.
  - repeat split.
  - unfold Prog.exec at 1. rewrite createNewBox_run.
    destruct (JS.truthy (Some (JS.trim name))); [|apply same_data_refl].
    rewrite not_awaited_run. unfold service_of, run_calls.
    cbn [fst snd fold_left idb_op App.inventory App.set_inventory].
    rewrite <- surjective_pairing. apply same_data_refl.
  - rewrite toggleBoxStatus_exec. unfold service_of, run_calls.
    cbn [fst snd fold_left idb_op App.inventory App.set_inventory].
    rewrite <- surjective_pairing. apply same_data_refl.
  - unfold Prog.exec at 1.
    destruct (IndexedDBService.currentBox (App.inventory s)) as [b|] eqn:Hb.
    + rewrite (finishOrOpenBox_run _ _ _ Hb). cbv zeta.
      unfold service_of, run_calls.
      cbn [fst snd fold_left idb_op App.inventory App.set_inventory].
      destruct (Prog.exec (IndexedDBService.updateBoxStatus (Box.id b)
                             (negb (Box.isFull b))) (App.inventory s, w))
        as [inv1 w1].
      cbn [fst snd]. destruct (Box.isFull b); repeat split.
    + rewrite (finishOrOpenBox_none _ _ Hb). apply same_data_refl.
  - unfold Prog.exec at 1.
    destruct (IndexedDBService.currentBoxId (App.inventory s)) as [k|]
      eqn:Hcur.
    + destruct (String.eqb_spec k EmptyString) as [Heq|Hne].
      * rewrite onImageCaptured_no_box; [apply same_data_refl|].
        rewrite Hcur, Heq. reflexivity.
      * assert (Ht : JS.truthy
                       (IndexedDBService.currentBoxId (App.inventory s))
                     = true).
        { rewrite Hcur. simpl.
          now destruct (String.eqb_spec k EmptyString). }
        destruct (Views.find_box (IndexedDBService.boxes (App.inventory s))
                    k) as [b|] eqn:Hf.
        -- assert (Hbox : IndexedDBService.currentBox (App.inventory s)
                          = Some b).
           { unfold IndexedDBService.currentBox. now rewrite Hcur. }
           destruct (Box.isFull b) eqn:Hfull.
           ++ rewrite (onImageCaptured_sealed _ _ _ _ _ _ b Ht Hbox Hfull).
              repeat split.
           ++ rewrite (onImageCaptured_run _ _ _ _ _ _ k Hcur Hne);
                [|now rewrite Hf].
              cbv zeta.
              destruct (analysis_of response (description_sent s))
                as [analysis|].
              ** unfold service_of, run_calls.
                 cbn [fst snd fold_left idb_op App.inventory
                        App.set_inventory App.set_isProcessing
                        App.set_itemDescriptionControl].
                 rewrite <- surjective_pairing.
                 apply (idb_step_same_data (AddItem _ _ _ _)).
                 apply same_data_logged.
              ** unfold service_of, run_calls.
                 cbn [fst snd fold_left App.inventory App.set_isProcessing
                        App.set_alerts].
                 destruct response; repeat split.
        -- rewrite (onImageCaptured_run _ _ _ _ _ _ k Hcur Hne);
             [|now rewrite Hf].
           cbv zeta.
           destruct (analysis_of response (description_sent s))
             as [analysis|].
           ++ rewrite idb_addItem_exec, Hf.
              unfold service_of.
              cbn [fst snd App.inventory App.set_inventory
                     App.set_isProcessing App.set_itemDescriptionControl].
              apply same_data_logged.
           ++ unfold service_of.
              cbn [fst snd App.inventory App.set_isProcessing
                     App.set_alerts].
              destruct response; repeat split.
    + rewrite onImageCaptured_no_box; [apply same_data_refl|].
      now rewrite Hcur.
  - unfold Prog.exec.
    destruct (JS.truthy (Some (JS.trim query))) eqn:Hq.
    + rewrite (performSearch_run _ _ _ _ Hq). apply same_data_logged.
    + rewrite (performSearch_blank _ _ _ _ Hq). apply same_data_refl.
  - apply (toggle_service started App.for_box App.isListeningForBox).
  - apply (toggle_service started App.for_item App.isListeningForItem).
  - apply (toggle_service started App.for_search App.isListeningForSearch).
  - unfold App.recognition_onresult, Prog.exec at 1, App.handleVoiceResult.
    unfold mbind at 1. unfold Prog_bind, Prog.bind at 1.
    unfold Prog.get_fields at 1. cbn [fst snd].
    unfold mbind, Prog_bind, Prog.bind.
    destruct (App.isListeningForBox s); cbn [andb].
    + rewrite createNewBox_run.
      destruct (JS.truthy (Some (JS.trim transcript)));
        [|apply same_data_refl].
      rewrite not_awaited_run, stopListeningAll_run.
      unfold service_of, run_calls.
      cbn [fst snd fold_left idb_op App.inventory App.set_inventory
             App.set_isListeningForBox App.set_isListeningForItem
             App.set_isListeningForSearch].
      rewrite <- surjective_pairing. apply same_data_refl.
    + destruct (App.isListeningForItem s); [apply same_data_refl|].
      destruct (App.isListeningForSearch s); [|apply same_data_refl].
      unfold App.floating.
      destruct (JS.truthy (Some (JS.trim transcript))) eqn:Hq.
      * rewrite (performSearch_run _ _ _ _ Hq). apply same_data_logged.
      * rewrite (performSearch_blank _ _ _ _ Hq). apply same_data_refl.
  - repeat split.
  - apply same_data_refl.
Qed.

Lemma session_calls_run events : forall st st0,
  same_data (service_of st) st0 ->
  same_data (service_of (run_calls App.handle events st))
    (run_calls idb_op (session_calls events st) st0).
Proof.
  induction events as [|e events IH]; intros [s w] st0 H; [exact H|].
  rewrite run_calls_cons. cbn [session_calls fst].
  rewrite run_calls_app. apply IH.
  eapply same_data_trans; [apply handle_calls|].
  now apply idb_run_same_data.
Qed.

Lemma calls_of_kind s e : Forall component_call (calls_of s e).
Proof.
  destruct e; cbn [calls_of]; try constructor;
    repeat match goal with
           | |- Forall _ (if ?c then _ else _) => destruct c
           | |- Forall _ (match ?c with _ => _ end) => destruct c
           end;
    repeat constructor.
Qed.

Lemma session_calls_kind events : forall st,
  Forall component_call (session_calls events st).
Proof.
  induction events as [|e events IH]; intros st; [constructor|].
  cbn [session_calls]. apply Forall_app. split; [apply calls_of_kind|apply IH].
Qed.

Lemma component_call_keeps ops :
  Forall component_call ops ->
  Forall keeps_box ops /\ Forall keeps_timestamp ops.
Proof.
  induction 1 as [|o ops Ho _ [IH1 IH2]]; [split; constructor|].
  split; constructor; try assumption; now destruct o.
Qed.

(** X21. The events of the component are calls of the service. After
    any sequence of events (clicks, captures, searches, voice results,
    whatever the model and the recogniser answer), the service of the
    component holds the handle, the boxes and the items, and the world
    the stores and the localStorage, that the calls of the events leave
    when made on the service directly. The calls are [addBox],
    [addItem] and [updateBoxStatus] only: the component never calls
    [updateItem] or [deleteItem]. *)
Theorem X21_events_are_calls (events : list App.Event)
    (s : App.t) (w : World) :
  let st := run_calls App.handle events (s, w) in
  let ops := session_calls events (s, w) in
  let st0 := run_calls idb_op ops (App.inventory s, w) in
  Forall component_call ops
  /\ IndexedDBService.boxes (App.inventory (fst st))
     = IndexedDBService.boxes (fst st0)
  /\ IndexedDBService.items (App.inventory (fst st))
     = IndexedDBService.items (fst st0)
  /\ IndexedDBService.db (App.inventory (fst st))
     = IndexedDBService.db (fst st0)
  /\ store_boxes (snd st) = store_boxes (snd st0)
  /\ store_items (snd st) = store_items (snd st0)
  /\ localStorage (snd st) = localStorage (snd st0).
Proof.
  cbv zeta. split; [apply session_calls_kind|].
  destruct (session_calls_run events (s, w) (App.inventory s, w)
              (same_data_refl _)) as (Hdb & Hb & Hi & Hsb & Hsi & Hls).
  unfold service_of in *. cbn [fst snd] in *.
  repeat split; assumption.
Qed.

(** X22. The component keeps the inventory sound. From an inventory
    whose ids are unique and whose items each name a box of the
    inventory under its name, through any sequence of events whose new
    ids repeat no id: the ids stay unique, every item still names a box
    of the inventory under its name, and so a pointer that selects no
    box shows no items. *)
Theorem X22_component_keeps_inventory_sound (events : list App.Event)
    (s : App.t) (w : World)
    (Hfresh : fresh_uuids (IndexedDBService.boxes (App.inventory s))
                (IndexedDBService.items (App.inventory s))
                (session_calls events (s, w)))
    (Hsound : items_in_boxes (IndexedDBService.boxes (App.inventory s))
                (IndexedDBService.items (App.inventory s))) :
  let inv' := App.inventory (fst (run_calls App.handle events (s, w))) in
  NoDup (List.map Box.id (IndexedDBService.boxes inv'))
  /\ NoDup (List.map Item.id (IndexedDBService.items inv'))
  /\ items_in_boxes (IndexedDBService.boxes inv')
       (IndexedDBService.items inv')
  /\ (IndexedDBService.currentBox inv' = None ->
      IndexedDBService.itemsInCurrentBox inv' = []).
Proof.
  cbv zeta.
  destruct (session_calls_run events (s, w) (App.inventory s, w)
              (same_data_refl _)) as (_ & Hb & Hi & _).
  unfold service_of in *. cbn [fst snd] in *.
  set (ops := session_calls events (s, w)) in *.
  destruct (idb_run_NoDup ops (App.inventory s) w Hfresh) as [Hndb Hndi].
  destruct (component_call_keeps ops (session_calls_kind events (s, w)))
    as [Hkeep _].
  destruct (idb_run_agree ops (App.inventory s) w w Hfresh) as [Hs _].
  pose proof (legacy_run_in_boxes ops (signals_of (App.inventory s)) w
                Hkeep Hsound) as Hin.
  cbv zeta in Hin. rewrite <- Hs in Hin. simpl in Hin.
  rewrite Hb, Hi.
  split; [exact Hndb|]. split; [exact Hndi|]. split; [exact Hin|].
  intros Hnone.
  unfold IndexedDBService.itemsInCurrentBox. rewrite Hi.
  apply (dangling_view_empty _ _ _ Hin).
  unfold IndexedDBService.currentBox in Hnone. now rewrite Hb in Hnone.
Qed.

(** A start over stores that hold two collections, without the blobs
    of the blob-keyed revision. *)
Lemma idb_restart_tables boxes items w :
  store_boxes w = list_to_map ((fun b => (Box.id b, b)) <$> boxes) ->
  store_items w = list_to_map ((fun i => (Item.id i, i)) <$> items) ->
  JS.truthy (localStorage w !! "clutter_boxes") = false ->
  JS.truthy (localStorage w !! "clutter_items") = false ->
  Prog.exec (IndexedDBService.constructor true) (IndexedDBService.initial, w)
  = (IndexedDBService.mk (Some IndexedDBService.ClutterAI_DB)
       (JS.Array_sort (descending Box.createdAt)
          (IDBObjectStore_getAll
             (list_to_map ((fun b => (Box.id b, b)) <$> boxes))))
       (JS.Array_sort (descending Item.timestamp)
          (IDBObjectStore_getAll
             (list_to_map ((fun i => (Item.id i, i)) <$> items))))
       None,
     w).
Proof.
  intros Hb Hi Hboxes Hitems. unfold Prog.exec.
  rewrite idb_constructor_no_blobs by assumption.
  rewrite loadData_run. cbn. now rewrite Hb, Hi.
Qed.

(** X23. What the user did survives a restart. With the database open
    and the stores in step with the inventory, after any sequence of
    events of the component whose new ids repeat no id, and with no
    blob of the blob-keyed revision in localStorage: each store has
    under every id the record that the inventory shows under it, and
    the constructor of a fresh service reads back the boxes and the
    items that the component shows, up to their order, each newest
    first; in their order too, when the clock of the session never
    answered the same time twice. *)
Theorem X23_component_session_survives_restart (events : list App.Event)
    (s : App.t) (w : World)
    (Hopen : is_open (App.inventory s) = true)
    (Hmirrors : mirrors (App.inventory s) w)
    (Hfresh : fresh_uuids (IndexedDBService.boxes (App.inventory s))
                (IndexedDBService.items (App.inventory s))
                (session_calls events (s, w)))
    (Hboxes : JS.truthy (localStorage w !! "clutter_boxes") = false)
    (Hitems : JS.truthy (localStorage w !! "clutter_items") = false) :
  let st := run_calls App.handle events (s, w) in
  let inv' := App.inventory (fst st) in
  let s' := fst (Prog.exec (IndexedDBService.constructor true)
                   (IndexedDBService.initial, snd st)) in
  (forall boxId,
      store_boxes (snd st) !! boxId
      = Views.find_box (IndexedDBService.boxes inv') boxId)
  /\ (forall itemId,
         store_items (snd st) !! itemId
         = List.find (fun i => String.eqb (Item.id i) itemId)
             (IndexedDBService.items inv'))
  /\ IndexedDBService.boxes s' ≡ₚ IndexedDBService.boxes inv'
  /\ IndexedDBService.items s' ≡ₚ IndexedDBService.items inv'
  /\ newest_first Box.createdAt (IndexedDBService.boxes s')
  /\ newest_first Item.timestamp (IndexedDBService.items s')
  /\ (chronological Z.lt (IndexedDBService.boxes (App.inventory s))
        (IndexedDBService.items (App.inventory s))
        (op_clock (session_calls events (s, w))) ->
      IndexedDBService.boxes s' = IndexedDBService.boxes inv'
      /\ IndexedDBService.items s' = IndexedDBService.items inv').
Proof.
  cbv zeta.
  destruct (session_calls_run events (s, w) (App.inventory s, w)
              (same_data_refl _)) as (_ & Hb & Hi & Hsb & Hsi & Hls).
  unfold service_of in *. cbn [fst snd] in *.
  set (ops := session_calls events (s, w)) in *.
  destruct (idb_run_mirrors ops (App.inventory s) w Hopen Hmirrors)
    as (_ & [Hmb Hmi] & Hls0 & _).
  destruct (idb_run_NoDup ops (App.inventory s) w Hfresh) as [Hndb Hndi].
  assert (Hsorted :
            chronological Z.lt (IndexedDBService.boxes (App.inventory s))
              (IndexedDBService.items (App.inventory s)) (op_clock ops) ->
            later_first Z.lt Box.createdAt
              (IndexedDBService.boxes
                 (fst (run_calls idb_op ops (App.inventory s, w))))
            /\ later_first Z.lt Item.timestamp
                 (IndexedDBService.items
                    (fst (run_calls idb_op ops (App.inventory s, w))))).
  { intros Hclock.
    destruct (component_call_keeps ops (session_calls_kind events (s, w)))
      as [_ Hkeep].
    destruct (idb_run_agree ops (App.inventory s) w w Hfresh) as [Hs _].
    pose proof (legacy_run_chronological Z.lt ops
                  (signals_of (App.inventory s)) w Hkeep Hclock) as H.
    cbv zeta in H. rewrite <- Hs in H. exact H. }
  rewrite <- Hb in Hmb, Hndb, Hsorted. rewrite <- Hi in Hmi, Hndi, Hsorted.
  rewrite <- Hsb in Hmb. rewrite <- Hsi in Hmi.
  rewrite (idb_restart_tables _ _ _ Hmb Hmi)
    by (rewrite Hls, Hls0; assumption).
  cbn [fst IndexedDBService.boxes IndexedDBService.items].
  assert (Hpb : JS.Array_sort (descending Box.createdAt)
                  (IDBObjectStore_getAll
                     (list_to_map
                        ((fun b => (Box.id b, b))
                           <$> IndexedDBService.boxes
                                 (App.inventory
                                    (fst (run_calls App.handle events
                                            (s, w)))))))
                ≡ₚ IndexedDBService.boxes
                     (App.inventory
                        (fst (run_calls App.handle events (s, w))))).
  { rewrite Array_sort_Permutation. now apply (getAll_table Box.id). }
  assert (Hpi : JS.Array_sort (descending Item.timestamp)
                  (IDBObjectStore_getAll
                     (list_to_map
                        ((fun i => (Item.id i, i))
                           <$> IndexedDBService.items
                                 (App.inventory
                                    (fst (run_calls App.handle events
                                            (s, w)))))))
                ≡ₚ IndexedDBService.items
                     (App.inventory
                        (fst (run_calls App.handle events (s, w))))).
  { rewrite Array_sort_Permutation. now apply (getAll_table Item.id). }
  split; [|split; [|split; [|split; [|split; [|split]]]]].
  - intros boxId. rewrite Hmb. apply (lookup_table Box.id).
  - intros itemId. rewrite Hmi. apply (lookup_table Item.id).
  - exact Hpb.
  - exact Hpi.
  - apply Array_sort_newest_first.
  - apply Array_sort_newest_first.
  - intros Hclock. destruct (Hsorted Hclock) as [Hsb' Hsi']. split.
    + apply (sorted_reload Box.createdAt);
        [exact Hpb|apply Array_sort_newest_first|exact Hsb'].
    + apply (sorted_reload Item.timestamp);
        [exact Hpi|apply Array_sort_newest_first|exact Hsi'].
Qed.

(** * The further properties on the sample session *)

Ltac distinct_strings :=
  repeat (apply NoDup_cons; split;
          [rewrite ?elem_of_cons, elem_of_nil; intuition discriminate|]);
  apply NoDup_nil_2.

Lemma session_fresh :
  fresh_uuids (IndexedDBService.boxes opened) (IndexedDBService.items opened)
    Scenario.session.
Proof. split; cbn; distinct_strings. Defined.

Lemma session_chronological (R : Z -> Z -> Prop) :
  (forall a b : Z, a < b -> R a b) ->
  chronological R [] [] (op_clock Scenario.session).
Proof.
  intros HR. repeat split.
  - cbn. repeat (constructor; [|repeat constructor; apply HR; lia]).
    constructor.
  - constructor.
  - constructor.
  - intros b Hb. now apply not_elem_of_nil in Hb.
  - intros i Hi. now apply not_elem_of_nil in Hi.
Defined.

Lemma session_keeps_timestamp : Forall keeps_timestamp Scenario.session.
Proof. repeat constructor. Defined.

Lemma session_keeps_box : Forall keeps_box Scenario.session.
Proof. repeat constructor. Defined.

Lemma X1_revisions_agree_witness :
  fresh_uuids [] [] Scenario.session
  /\ signals_of (fst (run_calls idb_op Scenario.session
                        (IndexedDBService.initial, World_empty)))
     = fst (run_calls legacy_op Scenario.session
              (LocalStorageService.initial, World_empty)).
Proof.
  split; [exact session_fresh|].
  exact (proj1 (X1_revisions_agree Scenario.session IndexedDBService.initial
                  World_empty World_empty session_fresh)).
Defined.

Lemma X2_ids_stay_unique_witness :
  let s' := fst (run_calls idb_op Scenario.session (opened, World_empty)) in
  fresh_uuids [] [] Scenario.session
  /\ NoDup (List.map Box.id (IndexedDBService.boxes s'))
  /\ NoDup (List.map Item.id (IndexedDBService.items s')).
Proof.
  intros s'. split; [exact session_fresh|].
  exact (proj2 (X2_ids_stay_unique Scenario.session) opened World_empty
           session_fresh).
Defined.

Lemma X3_items_keep_their_box_witness :
  let s' := fst (run_calls idb_op Scenario.session (opened, World_empty)) in
  Forall keeps_box Scenario.session
  /\ items_in_boxes (IndexedDBService.boxes s') (IndexedDBService.items s').
Proof.
  intros s'. split; [exact session_keeps_box|].
  refine (proj1 (proj2 (X3_items_keep_their_box Scenario.session
                          session_keeps_box) opened World_empty
                   session_fresh _)).
  intros i Hi. now apply not_elem_of_nil in Hi.
Defined.

Lemma X4_stores_follow_collections_witness :
  let st := run_calls idb_op Scenario.session (opened, World_empty) in
  is_open opened = true
  /\ mirrors opened World_empty
  /\ store_boxes (snd st) !! "b-1"
     = Views.find_box (IndexedDBService.boxes (fst st)) "b-1".
Proof.
  intros st.
  assert (Hm : mirrors opened World_empty) by (split; reflexivity).
  split; [reflexivity|]. split; [exact Hm|].
  exact (proj1 (proj2 (X4_stores_follow_collections Scenario.session opened
                         World_empty eq_refl Hm)) "b-1").
Defined.

Lemma X5_session_survives_restart_witness :
  let st := run_calls idb_op Scenario.session (opened, World_empty) in
  let st' := Prog.exec (IndexedDBService.constructor true)
               (IndexedDBService.initial, snd st) in
  JS.truthy (localStorage World_empty !! "clutter_boxes") = false
  /\ JS.truthy (localStorage World_empty !! "clutter_items") = false
  /\ IndexedDBService.boxes (fst st') ≡ₚ IndexedDBService.boxes (fst st)
  /\ IndexedDBService.items (fst st') ≡ₚ IndexedDBService.items (fst st).
Proof.
  intros st st'.
  assert (Hm : mirrors opened World_empty) by (split; reflexivity).
  split; [reflexivity|]. split; [reflexivity|].
  destruct (X5_session_survives_restart Scenario.session opened World_empty
              eq_refl Hm session_fresh eq_refl eq_refl) as (Hb & Hi & _).
  split; [exact Hb|exact Hi].
Defined.

Lemma X6_closed_database_witness :
  let st0 := Prog.exec (IndexedDBService.constructor false)
               (IndexedDBService.initial, Samples.saved_world) in
  is_open (fst st0) = false
  /\ Prog.outcome (idb_op (AddBox "b-1" 1000 "Garage")) st0
     = Threw (Rejected "Database not initialized")
  /\ snd (run_calls idb_op Scenario.session st0) = snd st0.
Proof.
  intros st0.
  destruct (X6_closed_database (AddBox "b-1" 1000 "Garage")
              Scenario.session (fst st0) (snd st0) eq_refl)
    as (Hout & Hw & _).
  split; [reflexivity|]. split; [exact Hout|exact Hw].
Defined.

Lemma X8_add_then_delete_witness :
  let si := IndexedDBService.mk (Some IndexedDBService.ClutterAI_DB)
              [Samples.garage] [Samples.drill] None in
  let w := snd (Prog.exec (put_records Store_items [Samples.drill])
                  (opened, World_empty)) in
  ("i-2" ∉ List.map Item.id (IndexedDBService.items si))
  /\ store_items w !! "i-2" = None
  /\ Prog.exec (IndexedDBService.deleteItem "i-2")
       (Prog.exec
          (IndexedDBService.addItem "i-2" 3000 "b-1" PartialItem.empty)
          (si, w))
     = (si, w).
Proof.
  intros si w.
  assert (Hfresh : "i-2" ∉ List.map Item.id [Samples.drill]).
  { cbn. rewrite elem_of_cons, elem_of_nil. intuition discriminate. }
  assert (Hnone : store_items w !! "i-2" = None) by (vm_compute; reflexivity).
  split; [exact Hfresh|]. split; [exact Hnone|].
  destruct (X8_add_then_delete "i-2" 3000 "b-1" PartialItem.empty
              (LocalStorageService.mk [Samples.garage] [Samples.drill] None)
              si w Hfresh Hfresh) as [_ [Hs Hw]].
  cbv zeta in Hs, Hw. specialize (Hw Hnone).
  destruct (Prog.exec (IndexedDBService.deleteItem "i-2")
              (Prog.exec
                 (IndexedDBService.addItem "i-2" 3000 "b-1"
                    PartialItem.empty) (si, w))) as [s1 w1].
  cbn [fst snd] in Hs, Hw. now rewrite Hs, Hw.
Defined.

Lemma X9_updateItem_idempotent_witness :
  let s := IndexedDBService.mk (Some IndexedDBService.ClutterAI_DB)
             [Samples.garage] [Samples.drill] None in
  let st := Prog.exec (IndexedDBService.updateItem "i-1" Scenario.cordless)
              (s, World_empty) in
  Prog.exec (IndexedDBService.updateItem "i-1" Scenario.cordless) st = st.
Proof.
  intros s st.
  exact (proj2 (proj2 (proj2 (X9_updateItem_idempotent "i-1"
                                Scenario.cordless World_empty) s))).
Defined.

Lemma X7_migration_keeps_records_witness :
  let w := snd (Prog.exec (put_records Store_boxes [Samples.garage])
                  (opened, Samples.corrupt_boxes_world)) in
  let r := IndexedDBService.migrateFromLocalStorage (opened, w) in
  is_Some (objectStore Store_boxes w !! "b-1")
  /\ is_Some (objectStore Store_boxes (snd (snd r)) !! "b-1").
Proof.
  intros w r.
  assert (H : is_Some (objectStore Store_boxes w !! "b-1")).
  { exists Samples.garage. vm_compute. reflexivity. }
  split; [exact H|].
  exact (proj1 (proj2 (proj2 (X7_migration_keeps_records opened w)))
           Store_boxes "b-1" H).
Defined.

Lemma X10_new_box_opens_empty_witness :
  let si := IndexedDBService.mk (Some IndexedDBService.ClutterAI_DB)
              [Samples.garage] [Samples.drill] (Some "b-1") in
  let s' := fst (Prog.exec (IndexedDBService.addBox "b-2" 3000 "Attic")
                   (si, World_empty)) in
  ("b-2" ∉ List.map Item.boxId (IndexedDBService.items si))
  /\ IndexedDBService.currentBox s' = Some (Views.newBox "b-2" 3000 "Attic")
  /\ IndexedDBService.itemsInCurrentBox s' = [].
Proof.
  intros si s'.
  assert (Hfresh : "b-2" ∉ List.map Item.boxId [Samples.drill]).
  { cbn. rewrite elem_of_cons, elem_of_nil. intuition discriminate. }
  split; [exact Hfresh|].
  exact (proj2 (X10_new_box_opens_empty "b-2" 3000 "Attic"
                  (LocalStorageService.mk [Samples.garage] [Samples.drill]
                     (Some "b-1"))
                  si World_empty Hfresh Hfresh)).
Defined.

Lemma X11_new_item_on_top_witness :
  let sl := LocalStorageService.mk [Samples.garage] [Samples.drill]
              (Some "b-1") in
  Views.find_box (LocalStorageService.boxes sl) "b-1" = Some Samples.garage
  /\ (forall i, i ∈ LocalStorageService.items sl ->
                Item.timestamp i <= 2000)
  /\ LocalStorageService.itemsInCurrentBox
       (fst (Prog.exec
               (LocalStorageService.addItem "i-2" 2000 "b-1"
                  PartialItem.empty) (sl, World_empty)))
     = Views.newItem "i-2" 2000 "b-1" Samples.garage PartialItem.empty
         :: LocalStorageService.itemsInCurrentBox sl.
Proof.
  intros sl.
  assert (Ht : forall i, i ∈ [Samples.drill] -> Item.timestamp i <= 2000).
  { intros i Hi. apply elem_of_cons in Hi as [->|Hi].
    - cbn. lia.
    - now apply not_elem_of_nil in Hi. }
  split; [reflexivity|]. split; [exact Ht|].
  exact (proj1 (X11_new_item_on_top "i-2" 2000 "b-1" PartialItem.empty
                  Samples.garage sl
                  (IndexedDBService.mk None [Samples.garage] [Samples.drill]
                     (Some "b-1"))
                  World_empty eq_refl eq_refl Ht eq_refl eq_refl Ht)).
Defined.

Lemma X12_collections_stay_sorted_witness :
  let s' := fst (run_calls legacy_op Scenario.session
                   (LocalStorageService.initial, World_empty)) in
  Forall keeps_timestamp Scenario.session
  /\ chronological Z.le [] [] (op_clock Scenario.session)
  /\ newest_first Box.createdAt (LocalStorageService.boxes s')
  /\ newest_first Item.timestamp (LocalStorageService.items s').
Proof.
  intros s'.
  assert (Hch : chronological Z.le [] [] (op_clock Scenario.session)).
  { apply session_chronological. intros; lia. }
  split; [exact session_keeps_timestamp|]. split; [exact Hch|].
  destruct (proj1 (X12_collections_stay_sorted Scenario.session
                     session_keeps_timestamp)
              LocalStorageService.initial World_empty Hch) as (Hb & Hi & _).
  split; [exact Hb|exact Hi].
Defined.

Lemma X13_restart_restores_exactly_witness :
  let st := run_calls idb_op Scenario.session (opened, World_empty) in
  let st' := Prog.exec (IndexedDBService.constructor true)
               (IndexedDBService.initial, snd st) in
  chronological Z.lt [] [] (op_clock Scenario.session)
  /\ IndexedDBService.boxes (fst st') = IndexedDBService.boxes (fst st)
  /\ IndexedDBService.items (fst st') = IndexedDBService.items (fst st).
Proof.
  intros st st'.
  assert (Hch : chronological Z.lt [] [] (op_clock Scenario.session)).
  { apply session_chronological. intros; lia. }
  assert (Hm : mirrors opened World_empty) by (split; reflexivity).
  split; [exact Hch|].
  destruct (X13_restart_restores_exactly Scenario.session opened World_empty
              eq_refl Hm session_fresh session_keeps_timestamp Hch
              eq_refl eq_refl) as (Hb & Hi & _).
  split; [exact Hb|exact Hi].
Defined.

Lemma X14_search_results_in_inventory_witness :
  let r := App.performSearch AppScenario.no_matches "drill"
             (AppScenario.app, AppScenario.world) in
  JS.trim "drill" <> EmptyString
  /\ App.searchResults (fst (snd r)) = []
  /\ console (snd (snd r))
     = console AppScenario.world
         ++ [console_error "Search Error:" (Some SyntaxError)].
Proof.
  intros r.
  assert (Hne : JS.trim "drill" <> EmptyString) by (vm_compute; discriminate).
  split; [exact Hne|].
  destruct (X14_search_results_in_inventory AppScenario.no_matches "drill"
              AppScenario.app AppScenario.world) as (_ & _ & _ & Hfail).
  exact (Hfail SyntaxError eq_refl Hne).
Defined.

(** The sample box is sealed from the list while a capture into it
    waits for the model: the item goes into the sealed box. *)
Lemma X15_capture_in_two_halves_witness :
  let st1 := Prog.exec App.onImageCaptured_request
               (AppScenario.app, AppScenario.world) in
  let st2 := Prog.exec (App.toggleBoxStatus Samples.garage) st1 in
  let st3 := Prog.exec
               (App.onImageCaptured_resume AppScenario.no_answer "i-2" 3000
                  "/9j/4AAQ" "No description provided.") st2 in
  IndexedDBService.currentBoxId (App.inventory (fst st2)) = Some "b-1"
  /\ Views.find_box (IndexedDBService.boxes (App.inventory (fst st2))) "b-1"
     = Some (Box.with_isFull Samples.garage true)
  /\ analysis_of AppScenario.no_answer "No description provided."
     = Some AppScenario.unidentified
  /\ IndexedDBService.items (App.inventory (fst st3))
     = Views.newItem "i-2" 3000 "b-1" (Box.with_isFull Samples.garage true)
         (captured "/9j/4AAQ" AppScenario.unidentified)
         :: [Samples.drill].
Proof.
  intros st1 st2 st3.
  assert (Hcur : IndexedDBService.currentBoxId (App.inventory (fst st2))
                 = Some "b-1") by (vm_compute; reflexivity).
  assert (Hf : Views.find_box
                 (IndexedDBService.boxes (App.inventory (fst st2))) "b-1"
               = Some (Box.with_isFull Samples.garage true))
    by (vm_compute; reflexivity).
  assert (Ha : analysis_of AppScenario.no_answer "No description provided."
               = Some AppScenario.unidentified) by reflexivity.
  split; [exact Hcur|]. split; [exact Hf|]. split; [exact Ha|].
  destruct (X15_capture_in_two_halves AppScenario.no_answer "i-2" 3000
              "/9j/4AAQ" (fst st2) (snd st2)) as (_ & Hresume & _).
  destruct (Hresume "No description provided.")
    as (_ & _ & _ & _ & _ & _ & Hsome & _).
  destruct (Hsome AppScenario.unidentified Ha) as (_ & _ & Hitem & _).
  exact (Hitem "b-1" _ Hcur Hf).
Defined.

Lemma X16_finish_or_open_box_witness :
  let r := App.finishOrOpenBox (AppScenario.app, AppScenario.world) in
  let inv' := App.inventory (fst (snd r)) in
  IndexedDBService.currentBox (App.inventory AppScenario.app)
  = Some Samples.garage
  /\ Views.find_box (IndexedDBService.boxes inv') "b-1"
     = Some (Box.with_isFull Samples.garage true)
  /\ IndexedDBService.currentBoxId inv' = None.
Proof.
  intros r inv'. split; [reflexivity|].
  destruct (X16_finish_or_open_box AppScenario.app AppScenario.world)
    as (_ & _ & Hbox).
  destruct (Hbox Samples.garage eq_refl) as (Hfind & _ & _ & _ & Hseal).
  split; [exact Hfind|]. exact (proj1 (Hseal eq_refl)).
Defined.

Lemma X18_speaking_is_typing_witness :
  App.recognition AppScenario.app = true
  /\ quiet AppScenario.app
  /\ run_calls App.handle
       [App.ToggleListeningForItem (Returned tt);
        App.OnResult AppScenario.no_matches "b-2" 3000 "red";
        App.ToggleListeningForItem (Returned tt);
        App.OnResult AppScenario.no_matches "b-2" 3000 "mug"]
       (AppScenario.app, AppScenario.world)
     = (App.set_itemDescriptionControl
          (Some (String.append "red" (String.append " " "mug")))
          AppScenario.app,
        AppScenario.world).
Proof.
  assert (Hq : quiet AppScenario.app) by (repeat split).
  split; [reflexivity|]. split; [exact Hq|].
  destruct (X18_speaking_is_typing AppScenario.no_matches "b-2"
              3000 "red" "mug" AppScenario.app AppScenario.world
              eq_refl Hq) as (_ & _ & H).
  apply H; [reflexivity|discriminate].
Defined.

Lemma X17_one_microphone_witness :
  settled
    (fst (run_calls App.handle
            [App.ToggleListeningForBox (Returned tt);
             App.ToggleListeningForItem (Threw TypeError);
             App.OnImageCaptured AppScenario.no_answer "i-2" 3000 "/9j/4AAQ";
             App.ToggleListeningForSearch (Returned tt);
             App.OnError]
            (Prog.exec (App.constructor true)
               (App.initial
                  (IndexedDBService.mk (Some IndexedDBService.ClutterAI_DB)
                     [Samples.garage] [Samples.drill] (Some "b-1")),
                World_empty)))).
Proof.
  exact (proj1 (X17_one_microphone true
                  (IndexedDBService.mk (Some IndexedDBService.ClutterAI_DB)
                     [Samples.garage] [Samples.drill] (Some "b-1"))
                  [App.ToggleListeningForBox (Returned tt);
                   App.ToggleListeningForItem (Threw TypeError);
                   App.OnImageCaptured AppScenario.no_answer "i-2" 3000
                     "/9j/4AAQ";
                   App.ToggleListeningForSearch (Returned tt);
                   App.OnError]
                  World_empty)).
Defined.

Lemma X19_seal_switch_witness :
  let st1 := Prog.exec (App.toggleBoxStatus Samples.garage)
               (AppScenario.app, AppScenario.world) in
  let st2 := Prog.exec
               (App.toggleBoxStatus
                  (Box.with_isFull Samples.garage
                     (negb (Box.isFull Samples.garage))))
               st1 in
  store_boxes AppScenario.world !! "b-1" = Some Samples.garage
  /\ st2 = (AppScenario.app, AppScenario.world).
Proof.
  intros st1 st2.
  assert (Hstore : store_boxes AppScenario.world !! "b-1"
                   = Some Samples.garage) by (vm_compute; reflexivity).
  split; [exact Hstore|].
  destruct (X19_seal_switch Samples.garage AppScenario.app AppScenario.world)
    as [_ Hback].
  destruct Hback as [Hs Hw].
  - cbn. distinct_strings.
  - cbn. left.
  - apply injective_projections; [exact Hs|exact (Hw Hstore)].
Defined.

Lemma session_calls_sample :
  session_calls AppSession.events (AppScenario.app, AppScenario.world)
  = [ AddBox "b-2" 3000 "Attic";
      AddItem "i-2" 4000 "b-2"
        (captured "/9j/4AAQ" AppScenario.unidentified);
      UpdateBoxStatus "b-2" true;
      AddBox "b-3" 5000 "Shed" ].
Proof. vm_compute. reflexivity. Defined.

Lemma app_session_fresh :
  fresh_uuids (IndexedDBService.boxes (App.inventory AppScenario.app))
    (IndexedDBService.items (App.inventory AppScenario.app))
    (session_calls AppSession.events (AppScenario.app, AppScenario.world)).
Proof. rewrite session_calls_sample. split; cbn; distinct_strings. Defined.

Lemma app_sound :
  items_in_boxes (IndexedDBService.boxes (App.inventory AppScenario.app))
    (IndexedDBService.items (App.inventory AppScenario.app)).
Proof.
  intros i Hi. cbn in Hi. apply elem_of_cons in Hi as [->|Hi].
  - exists Samples.garage. split; [left|split; reflexivity].
  - now apply not_elem_of_nil in Hi.
Defined.

Lemma app_mirrors : mirrors (App.inventory AppScenario.app) AppScenario.world.
Proof. split; vm_compute; reflexivity. Defined.

(** The same as three steps of the component, after which no handler
    waits. *)
Lemma X20_items_only_grow_witness :
  let live := App.run_turns AppScenario.sealed_meanwhile
                ((AppScenario.app, AppScenario.world), []) in
  IndexedDBService.items (App.inventory AppScenario.app)
    `suffix_of` IndexedDBService.items (App.inventory (fst (fst live)))
  /\ IndexedDBService.items (App.inventory (fst (fst live)))
     = Views.newItem "i-2" 3000 "b-1" (Box.with_isFull Samples.garage true)
         (captured "/9j/4AAQ" AppScenario.unidentified)
         :: [Samples.drill]
  /\ snd live = [].
Proof.
  intros live. split.
  - exact (proj1 (proj2 (X20_items_only_grow AppScenario.sealed_meanwhile
                           ((AppScenario.app, AppScenario.world), [])))).
  - split; vm_compute; reflexivity.
Defined.

Lemma X21_events_are_calls_witness :
  let st := run_calls App.handle AppSession.events
              (AppScenario.app, AppScenario.world) in
  let st0 := run_calls idb_op
               (session_calls AppSession.events
                  (AppScenario.app, AppScenario.world))
               (App.inventory AppScenario.app, AppScenario.world) in
  IndexedDBService.boxes (App.inventory (fst st))
  = IndexedDBService.boxes (fst st0)
  /\ IndexedDBService.items (App.inventory (fst st))
     = IndexedDBService.items (fst st0).
Proof.
  intros st st0.
  destruct (X21_events_are_calls AppSession.events AppScenario.app
              AppScenario.world) as (_ & Hb & Hi & _).
  split; [exact Hb|exact Hi].
Defined.

Lemma X22_component_keeps_inventory_sound_witness :
  let inv' := App.inventory
                (fst (run_calls App.handle AppSession.events
                        (AppScenario.app, AppScenario.world))) in
  fresh_uuids (IndexedDBService.boxes (App.inventory AppScenario.app))
    (IndexedDBService.items (App.inventory AppScenario.app))
    (session_calls AppSession.events (AppScenario.app, AppScenario.world))
  /\ items_in_boxes (IndexedDBService.boxes (App.inventory AppScenario.app))
       (IndexedDBService.items (App.inventory AppScenario.app))
  /\ items_in_boxes (IndexedDBService.boxes inv')
       (IndexedDBService.items inv').
Proof.
  intros inv'. split; [exact app_session_fresh|]. split; [exact app_sound|].
  exact (proj1 (proj2 (proj2 (X22_component_keeps_inventory_sound
                                AppSession.events AppScenario.app
                                AppScenario.world app_session_fresh
                                app_sound)))).
Defined.

Lemma X23_component_session_survives_restart_witness :
  let st := run_calls App.handle AppSession.events
              (AppScenario.app, AppScenario.world) in
  let s' := fst (Prog.exec (IndexedDBService.constructor true)
                   (IndexedDBService.initial, snd st)) in
  is_open (App.inventory AppScenario.app) = true
  /\ mirrors (App.inventory AppScenario.app) AppScenario.world
  /\ IndexedDBService.boxes s'
     ≡ₚ IndexedDBService.boxes (App.inventory (fst st))
  /\ IndexedDBService.items s'
     ≡ₚ IndexedDBService.items (App.inventory (fst st)).
Proof.
  intros st s'. split; [reflexivity|]. split; [exact app_mirrors|].
  destruct (X23_component_session_survives_restart AppSession.events
              AppScenario.app AppScenario.world eq_refl app_mirrors
              app_session_fresh eq_refl eq_refl)
    as (_ & _ & Hb & Hi & _).
  split; [exact Hb|exact Hi].
Defined.
